(** * mx-detection: backbone, loss kernels and target adapters

    A shallow embedding of the parts of

      - [models/fpn/_resnext.py]      (ResNeXt backbone construction),
      - [scripts/train_fcos.py]       (loss kernels, loss assembly, target adapter),
      - [scripts/train_retinanet.py]  (padding adapter, parameter selection)

    that the specification makes statements about, together with the
    properties that hold of them.

    Conventions.  Python integers are [Z]; tensor entries are real numbers
    [R] (floating-point rounding is not modelled, the loss formulas are
    read as the real functions they denote); a Python exception is a value
    of [Exn] returned through [Result]; numpy arrays that are shared
    between caller and callee live in a heap indexed by locations. *)

From Stdlib Require Import Reals Rminmax Lra Lia ZArith List String.
From stdpp Require Import gmap strings list fin_maps pretty.

(** ** Python exceptions *)

Module Py.

Inductive Exn : Type :=
| AssertionError
| IndexError
| ValueError
| TypeError
| KeyError
| IOError.

Inductive Result (A : Type) : Type :=
| Ok (a : A)
| Raise (e : Exn).

Arguments Ok {A} a.
Arguments Raise {A} e.

Definition bind {A B} (r : Result A) (k : A -> Result B) : Result B :=
  match r with
  | Ok a => k a
  | Raise e => Raise e
  end.

(** [assert c] *)
Definition assert (c : bool) : Result unit :=
  if c then Ok tt else Raise AssertionError.

End Py.

Import Py.

Declare Scope py_scope.
Delimit Scope py_scope with py.
Notation "x <- c ;; k" := (Py.bind c (fun x => k))
  (at level 100, c at next level, right associativity) : py_scope.
Notation "c ;;; k" := (Py.bind c (fun _ => k))
  (at level 100, right associativity) : py_scope.

(** ** models/fpn/_resnext.py *)

Module Resnext.

Local Open Scope Z_scope.

(** Keyword arguments forwarded untouched to every normalization layer
    ([norm_kwargs], e.g. [num_devices]). *)
Definition NormKwargs : Type := list (string * Z).

(** The layers the backbone is assembled from.  A normalization layer
    records whether a [gamma_initializer] was passed ([Some "zeros"]) or
    the layer's own default is used ([None]). *)
Inductive Layer : Type :=
| Conv2D (channels kernel_size strides padding groups : Z) (use_bias : bool)
| DeformabelConv2D (num_filter kernel_size strides padding dilation : Z)
                   (use_bias : bool) (in_channels num_groups : Z)
| NormLayer (gamma_initializer : option string) (kwargs : NormKwargs)
| Activation (act : string)
| MaxPool2D (pool_size strides padding : Z).

(** [{} if norm_kwargs is None else norm_kwargs] *)
Definition kwargs_of (norm_kwargs : option NormKwargs) : NormKwargs :=
  match norm_kwargs with
  | None => []
  | Some kw => kw
  end.

Definition _conv3x3 (in_channels group_width kernel_size strides padding groups : Z)
    (use_bias : bool) : Layer :=
  DeformabelConv2D group_width kernel_size strides padding 1 use_bias in_channels groups.

(** [D = int(math.floor(channels * (bottleneck_width / 64)))].  The module
    enables true division, so the quotient is a float; a division by 64
    and the product with [channels] are exact below 2^53, hence the floor
    is the integer floor of [channels * bottleneck_width / 64]. *)
Definition Block_D (channels bottleneck_width : Z) : Z :=
  (channels * bottleneck_width) / 64.

(** [group_width = cardinality * D] *)
Definition Block_group_width (channels cardinality bottleneck_width : Z) : Z :=
  cardinality * Block_D channels bottleneck_width.

Record Block : Type := {
  body : list Layer;
  se : option (list Layer);
  downsample : option (list Layer)
}.

(** [Block.__init__] *)
Definition Block_init (channels cardinality bottleneck_width stride : Z)
    (downsample last_gamma use_se use_dcn : bool)
    (norm_kwargs : option NormKwargs) : Block :=
  let D := Block_D channels bottleneck_width in
  let group_width := cardinality * D in
  let kw := kwargs_of norm_kwargs in
  {| body :=
       [ Conv2D group_width 1 1 0 1 false;
         NormLayer None kw;
         Activation "relu";
         (if use_dcn
          then _conv3x3 group_width group_width 3 stride 1 cardinality false
          else Conv2D group_width 3 stride 1 cardinality false);
         NormLayer None kw;
         Activation "relu";
         Conv2D (channels * 4) 1 1 0 1 false;
         (if last_gamma
          then NormLayer None kw
          else NormLayer (Some "zeros") kw) ];
     se :=
       if use_se
       then Some [ Conv2D (channels / 4) 1 1 0 1 true;
                   Activation "relu";
                   Conv2D (channels * 4) 1 1 0 1 true;
                   Activation "sigmoid" ]
       else None;
     downsample :=
       if downsample
       then Some [ Conv2D (channels * 4) 1 stride 0 1 false;
                   NormLayer None kw ]
       else None |}.

(** Entries of [ResNext.features]: plain layers and the stages built by
    [_make_layer] (a nested sequential of blocks, prefix [stage<i>_]). *)
Inductive Feature : Type :=
| FLayer (l : Layer)
| FStage (stage_index : Z) (blocks : list Block).

Record ResNext : Type := {
  cardinality : Z;
  bottleneck_width : Z;
  features : list Feature
}.

(** [ResNext._make_layer] *)
Definition _make_layer (cardinality bottleneck_width : Z)
    (channels num_layers stride : Z) (last_gamma use_se : bool) (stage_index : Z)
    (norm_kwargs : option NormKwargs) (use_dcn : bool) : Feature :=
  FStage stage_index
    (Block_init channels cardinality bottleneck_width stride true
                last_gamma use_se use_dcn norm_kwargs
     :: List.repeat
          (Block_init channels cardinality bottleneck_width 1 false
                      last_gamma use_se use_dcn norm_kwargs)
          (Z.to_nat (num_layers - 1))).

(** The loop [for i, num_layer in enumerate(layers)] of [ResNext.__init__],
    started at index [i] with the running [channels]. *)
Fixpoint add_stages (cardinality bottleneck_width : Z) (last_gamma use_se : bool)
    (norm_kwargs : option NormKwargs) (i : Z) (channels : Z) (layers : list Z)
    : list Feature :=
  match layers with
  | [] => []
  | num_layer :: rest =>
      let stride := if i =? 0 then 1 else 2 in
      _make_layer cardinality bottleneck_width channels num_layer stride
                  last_gamma use_se (i + 1) norm_kwargs
                  (bool_decide (i ∈ [1; 2; 3]))
      :: add_stages cardinality bottleneck_width last_gamma use_se norm_kwargs
                    (i + 1) (channels * 2) rest
  end.

(** [ResNext.__init__] *)
Definition ResNext_init (layers : list Z) (cardinality bottleneck_width : Z)
    (last_gamma use_se : bool) (norm_kwargs : option NormKwargs) : ResNext :=
  let channels := 64 in
  {| cardinality := cardinality;
     bottleneck_width := bottleneck_width;
     features :=
       [ FLayer (Conv2D channels 7 2 3 1 false);
         FLayer (NormLayer None (kwargs_of norm_kwargs));
         FLayer (Activation "relu");
         FLayer (MaxPool2D 3 2 1) ]
       ++ add_stages cardinality bottleneck_width last_gamma use_se norm_kwargs
                     0 channels layers |}.



Section Constructor.

(** [net.load_parameters(get_model_file(name, ...), ...)]: the model store
    is outside the repository and may fail. *)
Variable load_parameters : string -> ResNext -> Result ResNext.



End Constructor.

(** *** Observations on a constructed network *)

(** The blocks of the stages, in order. *)
Fixpoint stages (fs : list Feature) : list (list Block) :=
  match fs with
  | [] => []
  | FLayer _ :: rest => stages rest
  | FStage _ blocks :: rest => blocks :: stages rest
  end.

(** Output channels of a sequential: those of its last convolution. *)
Fixpoint seq_out_channels (acc : option Z) (ls : list Layer) : option Z :=
  match ls with
  | [] => acc
  | Conv2D c _ _ _ _ _ :: rest => seq_out_channels (Some c) rest
  | DeformabelConv2D c _ _ _ _ _ _ _ :: rest => seq_out_channels (Some c) rest
  | _ :: rest => seq_out_channels acc rest
  end.

Definition block_out_channels (b : Block) : option Z :=
  seq_out_channels None (body b).

(** Width of the grouped bottleneck: the channels of the block's first
    convolution, which [Block.__init__] sets to [group_width]. *)
Definition block_group_width (b : Block) : option Z :=
  match body b with
  | Conv2D c _ _ _ _ _ :: _ => Some c
  | _ => None
  end.

(** The normalization layer that closes the body. *)
Definition block_last_norm (b : Block) : option Layer :=
  List.last (List.map Some (body b)) None.

(** *** The deformable convolution *)

(** [DeformabelConv2D.__init__]: the shape of [weight],
    [(num_filter, in_channels//num_groups, kernel_size, kernel_size)];
    [None] is the [ZeroDivisionError] of a zero [num_groups]. *)
Definition DeformabelConv2D_weight_shape (num_filter kernel_size in_channels num_groups : Z)
    : option (list Z) :=
  if num_groups =? 0 then None
  else Some [num_filter; in_channels / num_groups; kernel_size; kernel_size].

(** [channels=72] of [conv_offset] and [num_deformable_group=4] of
    [hybrid_forward]. *)
Definition conv_offset_channels : Z := 72.
Definition num_deformable_group : Z := 4.

(** The 3x3 convolution of a block: the fourth layer added to [body]. *)
Definition block_conv3x3 (b : Block) : option Layer := body b !! 3%nat.

End Resnext.

(** ** Arrays

    numpy arrays and the tensor library's arrays are modelled alike: a
    shape and the entries in row-major order. *)

Module Numpy.

Record ndarray : Type := NDArray {
  shape : list nat;
  data : list R
}.

Definition size_of (s : list nat) : nat := foldr Nat.mul 1%nat s.

(** An array holds as many entries as its shape says. *)
Definition wf (a : ndarray) : Prop := length (data a) = size_of (shape a).

Definition item (a : ndarray) (i : nat) : R := nth i (data a) 0%R.

Definition full (s : list nat) (v : R) : ndarray :=
  {| shape := s; data := List.repeat v (size_of s) |}.

(** [np.ones(shape)] *)
Definition ones (s : list nat) : ndarray := full s 1%R.

(** [ones_like(a)] *)
Definition ones_like (a : ndarray) : ndarray := ones (shape a).

(** Unary entrywise operations and operations with a Python scalar. *)
Definition map_nd (f : R -> R) (a : ndarray) : ndarray :=
  {| shape := shape a; data := List.map f (data a) |}.

(** [len(a)] *)
Definition len (a : ndarray) : Result nat :=
  match shape a with
  | [] => Raise TypeError
  | n :: _ => Ok n
  end.

Definition sumR (l : list R) : R := foldr Rplus 0%R l.

(** [a.sum()] of the tensor library: a one-entry array of shape [(1,)]. *)
Definition nd_sum (a : ndarray) : ndarray :=
  {| shape := [1%nat]; data := [sumR (data a)] |}.

(** *** Broadcasting *)

(** Shapes are compared from the last axis; an axis of extent 1 stretches. *)
Fixpoint broadcast_shape_rev (a b : list nat) : option (list nat) :=
  match a, b with
  | [], _ => Some b
  | _, [] => Some a
  | x :: a', y :: b' =>
      match broadcast_shape_rev a' b' with
      | None => None
      | Some r =>
          if (x =? y)%nat then Some (x :: r)
          else if (x =? 1)%nat then Some (y :: r)
          else if (y =? 1)%nat then Some (x :: r)
          else None
      end
  end.

Definition broadcast_shape (a b : list nat) : option (list nat) :=
  match broadcast_shape_rev (List.rev a) (List.rev b) with
  | Some r => Some (List.rev r)
  | None => None
  end.

(** Position in a source of shape [src] (last axis first) of the entry
    that lands at row-major position [p] of the broadcast result. *)
Fixpoint src_index_rev (out src : list nat) (p stride : nat) : nat :=
  match out, src with
  | d :: out', sd :: src' =>
      ((if (sd =? 1)%nat then 0 else (p mod d) * stride)
       + src_index_rev out' src' (p / d) (stride * sd))%nat
  | _, _ => 0%nat
  end.

Definition src_index (out src : list nat) (p : nat) : nat :=
  src_index_rev (List.rev out) (List.rev src) p 1.

(** Binary entrywise operations between two arrays ([broadcast_add],
    [broadcast_mul], ...). *)
Definition broadcast_binary (f : R -> R -> R) (a b : ndarray) : Result ndarray :=
  match broadcast_shape (shape a) (shape b) with
  | None => Raise ValueError
  | Some s =>
      Ok {| shape := s;
            data := List.map
                      (fun p => f (item a (src_index s (shape a) p))
                                  (item b (src_index s (shape b) p)))
                      (seq 0 (size_of s)) |}
  end.

(** *** Indexing along the second axis *)

(** Entries [a[i, j, r]] for [j] in [lo, lo + len), in row-major order. *)
Definition axis1_entries (a : ndarray) (n c inner lo len : nat) : list R :=
  flat_map (fun i =>
    flat_map (fun j =>
      List.map (fun r => item a ((i * c + j) * inner + r)%nat) (seq 0 inner))
      (seq lo len))
    (seq 0 n).

(** [a[:, lo:hi]]; [hi = None] is an open upper end.  Slice bounds clip. *)
Definition slice_axis1 (lo : nat) (hi : option nat) (a : ndarray) : Result ndarray :=
  match shape a with
  | n :: c :: rest =>
      let hi' := match hi with Some h => Nat.min h c | None => c end in
      let lo' := Nat.min lo hi' in
      Ok {| shape := n :: (hi' - lo')%nat :: rest;
            data := axis1_entries a n c (size_of rest) lo' (hi' - lo') |}
  | _ => Raise IndexError
  end.

(** [a[:, j]] *)
Definition index_axis1 (j : nat) (a : ndarray) : Result ndarray :=
  match shape a with
  | n :: c :: rest =>
      if (j <? c)%nat
      then Ok {| shape := n :: rest;
                 data := axis1_entries a n c (size_of rest) j 1 |}
      else Raise IndexError
  | _ => Raise IndexError
  end.

(** The entries of [a[:, j]] for [a] of shape [(b, c, n)]. *)
Definition channel (b c n j : nat) (a : ndarray) : list R :=
  axis1_entries a b c (size_of [n]) j 1.

(** [a[:, j] += v], in place on the array's buffer. *)
Definition iadd_axis1 (j : nat) (v : R) (a : ndarray) : Result ndarray :=
  match shape a with
  | n :: c :: rest =>
      if (j <? c)%nat
      then Ok {| shape := shape a;
                 data := imap (fun p x =>
                                 if ((p / size_of rest) mod c =? j)%nat
                                 then (x + v)%R else x)
                              (data a) |}
      else Raise IndexError
  | _ => Raise IndexError
  end.

(** [a.transpose((0, 2, 1))] *)
Definition transpose_021 (a : ndarray) : Result ndarray :=
  match shape a with
  | [b; c; n] =>
      Ok {| shape := [b; n; c];
            data := flat_map (fun i =>
                      flat_map (fun k =>
                        List.map (fun j => item a ((i * c + j) * n + k)%nat) (seq 0 c))
                        (seq 0 n))
                      (seq 0 b) |}
  | _ => Raise ValueError
  end.

(** [a.transpose((2, 0, 1))] *)
Definition transpose_201 (a : ndarray) : Result ndarray :=
  match shape a with
  | [h; w; c] =>
      Ok {| shape := [c; h; w];
            data := flat_map (fun k =>
                      flat_map (fun i =>
                        List.map (fun j => item a ((i * w + j) * c + k)%nat) (seq 0 w))
                        (seq 0 h))
                      (seq 0 c) |}
  | _ => Raise ValueError
  end.

(** [a.reshape((-1, k))] *)
Definition reshape_m1 (k : nat) (a : ndarray) : Result ndarray :=
  let sz := size_of (shape a) in
  if (k =? 0)%nat then Raise ValueError
  else if (sz mod k =? 0)%nat
       then Ok {| shape := [(sz / k)%nat; k]; data := data a |}
       else Raise ValueError.

(** [a.reshape((a.shape[0], -1))] *)
Definition reshape_keep0 (a : ndarray) : Result ndarray :=
  match shape a with
  | [] => Raise IndexError
  | n :: rest =>
      if (n =? 0)%nat then Raise ValueError
      else Ok {| shape := [n; size_of rest]; data := data a |}
  end.

(** Row [i] of a two-dimensional array with [w] columns. *)
Definition row (w : nat) (a : ndarray) (i : nat) : list R :=
  take w (drop (i * w) (data a)).

(** [np.concatenate(arrays, axis=1)] for two-dimensional arrays. *)
Definition concatenate_axis1 (arrays : list ndarray) : Result ndarray :=
  match arrays with
  | [] => Raise ValueError
  | a0 :: _ =>
      match shape a0 with
      | [n; _] =>
          if forallb (fun a => match shape a with
                               | [n'; _] => (n' =? n)%nat
                               | _ => false
                               end) arrays
          then
            let widths := List.map (fun a => nth 1 (shape a) 0%nat) arrays in
            Ok {| shape := [n; foldr Nat.add 0%nat widths];
                  data := flat_map (fun i =>
                            flat_map (fun a => row (nth 1 (shape a) 0%nat) a i) arrays)
                            (seq 0 n) |}
          else Raise ValueError
      | _ => Raise ValueError
      end
  end.

(** *** Assignment into a block of rows *)

(** Leading axes of extent 1 are dropped from a value that has more axes
    than the two of the destination. *)
Fixpoint strip_leading_ones (s : list nat) : list nat :=
  match s with
  | 1%nat :: (_ :: _ :: _) as rest => strip_leading_ones rest
  | _ => s
  end.

(** The entries a value [v] contributes to a block of [n] rows and [k]
    columns, by the broadcasting rule of assignment. *)
Definition broadcast_to_block (n k : nat) (v : ndarray) : Result (list R) :=
  let '(r, c) := match strip_leading_ones (shape v) with
                 | [] => (Some 1%nat, 1%nat)
                 | [c] => (Some 1%nat, c)
                 | [r; c] => (Some r, c)
                 | _ => (None, 0%nat)
                 end in
  match r with
  | None => Raise ValueError
  | Some r =>
      if ((r =? n) || (r =? 1))%nat && ((c =? k) || (c =? 1))%nat
      then Ok (flat_map (fun i =>
                 List.map (fun j =>
                   item v ((if (r =? 1)%nat then 0 else i) * c
                           + (if (c =? 1)%nat then 0 else j))%nat)
                   (seq 0 k))
                 (seq 0 n))
      else Raise ValueError
  end.

(** [dst[:n, :k] = v] for a two-dimensional [dst]; slice bounds clip. *)
Definition setitem_block (dst : ndarray) (n k : nat) (v : ndarray) : Result ndarray :=
  match shape dst with
  | [m; w] =>
      let n' := Nat.min n m in
      let k' := Nat.min k w in
      Py.bind (broadcast_to_block n' k' v) (fun vals =>
        Ok {| shape := shape dst;
              data := imap (fun p x =>
                              if ((p / w <? n') && (p mod w <? k'))%nat
                              then nth ((p / w) * k' + p mod w)%nat vals 0%R
                              else x)
                           (data dst) |})
  | _ => Raise IndexError
  end.

End Numpy.

(** ** State with exceptions

    A computation reads and updates a state and may raise; the state
    reached so far survives the exception, as it does in Python. *)

Module ST.

Definition M (S A : Type) : Type := S -> Result A * S.

Definition ret {S A} (a : A) : M S A := fun s => (Ok a, s).

Definition bind {S A B} (m : M S A) (k : A -> M S B) : M S B :=
  fun s =>
    match m s with
    | (Ok a, s') => k a s'
    | (Raise e, s') => (Raise e, s')
    end.

Definition lift {S A} (r : Result A) : M S A := fun s => (r, s).

Definition get {S} : M S S := fun s => (Ok s, s).

Definition modify {S} (f : S -> S) : M S unit := fun s => (Ok tt, f s).

End ST.

Declare Scope st_scope.
Delimit Scope st_scope with st.
Notation "x <- c ;; k" := (ST.bind c (fun x => k))
  (at level 100, c at next level, right associativity) : st_scope.
Notation "c ;;; k" := (ST.bind c (fun _ => k))
  (at level 100, right associativity) : st_scope.

(** ** The heap of numpy arrays *)

Module Heap.

Import Numpy.

Definition loc : Type := positive.

Abbreviation heap := (gmap loc ndarray).

(** A new array object. *)
Definition alloc (a : ndarray) : ST.M heap loc :=
  fun h => let l := fresh (dom h) in (Ok l, <[l := a]> h).

Definition load (l : loc) : ST.M heap ndarray :=
  fun h =>
    match h !! l with
    | Some a => (Ok a, h)
    | None => (Raise KeyError, h)
    end.

Definition store (l : loc) (a : ndarray) : ST.M heap unit :=
  fun h => (Ok tt, <[l := a]> h).

(** Every array of [h0] is still in [h], with the same contents. *)
Definition preserves (h0 h : heap) : Prop :=
  forall l a, h0 !! l = Some a -> h !! l = Some a.

(** Started in a heap that preserves [h0], the computation ends in one
    that does, whether it returns or raises, and a value it returns
    satisfies [Q]. *)
Definition frame {A} (h0 : heap) (m : ST.M heap A) (Q : A -> Prop) : Prop :=
  forall h, preserves h0 h ->
            preserves h0 (snd (m h)) /\ forall a, fst (m h) = Ok a -> Q a.

End Heap.

(** ** scripts/train_fcos.py *)

Module TrainFcos.

Import Numpy Heap.

Local Open Scope R_scope.

(** *** Registered loss kernels *)

(** Modelled from the spec: the operator loader that [@mobula.op.register]
    hands the kernels to is outside the repository.  It runs a registered
    kernel on two inputs by asking [infer_shape] for the output shape,
    running [forward], and assigning the value to an output buffer of the
    inferred shape. *)
Definition mobula_call
    (infer_shape : list (list nat) -> Result (list (list nat) * list (list nat)))
    (forward : ndarray -> ndarray -> Result ndarray)
    (y target : ndarray) : Result ndarray :=
  (io <- infer_shape [shape y; shape target] ;;
   out <- forward y target ;;
   match snd io with
   | [] => Raise IndexError
   | s :: _ => if bool_decide (shape out = s) then Ok out else Raise ValueError
   end)%py.

(** [in_shape[i]] *)
Definition getitem {A} (l : list A) (i : nat) : Result A :=
  match l !! i with
  | Some x => Ok x
  | None => Raise IndexError
  end.

Definition BCELoss_forward_entry (y target : R) : R :=
  ln (1 + exp y) - target * y.

(** [BCELoss.forward] *)
Definition BCELoss_forward (y target : ndarray) : Result ndarray :=
  broadcast_binary BCELoss_forward_entry y target.

(** [BCELoss.infer_shape]; the first component is what [print] wrote. *)
Definition BCELoss_infer_shape (in_shape : list (list nat))
    : list (list (list nat)) * Result (list (list nat) * list (list nat)) :=
  match getitem in_shape 0, getitem in_shape 1 with
  | Ok s0, Ok s1 =>
      if bool_decide (s0 = s1)
      then ([], Ok (in_shape, [s0]))
      else ([in_shape], Raise AssertionError)
  | _, _ => ([], Raise IndexError)
  end.

Definition BCELoss (y target : ndarray) : Result ndarray :=
  mobula_call (fun in_shape => snd (BCELoss_infer_shape in_shape)) BCELoss_forward y target.

Definition L2Loss_forward_entry (y target : R) : R := (y - target) ^ 2.

(** [L2Loss.forward] *)
Definition L2Loss_forward (y target : ndarray) : Result ndarray :=
  broadcast_binary L2Loss_forward_entry y target.

(** [L2Loss.infer_shape] *)
Definition L2Loss_infer_shape (in_shape : list (list nat))
    : Result (list (list nat) * list (list nat)) :=
  (s0 <- getitem in_shape 0 ;;
   s1 <- getitem in_shape 1 ;;
   Py.assert (bool_decide (s0 = s1)) ;;;
   Ok (in_shape, [s0]))%py.

Definition L2Loss (y target : ndarray) : Result ndarray :=
  mobula_call L2Loss_infer_shape L2Loss_forward y target.

Definition sigmoid (x : R) : R := 1 / (1 + exp (- x)).

Definition BCEFocalLoss_entry (x target : R) : R :=
  let alpha := 0.25 in
  let p := sigmoid x in
  let loss := alpha * target * ((1 - p) ^ 2) * ln (p + 1e-11) in
  let loss := loss + (1 - alpha) * (1 - target) * (p ^ 2) * ln (1 - p + 1e-11) in
  - loss.

(** [BCEFocalLoss] *)
Definition BCEFocalLoss (x target : ndarray) : Result ndarray :=
  broadcast_binary BCEFocalLoss_entry x target.

(** *** IoULoss *)

(** One row [(l, t, r, b)] of a four-column tensor. *)
Record Row4 : Type := { l_ : R; t_ : R; r_ : R; b_ : R }.

(** The twelve sums that enter the exponentials. *)
Record CornerSums : Type := {
  tl : R; tr : R; bl : R; br : R;
  tl_hat : R; tr_hat : R; bl_hat : R; br_hat : R;
  tl_i : R; tr_i : R; bl_i : R; br_i : R
}.

(** [IoULoss.max]; it is only ever called with twelve arguments. *)
Definition IoULoss_max (args : list R) : R :=
  match args with
  | [] => 0
  | maximum :: rest => fold_left Rmax rest maximum
  end.

Definition corner_sums (prediction target : Row4) : CornerSums :=
  let x_t_i := Rmin (t_ target) (t_ prediction) in
  let x_b_i := Rmin (b_ target) (b_ prediction) in
  let x_l_i := Rmin (l_ target) (l_ prediction) in
  let x_r_i := Rmin (r_ target) (r_ prediction) in
  {| tl := t_ target + l_ target;
     tr := t_ target + r_ target;
     bl := b_ target + l_ target;
     br := b_ target + r_ target;
     tl_hat := t_ prediction + l_ prediction;
     tr_hat := t_ prediction + r_ prediction;
     bl_hat := b_ prediction + l_ prediction;
     br_hat := b_ prediction + r_ prediction;
     tl_i := x_t_i + x_l_i;
     tr_i := x_t_i + x_r_i;
     bl_i := x_b_i + x_l_i;
     br_i := x_b_i + x_r_i |}.

(** From [max_v = self.max(...)] to the returned [-I_over_U.log()]. *)
Definition log_sum_exp_step (c : CornerSums) : R :=
  let max_v := IoULoss_max [tl c; tr c; bl c; br c;
                            tl_hat c; tr_hat c; bl_hat c; br_hat c;
                            tl_i c; tr_i c; bl_i c; br_i c] in
  let I := exp (tl_i c - max_v) + exp (tr_i c - max_v)
           + exp (bl_i c - max_v) + exp (br_i c - max_v) in
  let X := exp (tl c - max_v) + exp (tr c - max_v)
           + exp (bl c - max_v) + exp (br c - max_v) in
  let X_hat := exp (tl_hat c - max_v) + exp (tr_hat c - max_v)
               + exp (bl_hat c - max_v) + exp (br_hat c - max_v) in
  let I_over_U := I / (X + X_hat - I) + 1e-7 in
  - ln I_over_U.

(** All twelve sums moved by the same constant. *)
Definition shift_sums (c : R) (s : CornerSums) : CornerSums :=
  {| tl := tl s + c; tr := tr s + c; bl := bl s + c; br := br s + c;
     tl_hat := tl_hat s + c; tr_hat := tr_hat s + c;
     bl_hat := bl_hat s + c; br_hat := br_hat s + c;
     tl_i := tl_i s + c; tr_i := tr_i s + c;
     bl_i := bl_i s + c; br_i := br_i s + c |}.

(** [target = maximum(target, ones_like(target)); target = log(target)] *)
Definition log_target (target : Row4) : Row4 :=
  {| l_ := ln (Rmax (l_ target) 1);
     t_ := ln (Rmax (t_ target) 1);
     r_ := ln (Rmax (r_ target) 1);
     b_ := ln (Rmax (b_ target) 1) |}.

(** What [IoULoss.forward] computes at one position. *)
Definition IoULoss_forward_row (prediction target : Row4) : R :=
  log_sum_exp_step (corner_sums prediction (log_target target)).

(** The four entries [a[:, 0], ..., a[:, 3]] at position [i] of the column. *)
Definition row4_at (a : ndarray) (i : nat) : Row4 :=
  match shape a with
  | n :: c :: rest =>
      let col j := nth i (axis1_entries a n c (size_of rest) j 1) 0 in
      {| l_ := col 0%nat; t_ := col 1%nat; r_ := col 2%nat; b_ := col 3%nat |}
  | _ => {| l_ := 0; t_ := 0; r_ := 0; b_ := 0 |}
  end.

(** [x.shape[1]] *)
Definition shape1 (a : ndarray) : Result nat := getitem (shape a) 1.

(** [IoULoss.forward]: after the two assertions every operation is
    entrywise on the columns of [prediction] and [target], which
    broadcast against each other. *)
Definition IoULoss_forward (prediction target : ndarray) : Result ndarray :=
  (cp <- shape1 prediction ;;
   Py.assert (cp =? 4)%nat ;;;
   ct <- shape1 target ;;
   Py.assert (ct =? 4)%nat ;;;
   let sp := hd 0%nat (shape prediction) :: drop 2 (shape prediction) in
   let st := hd 0%nat (shape target) :: drop 2 (shape target) in
   match broadcast_shape sp st with
   | None => Raise ValueError
   | Some s =>
       Ok {| shape := s;
             data := List.map
                       (fun q => IoULoss_forward_row
                                   (row4_at prediction (src_index s sp q))
                                   (row4_at target (src_index s st q)))
                       (seq 0 (size_of s)) |}
   end)%py.

(** *** Loss assembly in [train_net] *)

Section BatchLoss.

(** The native kernels [mobula.op.IoULoss] and [mobula.op.FocalLoss]
    ([alpha], [gamma], [logits], [targets]). *)
Variable IoULoss_op : ndarray -> ndarray -> Result ndarray.
Variable FocalLoss_op : R -> R -> ndarray -> ndarray -> Result ndarray.

Record BatchLosses : Type := {
  loss_total : ndarray;
  iou_loss : ndarray;
  loss_center : ndarray;
  loss_cls : ndarray
}.

(** [a[:, lo:hi].transpose((0, 2, 1)).reshape((-1, k))] *)
Definition rows_of (lo hi k : nat) (a : ndarray) : Result ndarray :=
  (x <- slice_axis1 lo (Some hi) a ;;
   x <- transpose_021 x ;;
   reshape_m1 k x)%py.

(** [x + 1] with a Python scalar *)
Definition plus_scalar (a : ndarray) (v : R) : ndarray := map_nd (fun x => x + v) a.

(** The body of [for data, targets in zip(data_list, targets_list)] from
    [num_pos] to [loss_total], for the concatenated predictions [preds]. *)
Definition batch_losses (preds targets : ndarray) : Result BatchLosses :=
  (t0 <- index_axis1 0 targets ;;
   let num_pos := plus_scalar (nd_sum t0) 1 in
   p_loc <- rows_of 0 4 4 preds ;;
   t_loc <- rows_of 1 5 4 targets ;;
   iou <- IoULoss_op p_loc t_loc ;;
   w <- rows_of 5 6 1 targets ;;
   iou_w <- broadcast_binary Rmult iou w ;;
   t5 <- index_axis1 5 targets ;;
   iou_loss <- broadcast_binary Rdiv iou_w (plus_scalar (nd_sum t5) 1) ;;
   p4 <- index_axis1 4 preds ;;
   t5 <- index_axis1 5 targets ;;
   bce <- BCELoss p4 t5 ;;
   t0 <- index_axis1 0 targets ;;
   bce_m <- broadcast_binary Rmult bce t0 ;;
   loss_center <- broadcast_binary Rdiv bce_m num_pos ;;
   logits <- slice_axis1 5 None preds ;;
   cls_targets <- slice_axis1 6 None targets ;;
   focal <- FocalLoss_op 0.25 2 logits cls_targets ;;
   loss_cls <- broadcast_binary Rdiv focal num_pos ;;
   s <- broadcast_binary Rplus (nd_sum loss_center) (nd_sum iou_loss) ;;
   loss_total <- broadcast_binary Rplus s (nd_sum loss_cls) ;;
   Ok {| loss_total := loss_total;
         iou_loss := iou_loss;
         loss_center := loss_center;
         loss_cls := loss_cls |})%py.

End BatchLoss.

(** The per-batch loss in the words of the specification:
    [sum(centerness_loss)/num_pos + sum(IoU_loss * positive_mask)/sum(positive_mask)
     + sum(focal_cls_loss)/num_pos] with [num_pos = sum(positive_mask) + 1]. *)
Definition spec_batch_loss (centerness_loss IoU_loss focal_cls_loss positive_mask : list R)
    : R :=
  let num_pos := sumR positive_mask + 1 in
  sumR centerness_loss / num_pos
  + sumR (zip_with Rmult IoU_loss positive_mask) / sumR positive_mask
  + sumR focal_cls_loss / num_pos.

(** A batch of two images with two positions each and one class channel,
    and an IoU kernel that reports the loss 1 at every row, as a column;
    they exercise the loss assembly.  Three positions are positive, with
    centerness targets 1/2, 1/4 and 1/4; the fourth is negative. *)
Definition unit_iou_kernel (p t : ndarray) : Result ndarray :=
  Ok (full [hd 0%nat (shape p); 1%nat] 1).

Definition sample_preds : ndarray :=
  {| shape := [2%nat; 6%nat; 2%nat]; data := List.repeat 0 24 |}.

Definition sample_targets : ndarray :=
  {| shape := [2%nat; 7%nat; 2%nat];
     data := [1; 1;  1; 1;  1; 1;  1; 1;  1; 1;  1 / 2; 1 / 4;  1; 0;
              1; 0;  1; 1;  1; 1;  1; 1;  1; 1;  1 / 4; 0;      0; 0] |}.

(** *** FCOSTargetGenerator *)

Record Config : Type := {
  FPN_SCALES : list Z;
  FPN_MINIMUM_DISTANCES : list Z;
  FPN_MAXIMUM_DISTANCES : list Z;
  NUM_CLASSES : Z
}.

(** The values [main] assigns, for [--num-classes] [num_classes]. *)
Definition main_config (num_classes : Z) : Config :=
  {| FPN_SCALES := [8; 16; 32; 64; 128]%Z;
     FPN_MINIMUM_DISTANCES := [0; 64; 128; 256; 512]%Z;
     FPN_MAXIMUM_DISTANCES := [64; 128; 256; 512; 4096]%Z;
     NUM_CLASSES := num_classes |}.

(** [zip(a, b, c)] *)
Fixpoint zip3 {A B C} (a : list A) (b : list B) (c : list C) : list (A * B * C) :=
  match a, b, c with
  | x :: a', y :: b', z :: c' => (x, y, z) :: zip3 a' b' c'
  | _, _, _ => []
  end.

Section TargetGenerator.

(** Rounding of an entry to single precision. *)
Variable to_float32 : R -> R.

(** The native kernel [mobula.op.FCOSTargetGenerator[np.ndarray]]
    ([stride], [min_distance], [max_distance], [number_of_classes]) run on
    two array buffers: it yields the target and leaves the two buffers
    with the returned contents. *)
Variable FCOSTargetGenerator_op :
  Z -> Z -> Z -> Z -> ndarray -> ndarray -> Result (ndarray * (ndarray * ndarray)).

(** [a.astype(np.float32)], [mx.nd.array(a)] *)
Definition astype_float32 (a : ndarray) : ndarray := map_nd to_float32 a.

(** One round of the loop over the pyramid levels. *)
Definition level_target (self : Config) (image_transposed bboxes : loc)
    (level : Z * Z * Z) : ST.M heap ndarray :=
  (let '(stride, min_distance, max_distance) := level in
   img <- load image_transposed ;;
   img32 <- alloc (astype_float32 img) ;;
   b <- load bboxes ;;
   b32 <- alloc (astype_float32 b) ;;
   r <- ST.lift (FCOSTargetGenerator_op stride min_distance max_distance
                   (NUM_CLASSES self) (astype_float32 img) (astype_float32 b)) ;;
   store img32 (fst (snd r)) ;;;
   store b32 (snd (snd r)) ;;;
   target <- ST.lift (transpose_201 (fst r)) ;;
   ST.lift (reshape_keep0 target))%st.

Fixpoint level_targets (self : Config) (image_transposed bboxes : loc)
    (levels : list (Z * Z * Z)) : ST.M heap (list ndarray) :=
  match levels with
  | [] => ST.ret []
  | level :: rest =>
      (target <- level_target self image_transposed bboxes level ;;
       targets <- level_targets self image_transposed bboxes rest ;;
       ST.ret (target :: targets))%st
  end.

(** [FCOSTargetGenerator.__call__]; arguments and results are references
    to arrays in the heap. *)
Definition FCOSTargetGenerator_call (self : Config) (image_transposed bboxes : loc)
    : ST.M heap (list loc) :=
  (img <- load image_transposed ;;
   ST.lift (match shape img with
            | [h; w; c] => Ok tt
            | _ => Raise ValueError
            end) ;;;
   b <- load bboxes ;;
   bboxes <- alloc b ;;
   b <- load bboxes ;;
   b <- ST.lift (iadd_axis1 4 1 b) ;;
   store bboxes b ;;;
   targets <- level_targets self image_transposed bboxes
                (zip3 (FPN_SCALES self) (FPN_MINIMUM_DISTANCES self)
                      (FPN_MAXIMUM_DISTANCES self)) ;;
   targets <- ST.lift (concatenate_axis1 targets) ;;
   img <- load image_transposed ;;
   out0 <- alloc (astype_float32 img) ;;
   out1 <- alloc (astype_float32 targets) ;;
   ST.ret [out0; out1])%st.

End TargetGenerator.

(** *** Gradients of the registered kernels and the focal variant *)

(** [BCELoss.backward]: [grad = sigmoid(X[0]) - X[1]] and
    [dX[0][:] = grad * dy]; nothing is written for the target.  The
    kernel runs on inputs of one shape ([infer_shape]), where the
    assignment stores the product as it is. *)
Definition BCELoss_backward_entry (y target dy : R) : R :=
  (sigmoid y - target) * dy.

Definition BCELoss_backward (X0 X1 dy : ndarray) : Result ndarray :=
  (grad <- broadcast_binary Rminus (map_nd sigmoid X0) X1 ;;
   broadcast_binary Rmult grad dy)%py.

(** [L2Loss.backward]: [grad = 2 * (X[0] - X[1])] and [dX[0][:] = grad * dy]. *)
Definition L2Loss_backward_entry (y target dy : R) : R :=
  2 * (y - target) * dy.

Definition L2Loss_backward (X0 X1 dy : ndarray) : Result ndarray :=
  (d <- broadcast_binary Rminus X0 X1 ;;
   broadcast_binary Rmult (map_nd (fun v => 2 * v) d) dy)%py.

(** One entry of [BCEFocalLossWithoutAlpha]: [pt = exp(-1 * bce_loss)],
    [r = bce_loss * (1 - pt) ** 2]. *)
Definition BCEFocalLossWithoutAlpha_entry (x target : R) : R :=
  let bce_loss := BCELoss_forward_entry x target in
  let pt := exp (-1 * bce_loss) in
  bce_loss * (1 - pt) ^ 2.

(** [BCEFocalLossWithoutAlpha]; [BCELoss] is the registered kernel. *)
Definition BCEFocalLossWithoutAlpha (x target : ndarray) : Result ndarray :=
  (bce_loss <- BCELoss x target ;;
   let pt := map_nd exp (map_nd (fun v => -1 * v) bce_loss) in
   broadcast_binary Rmult bce_loss
     (map_nd (fun v => v ^ 2) (map_nd (fun v => 1 - v) pt)))%py.

(** *** The quantities inside the IoU loss *)

(** The twelve arguments of [self.max], in the order of the call. *)
Definition corner_list (c : CornerSums) : list R :=
  [tl c; tr c; bl c; br c;
   tl_hat c; tr_hat c; bl_hat c; br_hat c;
   tl_i c; tr_i c; bl_i c; br_i c].

(** [max_v], [I], [X] and [X_hat] of [IoULoss.forward]. *)
Definition max_v (c : CornerSums) : R := IoULoss_max (corner_list c).

Definition I_sum (c : CornerSums) : R :=
  exp (tl_i c - max_v c) + exp (tr_i c - max_v c)
  + exp (bl_i c - max_v c) + exp (br_i c - max_v c).

Definition X_sum (c : CornerSums) : R :=
  exp (tl c - max_v c) + exp (tr c - max_v c)
  + exp (bl c - max_v c) + exp (br c - max_v c).

Definition X_hat_sum (c : CornerSums) : R :=
  exp (tl_hat c - max_v c) + exp (tr_hat c - max_v c)
  + exp (bl_hat c - max_v c) + exp (br_hat c - max_v c).

(** A row with the same constant added to its four entries. *)
Definition shift_row (c : R) (p : Row4) : Row4 :=
  {| l_ := l_ p + c; t_ := t_ p + c; r_ := r_ p + c; b_ := b_ p + c |}.

(** A row with its four entries multiplied by the same factor. *)
Definition scale_row (s : R) (p : Row4) : Row4 :=
  {| l_ := s * l_ p; t_ := s * t_ p; r_ := s * r_ p; b_ := s * b_ p |}.

(** *** The classification prior of [FCOS_Head] *)

(** The constant of [init_bias = mx.init.Constant(-1 * np.log((1-0.01) / 0.01))]. *)
Definition init_bias_value : R := -1 * ln ((1 - 0.01) / 0.01).

(** *** [SplitDataset] *)

(** [SplitDataset.__len__]: [len(self.da) // self.local_size]; [None] is
    the [ZeroDivisionError] of a zero [local_size]. *)
Definition SplitDataset_len (len_da local_size : Z) : option Z :=
  if (local_size =? 0)%Z then None else Some (len_da / local_size)%Z.

(** The index [SplitDataset.__getitem__] reads [self.da] at. *)
Definition SplitDataset_index (local_size local_rank idx : Z) : Z :=
  (idx * local_size + local_rank)%Z.

(** *** Resizing in [inference_one_image] *)

(** [fscale = min(image_short_size / min(image.shape[:2]),
                  image_max_long_size / max(image.shape[:2]))]; the sizes are
    Python integers and [/] is the true division. *)
Definition fscale (image_short_size image_max_long_size h w : Z) : R :=
  Rmin (IZR image_short_size / IZR (Z.min h w))
       (IZR image_max_long_size / IZR (Z.max h w)).

(** *** What [FCOSTargetGenerator.__call__] computes, without the heap *)

Section TargetGeneratorValue.

Variable to_float32 : R -> R.
Variable FCOSTargetGenerator_op :
  Z -> Z -> Z -> Z -> ndarray -> ndarray -> Result (ndarray * (ndarray * ndarray)).

(** The target of one pyramid level, from the image and the copy of the
    boxes whose class column was incremented. *)
Definition level_target_value (self : Config) (img b1 : ndarray) (level : Z * Z * Z)
    : Result ndarray :=
  (let '(stride, min_distance, max_distance) := level in
   r <- FCOSTargetGenerator_op stride min_distance max_distance (NUM_CLASSES self)
          (astype_float32 to_float32 img) (astype_float32 to_float32 b1) ;;
   target <- transpose_201 (fst r) ;;
   reshape_keep0 target)%py.

Fixpoint level_target_values (self : Config) (img b1 : ndarray)
    (levels : list (Z * Z * Z)) : Result (list ndarray) :=
  match levels with
  | [] => Ok []
  | level :: rest =>
      (target <- level_target_value self img b1 level ;;
       targets <- level_target_values self img b1 rest ;;
       Ok (target :: targets))%py
  end.

(** The contents of the two arrays the call returns. *)
Definition FCOSTargetGenerator_value (self : Config) (img b : ndarray)
    : Result (ndarray * ndarray) :=
  (match shape img with
   | [h; w; c] => Ok tt
   | _ => Raise ValueError
   end ;;;
   b1 <- iadd_axis1 4 1 b ;;
   targets <- level_target_values self img b1
                (zip3 (FPN_SCALES self) (FPN_MINIMUM_DISTANCES self)
                      (FPN_MAXIMUM_DISTANCES self)) ;;
   targets <- concatenate_axis1 targets ;;
   Ok (astype_float32 to_float32 img, astype_float32 to_float32 targets))%py.

End TargetGeneratorValue.

(** An image of one pixel, one box, and a kernel that reports a target of
    zeros and leaves its buffers as they are; they exercise the adapter. *)
Definition sample_image : ndarray :=
  {| shape := [1%nat; 1%nat; 3%nat]; data := [0; 0; 0] |}.

Definition sample_boxes : ndarray :=
  {| shape := [1%nat; 5%nat]; data := [10; 20; 30; 40; 0] |}.

Definition sample_kernel
    : Z -> Z -> Z -> Z -> ndarray -> ndarray -> Result (ndarray * (ndarray * ndarray)) :=
  fun _ _ _ _ image boxes => Ok (full [1%nat; 1%nat; 6%nat] 0, (image, boxes)).

End TrainFcos.

(** ** scripts/train_retinanet.py *)

Module TrainRetinanet.

Import Numpy Heap.

Record Config : Type := {
  max_bbox_number : nat;
  FIXED_PARAMS : option (list string)
}.

(** The values [main] assigns. *)
Definition main_config : Config :=
  {| max_bbox_number := 200;
     FIXED_PARAMS := Some [".*layers1.*"; ".*resnetv1b_conv0.*"]%string |}.

(** [RetinaNetTargetGenerator.__call__] *)
Definition RetinaNetTargetGenerator_call (config : Config)
    (image_transposed bboxes : loc) : ST.M heap (list loc) :=
  (b <- load bboxes ;;
   bboxes <- alloc b ;;
   b <- load bboxes ;;
   n <- ST.lift (len b) ;;
   ST.lift (Py.assert (n <=? max_bbox_number config)%nat) ;;;
   bboxes_padded <- alloc (map_nd (fun x => x * -1)%R
                                  (ones [max_bbox_number config; 5%nat])) ;;
   padded <- load bboxes_padded ;;
   b <- load bboxes ;;
   n <- ST.lift (len b) ;;
   padded <- ST.lift (setitem_block padded n 5 b) ;;
   store bboxes_padded padded ;;;
   ST.ret [image_transposed; bboxes_padded])%st.

(** *** Selection of the parameters to train *)

Inductive GradReq : Type := write | add | null.

Global Instance GradReq_eq_dec : EqDecision GradReq.
Proof. solve_decision. Defined.

Record GluonParameter : Type := {
  name : string;
  grad_req : GradReq
}.

(** The state of the loop: the parameter objects by name, the keys of
    [params_to_train] (each entry refers to the object of that name in
    [params_all]), and the messages logged. *)
Record Selection : Type := {
  params_all : gmap string GluonParameter;
  params_to_train : gset string;
  logged : list string
}.

(** ["running" not in p] *)
Definition contains (needle haystack : string) : bool :=
  match String.index 0 needle haystack with
  | Some _ => true
  | None => false
  end.

Section ParamSelection.

(** [re.match(f, str(p)) is not None]; compiling a pattern can raise. *)
Variable re_match : string -> string -> Result bool.

Definition lookup_param (p : string) : ST.M Selection GluonParameter :=
  fun s =>
    match params_all s !! p with
    | Some prm => (Ok prm, s)
    | None => (Raise KeyError, s)
    end.

(** [params_all[p].grad_req = req] *)
Definition set_grad_req (p : string) (req : GradReq) : ST.M Selection unit :=
  (prm <- lookup_param p ;;
   ST.modify (fun s =>
     {| params_all := <[p := {| name := name prm; grad_req := req |}]> (params_all s);
        params_to_train := params_to_train s;
        logged := logged s |}))%st.

(** [logging.info(msg)] *)
Definition logging_info (msg : string) : ST.M Selection unit :=
  ST.modify (fun s =>
    {| params_all := params_all s;
       params_to_train := params_to_train s;
       logged := logged s ++ [msg] |}).

(** [params_to_train[p] = params_all[p]] *)
Definition add_to_train (p : string) : ST.M Selection unit :=
  (_ <- lookup_param p ;;
   ST.modify (fun s =>
     {| params_all := params_all s;
        params_to_train := {[p]} ∪ params_to_train s;
        logged := logged s |}))%st.

(** [for f in params_fixed_prefix: ...], carrying [ignore]. *)
Fixpoint match_fixed (p : string) (fs : list string) (ignore : bool)
    : ST.M Selection bool :=
  match fs with
  | [] => ST.ret ignore
  | f :: rest =>
      (m <- ST.lift (re_match f p) ;;
       if m : bool
       then set_grad_req p null ;;;
            logging_info (p +:+ " is ignored when training because it matches "
                            +:+ f +:+ ".") ;;;
            match_fixed p rest true
       else match_fixed p rest ignore)%st
  end.

(** The body of [for p in params_all.keys()]. *)
Definition select_param (params_fixed_prefix : option (list string)) (p : string)
    : ST.M Selection unit :=
  (prm <- lookup_param p ;;
   ignore <- (if bool_decide (grad_req prm = null) && negb (contains "running" p)
              then logging_info ("ignore " +:+ p
                                   +:+ " because its grad req is set to null.") ;;;
                   ST.ret true
              else ST.ret false) ;;
   ignore <- match params_fixed_prefix with
             | None => ST.ret ignore
             | Some fs => match_fixed p fs ignore
             end ;;
   prm <- lookup_param p ;;
   if negb ignore && negb (bool_decide (grad_req prm = null))
   then add_to_train p
   else ST.ret tt)%st.

Fixpoint select_params (params_fixed_prefix : option (list string)) (keys : list string)
    : ST.M Selection unit :=
  match keys with
  | [] => ST.ret tt
  | p :: rest =>
      (select_param params_fixed_prefix p ;;;
       select_params params_fixed_prefix rest)%st
  end.

(** Lines 207-223 of [train_net]: the loop run over the keys of the
    collected parameters, from an empty [params_to_train]. *)
Definition train_net_select (config : Config) (collected : gmap string GluonParameter)
    : Result unit * Selection :=
  select_params (FIXED_PARAMS config) (map fst (map_to_list collected))
    {| params_all := collected; params_to_train := ∅; logged := [] |}.

End ParamSelection.

(** No entry of [params_to_train] refers to a parameter that is frozen. *)
Definition trainable (s : Selection) : Prop :=
  forall p, p ∈ params_to_train s ->
            exists prm, params_all s !! p = Some prm /\ grad_req prm ≠ null.

(** From [s] to [s'] every parameter object is still there, and its
    gradient requirement is what it was or has become ['null']. *)
Definition store_evolves (s s' : Selection) : Prop :=
  forall q prm,
    params_all s !! q = Some prm ->
    exists prm', params_all s' !! q = Some prm'
                 /\ (grad_req prm' = grad_req prm \/ grad_req prm' = null).

(** [s'] differs from [s] at most in the object named [p] and in the log. *)
Definition touches_only (p : string) (s s' : Selection) : Prop :=
  params_to_train s' = params_to_train s
  /\ (forall q, q ≠ p -> params_all s' !! q = params_all s !! q)
  /\ store_evolves s s'.

(** Two collected parameters: a frozen running statistic and a weight. *)
Definition sample_params : gmap string GluonParameter :=
  <["bn_running_mean"%string := {| name := "bn_running_mean"; grad_req := null |}]>
    (<["conv_weight"%string := {| name := "conv_weight"; grad_req := write |}]> ∅).

(** *** Localisation losses and padding in [train_net] *)

Local Open Scope R_scope.

(** One entry of [l1_loss]: [(pred - target).abs()]. *)
Definition l1_loss (pred target : R) : R := Rabs (pred - target).

(** One entry of [smooth_l1]:
    [where(diff < beta, 0.5 * diff * diff / beta, diff - 0.5 * beta)]. *)
Definition smooth_l1 (pred target beta : R) : R :=
  let diff := Rabs (pred - target) in
  if Rlt_dec diff beta then 0.5 * diff * diff / beta else diff - 0.5 * beta.

Local Close Scope R_scope.

(** [pad = lambda x: int(np.ceil(x/32) * 32)] on a Python integer.  The
    quotient [x/32] is a float; dividing by 32 is exact below 2^53, so the
    ceiling is the integer ceiling of [x/32], written with the floor
    division of [Z]. *)
Definition pad (x : Z) : Z := (- ((- x) / 32) * 32)%Z.

End TrainRetinanet.

(** ** Parameter selection in scripts/train_fcos.py *)

Module TrainFcosSelection.

Import TrainRetinanet.

(** [for f in params_fixed_prefix: if f in str(p) and "group" not in str(p): ...],
    carrying [ignore]. *)
Fixpoint match_fixed (p : string) (fs : list string) (ignore : bool)
    : ST.M Selection bool :=
  match fs with
  | [] => ST.ret ignore
  | f :: rest =>
      if contains f p && negb (contains "group" p)
      then (set_grad_req p null ;;;
            logging_info (p +:+ " is ignored when training.") ;;;
            match_fixed p rest true)%st
      else match_fixed p rest ignore
  end.

(** The body of [for p in params_all.keys()]. *)
Definition select_param (params_fixed_prefix : option (list string)) (p : string)
    : ST.M Selection unit :=
  (ignore <- match params_fixed_prefix with
             | None => ST.ret false
             | Some fs => match_fixed p fs false
             end ;;
   if negb ignore then add_to_train p else ST.ret tt)%st.

Fixpoint select_params (params_fixed_prefix : option (list string)) (keys : list string)
    : ST.M Selection unit :=
  match keys with
  | [] => ST.ret tt
  | p :: rest =>
      (select_param params_fixed_prefix p ;;;
       select_params params_fixed_prefix rest)%st
  end.

(** Lines 309-320 of [train_net]: the loop run over the keys of the
    collected parameters, from an empty [params_to_train]. *)
Definition train_net_select (params_fixed_prefix : option (list string))
    (collected : gmap string GluonParameter) : Result unit * Selection :=
  select_params params_fixed_prefix (map fst (map_to_list collected))
    {| params_all := collected; params_to_train := ∅; logged := [] |}.

End TrainFcosSelection.

(** ** What the two selection loops decide *)

Module SelectionSpec.

Import TrainRetinanet.

(** A parameter object after [grad_req = 'null']. *)
Definition freeze (prm : GluonParameter) : GluonParameter :=
  {| name := name prm; grad_req := null |}.

(** Some pattern of [FIXED_PARAMS] matches the name, for a matcher that
    does not raise. *)
Definition fixed_by_pattern (matches : string -> string -> bool)
    (params_fixed_prefix : option (list string)) (p : string) : bool :=
  match params_fixed_prefix with
  | None => false
  | Some fs => existsb (fun f => matches f p) fs
  end.

(** Some entry of [FIXED_PARAMS] occurs in the name, and "group" does not. *)
Definition fixed_by_substring (params_fixed_prefix : option (list string))
    (p : string) : bool :=
  fixed_by_pattern (fun f p => contains f p && negb (contains "group" p))
                   params_fixed_prefix p.

End SelectionSpec.

(** * Properties *)

(** ** The ResNeXt constructor *)

Module ResnextFacts.

Import Resnext.

Local Open Scope Z_scope.






(** The stages of a depth-50 network, spelled out. *)
Lemma depth50_stages (card bw : Z) (lg se : bool) (kw : option NormKwargs) :
  stages (features (ResNext_init [3; 4; 6; 3] card bw lg se kw))
  = [ Block_init 64 card bw 1 true lg se false kw
        :: List.repeat (Block_init 64 card bw 1 false lg se false kw) 2;
      Block_init 128 card bw 2 true lg se true kw
        :: List.repeat (Block_init 128 card bw 1 false lg se true kw) 3;
      Block_init 256 card bw 2 true lg se true kw
        :: List.repeat (Block_init 256 card bw 1 false lg se true kw) 5;
      Block_init 512 card bw 2 true lg se true kw
        :: List.repeat (Block_init 512 card bw 1 false lg se true kw) 2 ].
Proof. reflexivity. Qed.

Lemma Block_init_group_width channels card bw stride ds lg se dcn kw :
  block_group_width (Block_init channels card bw stride ds lg se dcn kw)
  = Some (Block_group_width channels card bw).
Proof. reflexivity. Qed.

Lemma Block_init_out_channels channels card bw stride ds lg se dcn kw :
  block_out_channels (Block_init channels card bw stride ds lg se dcn kw)
  = Some (channels * 4).
Proof. destruct dcn, lg; reflexivity. Qed.

(** Case analysis on membership in a list that is spelled out. *)
Ltac elem_of_cases H :=
  repeat (apply elem_of_cons in H as [-> | H]);
  try (apply elem_of_nil in H; destruct H).

(** C5, as the code has it.  In a depth-50 network with cardinality 32 and
    bottleneck width 4 there are four stages; every block of stage [i]
    (counted from 0) is built for [64 * 2^i] channels, so it computes
    [D = 4 * 2^i] and [group_width = 128 * 2^i], and its body ends in
    [channels * 4 = 256 * 2^i] output channels, a number fixed when the
    block is built and so the same for every input size. *)
Theorem depth50_block_widths (lg se : bool) (kw : option NormKwargs)
    (i : nat) (stage : list Block) (blk : Block) :
  stages (features (ResNext_init [3; 4; 6; 3] 32 4 lg se kw)) !! i = Some stage ->
  blk ∈ stage ->
  let channels := 64 * 2 ^ Z.of_nat i in
  (i < 4)%nat
  /\ (exists stride ds dcn, blk = Block_init channels 32 4 stride ds lg se dcn kw)
  /\ Block_D channels 4 = 4 * 2 ^ Z.of_nat i
  /\ Block_group_width channels 32 4 = 128 * 2 ^ Z.of_nat i
  /\ block_group_width blk = Some (128 * 2 ^ Z.of_nat i)
  /\ block_out_channels blk = Some (channels * 4).
Proof.
  rewrite depth50_stages. intros Hstage Hblk.
  destruct i as [|[|[|[|i]]]]; simpl in Hstage; try discriminate;
    injection Hstage as <-;
    (split; [lia|]);
    elem_of_cases Hblk;
    (split; [eexists _, _, _; reflexivity|]);
    rewrite Block_init_group_width, Block_init_out_channels;
    repeat split; reflexivity.
Qed.

Lemma depth50_block_widths_witness :
  block_group_width (Block_init 128 32 4 2 true false false true None) = Some 256
  /\ block_out_channels (Block_init 128 32 4 2 true false false true None) = Some 512.
Proof.
  pose proof (depth50_block_widths false false None 1
                (Block_init 128 32 4 2 true false false true None
                   :: List.repeat (Block_init 128 32 4 1 false false false true None) 3)
                (Block_init 128 32 4 2 true false false true None)
                eq_refl (list_elem_of_here _ _)) as H.
  simpl in H. destruct H as (_ & _ & _ & _ & Hgw & Hout).
  split; [exact Hgw | exact Hout].
Defined.

(** C5 as stated fails: the first block of the second stage of the
    depth-50 network has [D = 8] and [group_width = 256], not 4 and 128. *)
Lemma depth50_width_not_constant :
  let net := ResNext_init [3; 4; 6; 3] 32 4 false false None in
  let blk := Block_init 128 32 4 2 true false false true None in
  (exists stage, stages (features net) !! 1%nat = Some stage /\ blk ∈ stage)
  /\ Block_D 128 4 = 8
  /\ block_group_width blk = Some 256
  /\ ~ (forall stage b, stage ∈ stages (features net) -> b ∈ stage ->
        block_group_width b = Some 128).
Proof.
  cbv zeta. rewrite depth50_stages.
  split; [|split; [reflexivity|split; [reflexivity|]]].
  - eexists. split; [reflexivity|]. apply list_elem_of_here.
  - intros H.
    specialize (H _ (Block_init 128 32 4 2 true false false true None)
                  (list_elem_of_further _ _ _ (list_elem_of_here _ _))
                  (list_elem_of_here _ _)).
    discriminate H.
Qed.

(** C6, what the code does.  The normalization layer after the final 1x1
    convolution gets [gamma_initializer='zeros'] exactly when [last_gamma]
    is false, and the layer's default when [last_gamma] is true: the
    reverse of what the parameter is documented to mean. *)
Theorem Block_final_norm_gamma channels card bw stride ds last_gamma se dcn kw :
  block_last_norm (Block_init channels card bw stride ds last_gamma se dcn kw)
  = Some (NormLayer (if last_gamma then None else Some "zeros"%string)
                    (kwargs_of kw))
  /\ nth_error (body (Block_init channels card bw stride ds last_gamma se dcn kw)) 6
     = Some (Conv2D (channels * 4) 1 1 0 1 false).
Proof. destruct last_gamma; split; reflexivity. Qed.

End ResnextFacts.

(** ** Arrays: broadcasting and indexing *)

Module NumpyFacts.

Import Numpy.

Local Open Scope nat_scope.

Lemma size_of_app (s t : list nat) : size_of (s ++ t) = size_of s * size_of t.
Proof.
  unfold size_of. induction s as [|d s IH]; simpl; [lia|]. rewrite IH. lia.
Qed.

Lemma size_of_rev (s : list nat) : size_of (List.rev s) = size_of s.
Proof.
  induction s as [|d s IH]; simpl; [reflexivity|].
  rewrite size_of_app, IH. unfold size_of. simpl. lia.
Qed.

Lemma broadcast_shape_rev_same (s : list nat) : broadcast_shape_rev s s = Some s.
Proof.
  induction s as [|d s IH]; simpl; [reflexivity|].
  rewrite IH, Nat.eqb_refl. reflexivity.
Qed.

Lemma broadcast_shape_same (s : list nat) : broadcast_shape s s = Some s.
Proof.
  unfold broadcast_shape.
  rewrite broadcast_shape_rev_same, rev_involutive. reflexivity.
Qed.

Lemma src_index_rev_same (s : list nat) (p stride : nat) :
  src_index_rev s s p stride = stride * (p mod size_of s).
Proof.
  revert p stride.
  induction s as [|d s IH]; intros p stride; cbn [src_index_rev].
  - change (size_of []) with 1. rewrite Nat.mod_1_r. lia.
  - rewrite IH. change (size_of (d :: s)) with (d * size_of s).
    rewrite Nat.Div0.mod_mul_r.
    destruct (Nat.eqb_spec d 1) as [->|Hd].
    + rewrite Nat.mod_1_r. lia.
    + lia.
Qed.

(** Against an operand of the result's own shape, positions are kept. *)
Lemma src_index_same (s : list nat) (p : nat) :
  p < size_of s -> src_index s s p = p.
Proof.
  intros Hp. unfold src_index. rewrite src_index_rev_same, size_of_rev.
  rewrite Nat.mod_small by exact Hp. lia.
Qed.

Lemma map_nth_seq_id (l : list R) :
  List.map (fun p => nth p l 0%R) (seq 0 (length l)) = l.
Proof.
  apply list_eq. intros i. rewrite list_lookup_fmap.
  destruct (decide (i < length l)) as [Hi|Hi].
  - rewrite lookup_seq_lt by exact Hi. simpl.
    destruct (lookup_lt_is_Some_2 l i Hi) as [x Hx].
    rewrite Hx. now rewrite (nth_lookup_Some _ _ _ _ Hx).
  - rewrite lookup_seq_ge by lia. simpl.
    symmetry. apply lookup_ge_None_2. lia.
Qed.

Lemma map_nth_seq_zip (f : R -> R -> R) (l1 l2 : list R) (n : nat) :
  length l1 = n -> length l2 = n ->
  List.map (fun p => f (nth p l1 0%R) (nth p l2 0%R)) (seq 0 n) = zip_with f l1 l2.
Proof.
  intros H1 H2. apply list_eq. intros i.
  rewrite list_lookup_fmap, lookup_zip_with.
  destruct (decide (i < n)) as [Hi|Hi].
  - rewrite lookup_seq_lt by exact Hi. simpl.
    destruct (lookup_lt_is_Some_2 l1 i) as [x Hx]; [lia|].
    destruct (lookup_lt_is_Some_2 l2 i) as [y Hy]; [lia|].
    rewrite Hx, Hy. simpl.
    now rewrite (nth_lookup_Some _ _ _ _ Hx), (nth_lookup_Some _ _ _ _ Hy).
  - rewrite lookup_seq_ge by lia. simpl.
    now rewrite (lookup_ge_None_2 l1) by lia.
Qed.

(** Two well-formed arrays of one shape combine entry by entry. *)
Lemma broadcast_binary_same_shape (f : R -> R -> R) (a b : ndarray) :
  shape a = shape b -> wf a -> wf b ->
  broadcast_binary f a b
  = Ok {| shape := shape a; data := zip_with f (data a) (data b) |}.
Proof.
  intros Hs Ha Hb. unfold broadcast_binary.
  rewrite <- Hs, broadcast_shape_same. f_equal. f_equal.
  rewrite <- (map_nth_seq_zip f (data a) (data b) (size_of (shape a)));
    [|exact Ha|rewrite Hs; exact Hb].
  apply map_ext_in. intros p Hp%in_seq.
  rewrite src_index_same by lia. reflexivity.
Qed.

Lemma broadcast_shape_one (s : list nat) :
  s ≠ [] -> broadcast_shape s [1] = Some s.
Proof.
  intros Hs. unfold broadcast_shape.
  destruct (List.rev s) as [|x a'] eqn:Hrev.
  { apply (f_equal (@List.rev nat)) in Hrev.
    rewrite rev_involutive in Hrev. now subst. }
  cbn [List.rev app broadcast_shape_rev].
  assert (Hnil : broadcast_shape_rev a' [] = Some a') by (destruct a'; reflexivity).
  rewrite Hnil.
  assert (Hs' : s = List.rev (x :: a'))
    by (rewrite <- Hrev, rev_involutive; reflexivity).
  destruct (Nat.eqb_spec x 1); rewrite Hs'; reflexivity.
Qed.

Lemma src_index_one (s : list nat) (p : nat) : src_index s [1] p = 0.
Proof.
  unfold src_index. cbn [List.rev app].
  destruct (List.rev s) as [|d out']; [reflexivity|].
  cbn [src_index_rev Nat.eqb]. destruct out'; reflexivity.
Qed.

(** A well-formed array against a one-entry array of shape [(1,)]. *)
Lemma broadcast_binary_one (f : R -> R -> R) (a : ndarray) (v : R) :
  wf a ->
  exists s,
    broadcast_binary f a {| shape := [1]; data := [v] |}
    = Ok {| shape := s; data := List.map (fun x => f x v) (data a) |}.
Proof.
  intros Ha. unfold broadcast_binary. cbn [shape].
  destruct (shape a) as [|d s'] eqn:Hs.
  - exists [1]. unfold wf in Ha. rewrite Hs in Ha.
    destruct (data a) as [|x [|y l]] eqn:Hd; try discriminate Ha.
    unfold item. rewrite Hd. reflexivity.
  - exists (d :: s'). rewrite broadcast_shape_one by discriminate.
    f_equal. f_equal.
    transitivity (List.map (fun x => f x v)
                    (List.map (fun p => nth p (data a) 0%R)
                              (seq 0 (length (data a)))));
      [|now rewrite map_nth_seq_id].
    rewrite Ha, Hs, <- list_fmap_compose.
    apply map_ext_in. intros p Hp%in_seq.
    simpl. rewrite src_index_same by lia. rewrite src_index_one. reflexivity.
Qed.

Lemma flat_map_singleton {A B} (f : A -> B) (l : list A) :
  flat_map (fun x => [f x]) l = List.map f l.
Proof. induction l as [|x l IH]; simpl; [reflexivity|]. now rewrite IH. Qed.

Lemma length_flat_map_const {A B} (f : A -> list B) (l : list A) (k : nat) :
  (forall x, length (f x) = k) -> length (flat_map f l) = length l * k.
Proof.
  intros Hf. induction l as [|x l IH]; simpl; [reflexivity|].
  rewrite length_app, Hf, IH. lia.
Qed.

Lemma length_axis1_entries (a : ndarray) (n c inner lo len : nat) :
  length (axis1_entries a n c inner lo len) = n * (len * inner).
Proof.
  unfold axis1_entries.
  rewrite (length_flat_map_const _ _ (len * inner)).
  - now rewrite length_seq.
  - intros i. rewrite (length_flat_map_const _ _ inner).
    + now rewrite length_seq.
    + intros j. now rewrite length_map, length_seq.
Qed.

Lemma length_channel (b c n j : nat) (a : ndarray) :
  length (channel b c n j a) = b * n.
Proof.
  unfold channel. rewrite length_axis1_entries. unfold size_of. simpl. lia.
Qed.

Lemma wf_channel (b c n j : nat) (a : ndarray) :
  wf {| shape := [b; n]; data := channel b c n j a |}.
Proof.
  unfold wf. cbn [data shape]. rewrite length_channel.
  unfold size_of. simpl. lia.
Qed.

Lemma flat_map_rows {A} (f : nat -> A) (b n : nat) :
  flat_map (fun i => List.map (fun k => f (i * n + k)) (seq 0 n)) (seq 0 b)
  = List.map f (seq 0 (b * n)).
Proof.
  induction b as [|b IH]; [reflexivity|].
  rewrite seq_S, flat_map_app, IH. simpl flat_map. rewrite app_nil_r.
  replace (S b * n) with (b * n + n) by lia.
  rewrite seq_app, map_app. f_equal.
  replace (seq (0 + b * n) n) with (Nat.add (b * n) <$> seq 0 n)
    by (rewrite fmap_add_seq; f_equal; lia).
  rewrite <- list_fmap_compose. apply map_ext. intros k. reflexivity.
Qed.

(** Reading [b * n] entries row by row returns them in order. *)
Lemma read_rows (l : list R) (b n : nat) :
  length l = b * n ->
  flat_map (fun i => List.map (fun k => nth (i * n + k) l 0%R) (seq 0 n)) (seq 0 b)
  = l.
Proof.
  intros Hl. rewrite (flat_map_rows (fun p => nth p l 0%R)), <- Hl.
  apply map_nth_seq_id.
Qed.

Lemma sumR_div (l : list R) (c : R) :
  sumR (List.map (fun x => (x / c)%R) l) = (sumR l / c)%R.
Proof.
  unfold sumR. induction l as [|x l IH]; simpl.
  - unfold Rdiv. now rewrite Rmult_0_l.
  - rewrite IH. unfold Rdiv. now rewrite Rmult_plus_distr_r.
Qed.

End NumpyFacts.

(** ** Loss kernels and loss assembly *)

Module TrainFcosFacts.

Import Numpy NumpyFacts TrainFcos.

Local Open Scope R_scope.

(** *** Shape contract of the registered kernels *)

Lemma BCELoss_same_shape (y target : ndarray) :
  shape y = shape target -> wf y -> wf target ->
  BCELoss y target
  = Ok {| shape := shape y;
          data := zip_with BCELoss_forward_entry (data y) (data target) |}.
Proof.
  intros Heq Hy Ht.
  unfold BCELoss, mobula_call, BCELoss_infer_shape, BCELoss_forward.
  cbn [getitem lookup list_lookup Py.bind snd fst].
  rewrite bool_decide_eq_true_2 by exact Heq.
  rewrite broadcast_binary_same_shape by assumption.
  cbn [Py.bind snd fst shape].
  now rewrite bool_decide_eq_true_2.
Qed.

Lemma L2Loss_same_shape (y target : ndarray) :
  shape y = shape target -> wf y -> wf target ->
  L2Loss y target
  = Ok {| shape := shape y;
          data := zip_with L2Loss_forward_entry (data y) (data target) |}.
Proof.
  intros Heq Hy Ht.
  unfold L2Loss, mobula_call, L2Loss_infer_shape, L2Loss_forward.
  cbn [getitem lookup list_lookup Py.bind snd fst].
  rewrite bool_decide_eq_true_2 by exact Heq.
  rewrite broadcast_binary_same_shape by assumption.
  cbn [Py.assert Py.bind snd fst shape].
  now rewrite bool_decide_eq_true_2.
Qed.

(** C2.  Called on a prediction and a target of different shapes, both
    kernels raise the assertion of their [infer_shape] (the one of
    [BCELoss] after printing the two shapes).  Called on equal shapes they
    return a tensor of that shape, whose entries, for well-formed inputs,
    are the entrywise losses. *)
Theorem loss_kernels_shape_contract (y target : ndarray) :
  (shape y ≠ shape target ->
     BCELoss y target = Raise AssertionError
     /\ L2Loss y target = Raise AssertionError
     /\ fst (BCELoss_infer_shape [shape y; shape target])
        = [[shape y; shape target]])
  /\ (shape y = shape target ->
      (exists out, BCELoss y target = Ok out /\ shape out = shape y)
      /\ (exists out, L2Loss y target = Ok out /\ shape out = shape y))
  /\ (shape y = shape target -> wf y -> wf target ->
      BCELoss y target
      = Ok {| shape := shape y;
              data := zip_with BCELoss_forward_entry (data y) (data target) |}
      /\ L2Loss y target
         = Ok {| shape := shape y;
                 data := zip_with L2Loss_forward_entry (data y) (data target) |}).
Proof.
  split; [|split].
  - intros Hne.
    unfold BCELoss, L2Loss, mobula_call, BCELoss_infer_shape, L2Loss_infer_shape.
    cbn [getitem lookup list_lookup Py.bind snd fst].
    rewrite bool_decide_eq_false_2 by exact Hne.
    repeat split; reflexivity.
  - intros Heq.
    unfold BCELoss, L2Loss, mobula_call, BCELoss_infer_shape, L2Loss_infer_shape,
      BCELoss_forward, L2Loss_forward, broadcast_binary.
    cbn [getitem lookup list_lookup Py.bind snd fst].
    rewrite bool_decide_eq_true_2 by exact Heq.
    rewrite <- Heq, broadcast_shape_same.
    cbn [Py.assert Py.bind snd fst shape].
    rewrite bool_decide_eq_true_2 by reflexivity.
    split; eexists; (split; [reflexivity|reflexivity]).
  - intros Heq Hy Ht. split.
    + now apply BCELoss_same_shape.
    + now apply L2Loss_same_shape.
Qed.

Lemma loss_kernels_shape_contract_witness :
  BCELoss {| shape := [2%nat]; data := [0; 1] |}
          {| shape := [1%nat; 2%nat]; data := [1; 0] |}
  = Raise AssertionError
  /\ L2Loss {| shape := [2%nat]; data := [0; 1] |}
            {| shape := [2%nat]; data := [1; 0] |}
     = Ok {| shape := [2%nat];
             data := zip_with L2Loss_forward_entry [0; 1] [1; 0] |}.
Proof.
  split.
  - apply (proj1 (loss_kernels_shape_contract
                    {| shape := [2%nat]; data := [0; 1] |}
                    {| shape := [1%nat; 2%nat]; data := [1; 0] |})).
    simpl. discriminate.
  - apply (proj2 (proj2 (loss_kernels_shape_contract
                           {| shape := [2%nat]; data := [0; 1] |}
                           {| shape := [2%nat]; data := [1; 0] |})));
      reflexivity.
Defined.

(** *** IoULoss *)

Lemma fold_left_Rmax_shift (c : R) (rest : list R) (a : R) :
  fold_left Rmax (List.map (fun x => x + c) rest) (a + c)
  = fold_left Rmax rest a + c.
Proof.
  revert a. induction rest as [|x rest IH]; intros a; simpl; [reflexivity|].
  rewrite R.plus_max_distr_r. apply IH.
Qed.

Lemma log_sum_exp_step_shift (c : R) (s : CornerSums) :
  log_sum_exp_step (shift_sums c s) = log_sum_exp_step s.
Proof.
  unfold log_sum_exp_step, IoULoss_max.
  cbn [shift_sums tl tr bl br tl_hat tr_hat bl_hat br_hat tl_i tr_i bl_i br_i].
  change [tr s + c; bl s + c; br s + c; tl_hat s + c; tr_hat s + c; bl_hat s + c;
          br_hat s + c; tl_i s + c; tr_i s + c; bl_i s + c; br_i s + c]
    with (List.map (fun x => x + c)
            [tr s; bl s; br s; tl_hat s; tr_hat s; bl_hat s; br_hat s;
             tl_i s; tr_i s; bl_i s; br_i s]).
  rewrite fold_left_Rmax_shift.
  set (m := fold_left Rmax _ (tl s)).
  repeat match goal with
         | |- context [exp (?a + c - (m + c))] =>
             replace (a + c - (m + c)) with (a - m) by lra
         end.
  reflexivity.
Qed.

Lemma corner_sums_identical (p : Row4) :
  corner_sums p p
  = {| tl := t_ p + l_ p; tr := t_ p + r_ p; bl := b_ p + l_ p; br := b_ p + r_ p;
       tl_hat := t_ p + l_ p; tr_hat := t_ p + r_ p;
       bl_hat := b_ p + l_ p; br_hat := b_ p + r_ p;
       tl_i := t_ p + l_ p; tr_i := t_ p + r_ p;
       bl_i := b_ p + l_ p; br_i := b_ p + r_ p |}.
Proof. unfold corner_sums. rewrite !R.min_id. reflexivity. Qed.

(** With identical boxes intersection and union coincide, so the ratio is
    1 and the loss is the logarithm of [1 + 1e-7], negated. *)
Lemma IoULoss_identical_value (target : Row4) :
  IoULoss_forward_row (log_target target) target = - ln (1 + 1e-7).
Proof.
  unfold IoULoss_forward_row. rewrite corner_sums_identical.
  unfold log_sum_exp_step.
  cbn [tl tr bl br tl_hat tr_hat bl_hat br_hat tl_i tr_i bl_i br_i].
  set (m := IoULoss_max _).
  set (S := exp _ + exp _ + exp _ + exp _).
  assert (HS : 0 < S).
  { unfold S. repeat apply Rplus_lt_0_compat; apply exp_pos. }
  replace (S / (S + S - S)) with 1 by (field; lra).
  reflexivity.
Qed.

Lemma ln_eps_pos : 0 < ln (1 + 1e-7).
Proof. rewrite <- ln_1. apply ln_increasing; lra. Qed.

Lemma nth_axis1_column (a : ndarray) (n c j i : nat) :
  (i < n)%nat ->
  nth i (axis1_entries a n c (size_of []) j 1) 0 = item a (i * c + j)%nat.
Proof.
  intros Hi. unfold axis1_entries. change (size_of []) with 1%nat.
  cbn [seq List.map flat_map app].
  rewrite (flat_map_ext _ (fun i => [item a (i * c + j)])).
  - rewrite flat_map_singleton.
    rewrite (nth_indep _ 0 (item a (0 * c + j)))
      by (now rewrite length_map, length_seq).
    rewrite (map_nth (fun i => item a (i * c + j))), seq_nth by exact Hi.
    reflexivity.
  - intros k. do 2 f_equal. lia.
Qed.

(** On two tensors of shape [(n, 4)] the loss is computed row by row. *)
Lemma IoULoss_forward_2d (prediction target : ndarray) (n : nat) :
  shape prediction = [n; 4%nat] -> shape target = [n; 4%nat] ->
  IoULoss_forward prediction target
  = Ok {| shape := [n];
          data := List.map (fun i =>
                    IoULoss_forward_row
                      {| l_ := item prediction (i * 4 + 0);
                         t_ := item prediction (i * 4 + 1);
                         r_ := item prediction (i * 4 + 2);
                         b_ := item prediction (i * 4 + 3) |}
                      {| l_ := item target (i * 4 + 0);
                         t_ := item target (i * 4 + 1);
                         r_ := item target (i * 4 + 2);
                         b_ := item target (i * 4 + 3) |})
                    (seq 0 n) |}.
Proof.
  intros Hp Ht. unfold IoULoss_forward, shape1. rewrite Hp, Ht.
  cbn [getitem lookup list_lookup Py.bind Py.assert Nat.eqb hd drop].
  rewrite broadcast_shape_same. f_equal. f_equal.
  replace (size_of [n]) with n by (unfold size_of; simpl; lia).
  apply map_ext_in. intros i Hi%in_seq.
  rewrite src_index_same by (unfold size_of; simpl; lia).
  unfold row4_at. rewrite Hp, Ht.
  rewrite !nth_axis1_column by lia. reflexivity.
Qed.

Lemma map_const_seq {A} (c : A) (n : nat) :
  List.map (fun _ => c) (seq 0 n) = List.repeat c n.
Proof.
  generalize 0%nat. induction n as [|n IH]; intros k; simpl; [reflexivity|].
  now rewrite IH.
Qed.

Lemma item_map_nd (f : R -> R) (a : ndarray) (i : nat) :
  (i < length (data a))%nat -> item (map_nd f a) i = f (item a i).
Proof.
  intros Hi. unfold item, map_nd. cbn [data].
  rewrite (nth_indep _ 0 (f 0)) by (now rewrite length_map).
  apply map_nth.
Qed.

(** The identical-boxes case on whole tensors. *)
Lemma IoULoss_identical_tensor (target : ndarray) (n : nat) :
  shape target = [n; 4%nat] -> wf target ->
  IoULoss_forward (map_nd (fun x => ln (Rmax x 1)) target) target
  = Ok {| shape := [n]; data := List.repeat (- ln (1 + 1e-7)) n |}.
Proof.
  intros Hs Hwf.
  assert (Hlen : length (data target) = (n * 4)%nat)
    by (rewrite Hwf, Hs; unfold size_of; simpl; lia).
  rewrite (IoULoss_forward_2d _ _ n) by (exact Hs).
  f_equal. f_equal. rewrite <- map_const_seq.
  apply map_ext_in. intros i Hi%in_seq.
  rewrite !item_map_nd by lia.
  apply (IoULoss_identical_value
           {| l_ := item target (i * 4 + 0); t_ := item target (i * 4 + 1);
              r_ := item target (i * 4 + 2); b_ := item target (i * 4 + 3) |}).
Qed.

(** C7, as the code has it.  The value of the log-sum-exp step does not
    change when all twelve corner sums are moved by one constant.  When
    the predicted distances equal the floored and log-transformed target
    distances, at one position and so on whole [(n, 4)] tensors, the loss
    is [- ln (1 + 1e-7)], which is below zero: the constant [1e-7] that
    guards the logarithm keeps it from being 0. *)
Theorem IoULoss_shift_and_identity :
  (forall c s, log_sum_exp_step (shift_sums c s) = log_sum_exp_step s)
  /\ (forall target,
         IoULoss_forward_row (log_target target) target = - ln (1 + 1e-7))
  /\ (forall target n,
         shape target = [n; 4%nat] -> wf target ->
         IoULoss_forward (map_nd (fun x => ln (Rmax x 1)) target) target
         = Ok {| shape := [n]; data := List.repeat (- ln (1 + 1e-7)) n |})
  /\ - ln (1 + 1e-7) < 0.
Proof.
  split; [exact log_sum_exp_step_shift|].
  split; [exact IoULoss_identical_value|].
  split; [exact IoULoss_identical_tensor|].
  pose proof ln_eps_pos. lra.
Qed.

Lemma IoULoss_shift_and_identity_witness :
  let target := {| shape := [2%nat; 4%nat]; data := [1; 2; 3; 4; 5; 6; 7; 8] |} in
  IoULoss_forward (map_nd (fun x => ln (Rmax x 1)) target) target
  = Ok {| shape := [2%nat]; data := [- ln (1 + 1e-7); - ln (1 + 1e-7)] |}.
Proof.
  cbv zeta.
  exact (proj1 (proj2 (proj2 IoULoss_shift_and_identity))
           {| shape := [2%nat; 4%nat]; data := [1; 2; 3; 4; 5; 6; 7; 8] |} 2%nat
           eq_refl eq_refl).
Defined.

(** C7 as stated fails: for a target row of ones and a prediction row of
    zeros, which is the floored, log-transformed target, the loss is not 0. *)
Lemma IoULoss_identical_boxes_nonzero :
  let prediction := {| shape := [1%nat; 4%nat]; data := [0; 0; 0; 0] |} in
  let target := {| shape := [1%nat; 4%nat]; data := [1; 1; 1; 1] |} in
  data prediction = List.map (fun x => ln (Rmax x 1)) (data target)
  /\ IoULoss_forward prediction target
     = Ok {| shape := [1%nat]; data := [- ln (1 + 1e-7)] |}
  /\ - ln (1 + 1e-7) <> 0.
Proof.
  cbv zeta. cbn [data List.map].
  assert (H0 : ln (Rmax 1 1) = 0) by (rewrite R.max_id; apply ln_1).
  split; [now rewrite H0|]. split.
  - rewrite (IoULoss_forward_2d _ _ 1) by reflexivity.
    cbn [seq List.map]. unfold item. cbn [data nth Nat.mul Nat.add].
    f_equal. f_equal. f_equal.
    rewrite <- (IoULoss_identical_value {| l_ := 1; t_ := 1; r_ := 1; b_ := 1 |}).
    unfold log_target. cbn [l_ t_ r_ b_]. now rewrite H0.
  - pose proof ln_eps_pos. lra.
Qed.

(** *** The per-batch loss *)

Section BatchLossFacts.

Variable IoULoss_op : ndarray -> ndarray -> Result ndarray.
Variable FocalLoss_op : R -> R -> ndarray -> ndarray -> Result ndarray.

Variables (B K N : nat) (preds targets : ndarray).
Hypothesis Hpreds : shape preds = [B; (5 + K)%nat; N].
Hypothesis Htargets : shape targets = [B; (6 + K)%nat; N].

Lemma index_targets (j : nat) :
  (j < 6 + K)%nat ->
  index_axis1 j targets
  = Ok {| shape := [B; N]; data := channel B (6 + K) N j targets |}.
Proof.
  intros Hj. unfold index_axis1. rewrite Htargets.
  destruct (Nat.ltb_spec j (6 + K)); [reflexivity|lia].
Qed.

Lemma index_preds (j : nat) :
  (j < 5 + K)%nat ->
  index_axis1 j preds
  = Ok {| shape := [B; N]; data := channel B (5 + K) N j preds |}.
Proof.
  intros Hj. unfold index_axis1. rewrite Hpreds.
  destruct (Nat.ltb_spec j (5 + K)); [reflexivity|lia].
Qed.

(** [k] channels from [lo] on, as rows; one channel taken this way is the
    channel itself. *)
Lemma rows_of_block (lo k : nat) (a : ndarray) (c : nat) :
  shape a = [B; c; N] -> (lo + k <= c)%nat -> (0 < k)%nat ->
  exists d,
    rows_of lo (lo + k) k a = Ok {| shape := [(B * N)%nat; k]; data := d |}
    /\ (k = 1%nat -> d = channel B c N lo a).
Proof.
  intros Ha Hc Hk. unfold rows_of, slice_axis1. rewrite Ha.
  cbn [Py.bind].
  replace (Nat.min (lo + k) c) with (lo + k)%nat by lia.
  replace (Nat.min lo (lo + k)) with lo by lia.
  replace (lo + k - lo)%nat with k by lia.
  unfold transpose_021. cbn [shape Py.bind].
  unfold reshape_m1. cbn [shape].
  destruct (Nat.eqb_spec k 0); [lia|].
  assert (Hsz : size_of [B; N; k] = (B * N * k)%nat)
    by (unfold size_of; simpl; lia).
  rewrite Hsz, Nat.Div0.mod_mul, Nat.div_mul by lia. cbn [Nat.eqb].
  eexists. split; [reflexivity|].
  intros ->. cbn [data seq List.map].
  rewrite (flat_map_ext _
             (fun i => List.map (fun k0 => nth (i * N + k0) (channel B c N lo a) 0)
                                (seq 0 N))).
  - apply read_rows. apply length_channel.
  - intros i. rewrite <- flat_map_singleton. apply flat_map_ext. intros k0.
    unfold item. cbn [data]. unfold channel. do 2 f_equal. lia.
Qed.

Lemma slice_open (lo c : nat) (a : ndarray) :
  shape a = [B; c; N] -> exists x, slice_axis1 lo None a = Ok x.
Proof. intros Ha. unfold slice_axis1. rewrite Ha. eexists. reflexivity. Qed.

(** The value [batch_losses] returns once the two native kernels have
    returned. *)
Lemma batch_losses_eval (p_loc t_loc logits cls iou focal : ndarray) :
  rows_of 0 4 4 preds = Ok p_loc ->
  rows_of 1 5 4 targets = Ok t_loc ->
  IoULoss_op p_loc t_loc = Ok iou ->
  shape iou = [(B * N)%nat; 1%nat] -> wf iou ->
  slice_axis1 5 None preds = Ok logits ->
  slice_axis1 6 None targets = Ok cls ->
  FocalLoss_op 0.25 2 logits cls = Ok focal -> wf focal ->
  let mask := channel B (6 + K) N 0 targets in
  let ctr := channel B (6 + K) N 5 targets in
  let bce := zip_with BCELoss_forward_entry (channel B (5 + K) N 4 preds) ctr in
  let num_pos := sumR mask + 1 in
  exists L,
    batch_losses IoULoss_op FocalLoss_op preds targets = Ok L
    /\ loss_total L
       = {| shape := [1%nat];
            data := [sumR (zip_with Rmult bce mask) / num_pos
                     + sumR (zip_with Rmult (data iou) ctr) / (sumR ctr + 1)
                     + sumR (data focal) / num_pos] |}.
Proof.
  intros Hp_loc Ht_loc Hiou Hshape Hwf_iou Hlogits Hcls Hfocal Hwf_focal.
  cbv zeta. unfold batch_losses.
  rewrite (index_targets 0) by lia. cbn [Py.bind].
  rewrite Hp_loc, Ht_loc. cbn [Py.bind]. rewrite Hiou. cbn [Py.bind].
  destruct (rows_of_block 5 1 targets (6 + K)%nat Htargets)
    as (d & Hw & Hd); [lia|lia|].
  specialize (Hd eq_refl). subst d.
  change (5 + 1)%nat with 6%nat in Hw. rewrite Hw. cbn [Py.bind].
  rewrite (broadcast_binary_same_shape Rmult iou); cycle 1.
  { exact Hshape. }
  { exact Hwf_iou. }
  { unfold wf. cbn [data shape]. rewrite length_channel.
    unfold size_of. simpl. lia. }
  cbn [Py.bind data].
  rewrite (index_targets 5) by lia. cbn [Py.bind].
  unfold plus_scalar, nd_sum, map_nd. cbn [data shape List.map].
  match goal with
  | |- context [broadcast_binary Rdiv ?a {| shape := [1%nat]; data := [?v] |}] =>
      destruct (broadcast_binary_one Rdiv a v) as (s1 & Hdiv1)
  end.
  { unfold wf. cbn [data shape]. rewrite length_zip_with, length_channel.
    rewrite Hwf_iou, Hshape. unfold size_of. simpl. lia. }
  rewrite Hdiv1. cbn [Py.bind data].
  rewrite (index_preds 4) by lia. cbn [Py.bind].
  rewrite BCELoss_same_shape; [|reflexivity|apply wf_channel|apply wf_channel].
  cbn [Py.bind data shape].
  rewrite (broadcast_binary_same_shape Rmult); cycle 1.
  { reflexivity. }
  { unfold wf. cbn [data shape]. rewrite length_zip_with, !length_channel.
    unfold size_of. simpl. lia. }
  { apply wf_channel. }
  cbn [Py.bind data shape].
  match goal with
  | |- context [broadcast_binary Rdiv ?a {| shape := [1%nat]; data := [?v] |}] =>
      destruct (broadcast_binary_one Rdiv a v) as (s2 & Hdiv2)
  end.
  { unfold wf. cbn [data shape]. rewrite !length_zip_with, !length_channel.
    unfold size_of. simpl. lia. }
  rewrite Hdiv2. cbn [Py.bind data].
  rewrite Hlogits, Hcls. cbn [Py.bind]. rewrite Hfocal. cbn [Py.bind].
  destruct (broadcast_binary_one Rdiv focal
              (sumR (channel B (6 + K) N 0 targets) + 1) Hwf_focal)
    as (s3 & Hdiv3).
  rewrite Hdiv3. cbn [Py.bind data].
  rewrite (broadcast_binary_same_shape Rplus); try reflexivity.
  cbn [Py.bind data shape zip_with].
  rewrite (broadcast_binary_same_shape Rplus); try reflexivity.
  cbn [Py.bind data shape zip_with].
  eexists. split; [reflexivity|].
  cbn [loss_total]. rewrite !sumR_div. reflexivity.
Qed.

End BatchLossFacts.

(** C1, as the code has it.  For predictions of shape [(B, 5 + K, N)] and
    targets of shape [(B, 6 + K, N)] the sub-tensors handed to the two
    native kernels exist, and once the kernels have returned, the IoU
    kernel a well-formed column of shape [(B * N, 1)] with one entry per
    position and the focal kernel a well-formed tensor, the per-batch
    loss is
    [sum(BCE * positive_mask)/num_pos
     + sum(IoU_loss * centerness)/(sum(centerness) + 1)
     + sum(focal_cls_loss)/num_pos],
    with [num_pos = sum(positive_mask) + 1], [positive_mask] channel 0 and
    [centerness] channel 5 of the targets, and [BCE] the centerness loss
    between channel 4 of the predictions and channel 5 of the targets. *)
Theorem batch_loss_formula
    (IoULoss_op : ndarray -> ndarray -> Result ndarray)
    (FocalLoss_op : R -> R -> ndarray -> ndarray -> Result ndarray)
    (B K N : nat) (preds targets : ndarray) :
  shape preds = [B; (5 + K)%nat; N] ->
  shape targets = [B; (6 + K)%nat; N] ->
  let mask := channel B (6 + K) N 0 targets in
  let ctr := channel B (6 + K) N 5 targets in
  let bce := zip_with BCELoss_forward_entry (channel B (5 + K) N 4 preds) ctr in
  let num_pos := sumR mask + 1 in
  exists p_loc t_loc logits cls,
    rows_of 0 4 4 preds = Ok p_loc
    /\ rows_of 1 5 4 targets = Ok t_loc
    /\ slice_axis1 5 None preds = Ok logits
    /\ slice_axis1 6 None targets = Ok cls
    /\ forall iou focal,
         IoULoss_op p_loc t_loc = Ok iou ->
         shape iou = [(B * N)%nat; 1%nat] -> wf iou ->
         FocalLoss_op 0.25 2 logits cls = Ok focal -> wf focal ->
         exists L,
           batch_losses IoULoss_op FocalLoss_op preds targets = Ok L
           /\ loss_total L
              = {| shape := [1%nat];
                   data := [sumR (zip_with Rmult bce mask) / num_pos
                            + sumR (zip_with Rmult (data iou) ctr)
                              / (sumR ctr + 1)
                            + sumR (data focal) / num_pos] |}.
Proof.
  intros Hpreds Htargets. cbv zeta.
  destruct (rows_of_block B N 0 4 preds (5 + K)%nat Hpreds)
    as (dp & Hp & _); [lia|lia|].
  destruct (rows_of_block B N 1 4 targets (6 + K)%nat Htargets)
    as (dt & Ht & _); [lia|lia|].
  destruct (slice_open B N 5 _ preds Hpreds) as (logits & Hlogits).
  destruct (slice_open B N 6 _ targets Htargets) as (cls & Hcls).
  eexists _, _, logits, cls.
  split; [exact Hp|]. split; [exact Ht|].
  split; [exact Hlogits|]. split; [exact Hcls|].
  intros iou focal Hiou Hshape Hwf Hfocal Hwf_focal.
  exact (batch_losses_eval IoULoss_op FocalLoss_op B K N preds targets
           Hpreds Htargets _ _ logits cls iou focal
           Hp Ht Hiou Hshape Hwf Hlogits Hcls Hfocal Hwf_focal).
Qed.

Lemma batch_loss_formula_witness :
  exists L,
    batch_losses unit_iou_kernel (fun _ _ => BCEFocalLoss)
                 sample_preds sample_targets = Ok L
    /\ loss_total L
       = {| shape := [1%nat];
            data := [sumR (zip_with Rmult
                             [BCELoss_forward_entry 0 (1 / 2);
                              BCELoss_forward_entry 0 (1 / 4);
                              BCELoss_forward_entry 0 (1 / 4);
                              BCELoss_forward_entry 0 0]
                             [1; 1; 1; 0])
                     / (sumR [1; 1; 1; 0] + 1)
                     + sumR (zip_with Rmult [1; 1; 1; 1] [1 / 2; 1 / 4; 1 / 4; 0])
                       / (sumR [1 / 2; 1 / 4; 1 / 4; 0] + 1)
                     + sumR [BCEFocalLoss_entry 0 1; BCEFocalLoss_entry 0 0;
                             BCEFocalLoss_entry 0 0; BCEFocalLoss_entry 0 0]
                       / (sumR [1; 1; 1; 0] + 1)] |}.
Proof.
  destruct (batch_loss_formula unit_iou_kernel (fun _ _ => BCEFocalLoss) 2 1 2
              sample_preds sample_targets eq_refl eq_refl)
    as (p_loc & t_loc & logits & cls & Hp & Ht & Hl & Hc & H).
  cbn in Hp, Ht, Hl, Hc.
  injection Hp as <-. injection Ht as <-. injection Hl as <-. injection Hc as <-.
  destruct (H {| shape := [4%nat; 1%nat]; data := [1; 1; 1; 1] |}
              {| shape := [2%nat; 1%nat; 2%nat];
                 data := [BCEFocalLoss_entry 0 1; BCEFocalLoss_entry 0 0;
                          BCEFocalLoss_entry 0 0; BCEFocalLoss_entry 0 0] |}
              eq_refl eq_refl eq_refl eq_refl eq_refl) as (L & HL & Htotal).
  exists L. split; [exact HL|exact Htotal].
Defined.

(** The sample batch, evaluated. *)
Lemma sample_batch_loss :
  exists L,
    batch_losses unit_iou_kernel (fun _ _ => BCEFocalLoss)
                 sample_preds sample_targets = Ok L
    /\ loss_total L
       = {| shape := [1%nat];
            data := [sumR (zip_with Rmult
                             [BCELoss_forward_entry 0 (1 / 2);
                              BCELoss_forward_entry 0 (1 / 4);
                              BCELoss_forward_entry 0 (1 / 4);
                              BCELoss_forward_entry 0 0]
                             [1; 1; 1; 0])
                     / (sumR [1; 1; 1; 0] + 1)
                     + sumR (zip_with Rmult [1; 1; 1; 1] [1 / 2; 1 / 4; 1 / 4; 0])
                       / (sumR [1 / 2; 1 / 4; 1 / 4; 0] + 1)
                     + sumR [BCEFocalLoss_entry 0 1; BCEFocalLoss_entry 0 0;
                             BCEFocalLoss_entry 0 0; BCEFocalLoss_entry 0 0]
                       / (sumR [1; 1; 1; 0] + 1)] |}.
Proof.
  exact (batch_losses_eval unit_iou_kernel (fun _ _ => BCEFocalLoss) 2 1 2
           sample_preds sample_targets eq_refl eq_refl
           {| shape := [4%nat; 4%nat]; data := List.repeat 0 16 |}
           {| shape := [4%nat; 4%nat]; data := List.repeat 1 16 |}
           {| shape := [2%nat; 1%nat; 2%nat]; data := [0; 0; 0; 0] |}
           {| shape := [2%nat; 1%nat; 2%nat]; data := [1; 0; 0; 0] |}
           {| shape := [4%nat; 1%nat]; data := [1; 1; 1; 1] |}
           {| shape := [2%nat; 1%nat; 2%nat];
              data := [BCEFocalLoss_entry 0 1; BCEFocalLoss_entry 0 0;
                       BCEFocalLoss_entry 0 0; BCEFocalLoss_entry 0 0] |}
           eq_refl eq_refl eq_refl eq_refl eq_refl eq_refl eq_refl eq_refl eq_refl).
Qed.

(** C1 as stated fails.  In the sample batch three of the four positions
    are positive (mask 1, 1, 1, 0) with centerness targets 1/2, 1/4, 1/4
    and 0, and the IoU kernel reports the loss 1 at every position.  The
    code weights that loss by the centerness and divides by
    [sum(centerness) + 1], giving [1/2] for the IoU term, where the stated
    formula weights by the mask and divides by its sum, giving [1]; the
    two other terms are the same on both sides. *)
Lemma batch_loss_iou_weighting :
  index_axis1 0 sample_targets
  = Ok {| shape := [2%nat; 2%nat]; data := [1; 1; 1; 0] |}
  /\ index_axis1 5 sample_targets
     = Ok {| shape := [2%nat; 2%nat]; data := [1 / 2; 1 / 4; 1 / 4; 0] |}
  /\ exists L v,
       batch_losses unit_iou_kernel (fun _ _ => BCEFocalLoss)
                    sample_preds sample_targets = Ok L
       /\ loss_total L = {| shape := [1%nat]; data := [v] |}
       /\ v <> spec_batch_loss
                 (zip_with Rmult
                    [BCELoss_forward_entry 0 (1 / 2); BCELoss_forward_entry 0 (1 / 4);
                     BCELoss_forward_entry 0 (1 / 4); BCELoss_forward_entry 0 0]
                    [1; 1; 1; 0])
                 [1; 1; 1; 1]
                 [BCEFocalLoss_entry 0 1; BCEFocalLoss_entry 0 0;
                  BCEFocalLoss_entry 0 0; BCEFocalLoss_entry 0 0]
                 [1; 1; 1; 0].
Proof.
  split; [reflexivity|]. split; [reflexivity|].
  destruct sample_batch_loss as (L & HL & Htotal).
  eexists L, _. split; [exact HL|]. split; [exact Htotal|].
  unfold spec_batch_loss, sumR. cbn [foldr zip_with].
  set (x1 := BCELoss_forward_entry 0 (1 / 2)).
  set (x2 := BCELoss_forward_entry 0 (1 / 4)).
  set (x3 := BCELoss_forward_entry 0 0).
  set (f1 := BCEFocalLoss_entry 0 1). set (f0 := BCEFocalLoss_entry 0 0).
  intros H. field_simplify in H. lra.
Qed.

End TrainFcosFacts.

(** ** Heap computations: what a call leaves untouched *)

Module HeapFacts.

Import Numpy Heap.

Lemma preserves_refl (h : heap) : preserves h h.
Proof. intros l a H. exact H. Qed.

Lemma frame_ret {A} (h0 : heap) (a : A) (Q : A -> Prop) :
  Q a -> frame h0 (ST.ret a) Q.
Proof. intros HQ h Hh. split; [exact Hh|]. intros a' [= <-]. exact HQ. Qed.

Lemma frame_lift {A} (h0 : heap) (r : Result A) :
  frame h0 (ST.lift r) (fun _ => True).
Proof. intros h Hh. split; [exact Hh|]. intros; exact I. Qed.

Lemma frame_load (h0 : heap) (l : loc) : frame h0 (load l) (fun _ => True).
Proof.
  intros h Hh. unfold load.
  destruct (h !! l); (split; [exact Hh|]); intros; exact I.
Qed.

(** A new object lies outside [h0]. *)
Lemma frame_alloc (h0 : heap) (a : ndarray) :
  frame h0 (alloc a) (fun l => h0 !! l = None).
Proof.
  intros h Hh. unfold alloc. cbn [fst snd].
  assert (Hfresh : h0 !! fresh (dom h) = None).
  { destruct (h0 !! fresh (dom h)) as [x|] eqn:Hx; [|reflexivity].
    exfalso. apply (is_fresh (dom h)). apply elem_of_dom.
    exists x. now apply Hh. }
  split.
  - intros l x Hl. rewrite lookup_insert_ne; [now apply Hh|].
    intros <-. congruence.
  - intros l [= <-]. exact Hfresh.
Qed.

(** Writing to an object outside [h0] keeps [h0]. *)
Lemma frame_store (h0 : heap) (l : loc) (a : ndarray) :
  h0 !! l = None -> frame h0 (store l a) (fun _ => True).
Proof.
  intros Hl h Hh. unfold store. cbn [fst snd]. split; [|intros; exact I].
  intros l' x Hl'. rewrite lookup_insert_ne; [now apply Hh|].
  intros <-. congruence.
Qed.

Lemma frame_bind {A B} (h0 : heap) (m : ST.M heap A) (k : A -> ST.M heap B)
    (Q : A -> Prop) (Q' : B -> Prop) :
  frame h0 m Q -> (forall a, Q a -> frame h0 (k a) Q') ->
  frame h0 (ST.bind m k) Q'.
Proof.
  intros Hm Hk h Hh. unfold ST.bind.
  destruct (Hm h Hh) as [Hpres HQ].
  destruct (m h) as [[a|e] h1]; cbn [fst snd] in *.
  - apply (Hk a (HQ a eq_refl) h1 Hpres).
  - split; [exact Hpres|]. intros a [=].
Qed.

(** One step through a computation with the rules above. *)
Ltac frame_step :=
  lazymatch goal with
  | |- frame _ (ST.bind (alloc _) _) _ =>
      eapply frame_bind; [apply frame_alloc|cbv beta; intros ? ?]
  | |- frame _ (ST.bind (load _) _) _ =>
      eapply frame_bind; [apply frame_load|cbv beta; intros ? _]
  | |- frame _ (ST.bind (ST.lift _) _) _ =>
      eapply frame_bind; [apply frame_lift|cbv beta; intros ? _]
  | |- frame _ (ST.bind (store _ _) _) _ =>
      eapply frame_bind; [apply frame_store; assumption|cbv beta; intros ? _]
  | |- frame _ (ST.ret _) _ => apply frame_ret; exact I
  | |- frame _ (ST.lift _) _ => apply frame_lift
  end.

Section Adapters.

Variable to_float32 : R -> R.
Variable FCOSTargetGenerator_op :
  Z -> Z -> Z -> Z -> ndarray -> ndarray -> Result (ndarray * (ndarray * ndarray)).

Lemma frame_level_target (h0 : heap) self image bboxes level :
  frame h0
    (TrainFcos.level_target to_float32 FCOSTargetGenerator_op
       self image bboxes level)
    (fun _ => True).
Proof.
  unfold TrainFcos.level_target.
  destruct level as [[stride min_distance] max_distance].
  repeat frame_step.
Qed.

Lemma frame_level_targets (h0 : heap) self image bboxes levels :
  frame h0
    (TrainFcos.level_targets to_float32 FCOSTargetGenerator_op
       self image bboxes levels)
    (fun _ => True).
Proof.
  induction levels as [|level rest IH]; cbn [TrainFcos.level_targets].
  - apply frame_ret. exact I.
  - eapply frame_bind; [apply frame_level_target|cbv beta; intros ? _].
    eapply frame_bind; [apply IH|cbv beta; intros ? _].
    apply frame_ret. exact I.
Qed.

Lemma frame_FCOSTargetGenerator_call (h0 : heap) self image bboxes :
  frame h0
    (TrainFcos.FCOSTargetGenerator_call to_float32 FCOSTargetGenerator_op
       self image bboxes)
    (fun _ => True).
Proof.
  unfold TrainFcos.FCOSTargetGenerator_call.
  do 7 frame_step.
  eapply frame_bind; [apply frame_level_targets|cbv beta; intros ? _].
  repeat frame_step.
Qed.

Lemma frame_RetinaNetTargetGenerator_call (h0 : heap) config image bboxes :
  frame h0 (TrainRetinanet.RetinaNetTargetGenerator_call config image bboxes)
        (fun _ => True).
Proof.
  unfold TrainRetinanet.RetinaNetTargetGenerator_call.
  repeat frame_step.
Qed.

(** C10.  Whatever the outcome of a call of either adapter, every array
    that was in the heap before the call, the caller's [bboxes] among
    them, is in the heap afterwards with the same contents: the class-id
    shift and the padding are written to arrays created during the call. *)
Theorem adapters_leave_bboxes_unchanged
    (self : TrainFcos.Config) (config : TrainRetinanet.Config)
    (image bboxes : loc) (h : heap) (b : ndarray) :
  h !! bboxes = Some b ->
  let h_fcos := snd (TrainFcos.FCOSTargetGenerator_call
                       to_float32 FCOSTargetGenerator_op self image bboxes h) in
  let h_retina := snd (TrainRetinanet.RetinaNetTargetGenerator_call
                         config image bboxes h) in
  h_fcos !! bboxes = Some b
  /\ h_retina !! bboxes = Some b
  /\ preserves h h_fcos
  /\ preserves h h_retina.
Proof.
  intros Hb. cbv zeta.
  destruct (frame_FCOSTargetGenerator_call h self image bboxes h
              (preserves_refl h)) as [Hfcos _].
  destruct (frame_RetinaNetTargetGenerator_call h config image bboxes h
              (preserves_refl h)) as [Hretina _].
  split; [now apply Hfcos|]. split; [now apply Hretina|].
  split; assumption.
Qed.

End Adapters.

End HeapFacts.

(** ** The two target adapters *)

Module AdapterFacts.

Import Numpy NumpyFacts Heap HeapFacts TrainRetinanet.

Local Open Scope nat_scope.

Lemma adapters_leave_bboxes_unchanged_witness :
  let b := {| shape := [1; 5]; data := [10; 20; 30; 40; 0]%R |} in
  let img := {| shape := [1; 1; 3]; data := [0; 0; 0]%R |} in
  let h : heap := <[2%positive := b]> (<[1%positive := img]> ∅) in
  snd (TrainFcos.FCOSTargetGenerator_call
         (fun x => x)
         (fun _ _ _ _ i bb => Ok (full [1; 1; 6] 0%R, (i, bb)))
         (TrainFcos.main_config 81) 1%positive 2%positive h) !! 2%positive
  = Some b
  /\ snd (RetinaNetTargetGenerator_call main_config 1%positive 2%positive h)
       !! 2%positive
     = Some b.
Proof.
  cbv zeta.
  pose proof (adapters_leave_bboxes_unchanged
                (fun x => x)
                (fun _ _ _ _ i bb => Ok (full [1; 1; 6] 0%R, (i, bb)))
                (TrainFcos.main_config 81) main_config 1%positive 2%positive
                (<[2%positive := {| shape := [1; 5];
                                    data := [10; 20; 30; 40; 0]%R |}]>
                   (<[1%positive := {| shape := [1; 1; 3];
                                       data := [0; 0; 0]%R |}]> ∅))
                {| shape := [1; 5]; data := [10; 20; 30; 40; 0]%R |}
                (lookup_insert_eq _ _ _)) as H.
  cbv zeta in H. destruct H as (Hfcos & Hretina & _).
  split; [exact Hfcos|exact Hretina].
Defined.

Lemma flat_map_ext_In {A B} (f g : A -> list B) (l : list A) :
  (forall x, In x l -> f x = g x) -> flat_map f l = flat_map g l.
Proof.
  induction l as [|x l IH]; intros H; simpl; [reflexivity|].
  rewrite H by (now left). rewrite IH; [reflexivity|].
  intros y Hy. apply H. now right.
Qed.

Lemma strip_leading_ones_2d (n c : nat) : strip_leading_ones [n; c] = [n; c].
Proof. destruct n as [|[|n]]; reflexivity. Qed.

(** A value of the block's own shape is taken as it is. *)
Lemma broadcast_to_block_exact (n k : nat) (v : ndarray) :
  shape v = [n; k] -> wf v -> broadcast_to_block n k v = Ok (data v).
Proof.
  intros Hs Hv. unfold broadcast_to_block. rewrite Hs, strip_leading_ones_2d.
  rewrite !Nat.eqb_refl. cbn [orb andb]. f_equal.
  etransitivity;
    [|apply (read_rows (data v) n k); rewrite Hv, Hs; unfold size_of; simpl; lia].
  apply flat_map_ext_In. intros i Hi%in_seq.
  apply map_ext_in. intros j Hj%in_seq.
  unfold item. f_equal.
  destruct (Nat.eqb_spec n 1); destruct (Nat.eqb_spec k 1); subst; lia.
Qed.

Lemma imap_overwrite_prefix (w n : nat) (vals dst : list R) :
  0 < w -> length vals = n * w -> n * w <= length dst ->
  imap (fun p x => if (p / w <? n) && (p mod w <? w)
                   then nth ((p / w) * w + p mod w) vals 0%R else x) dst
  = vals ++ drop (n * w) dst.
Proof.
  intros Hw Hvals Hdst. apply list_eq. intros i.
  rewrite list_lookup_imap.
  destruct (decide (i < n * w)) as [Hi|Hi].
  - rewrite lookup_app_l by lia.
    destruct (lookup_lt_is_Some_2 dst i) as [x Hx]; [lia|].
    destruct (lookup_lt_is_Some_2 vals i) as [y Hy]; [lia|].
    rewrite Hx, Hy. simpl.
    assert (Hq : i / w < n) by (apply Nat.Div0.div_lt_upper_bound; lia).
    assert (Hm : i mod w < w) by (apply Nat.mod_upper_bound; lia).
    destruct (Nat.ltb_spec (i / w) n); [|lia].
    destruct (Nat.ltb_spec (i mod w) w); [|lia].
    cbn [andb]. f_equal.
    replace (i / w * w + i mod w) with i
      by (rewrite (Nat.div_mod_eq i w) at 1; lia).
    now apply nth_lookup_Some.
  - rewrite lookup_app_r by lia. rewrite lookup_drop.
    replace (n * w + (i - length vals)) with i by lia.
    destruct (dst !! i) as [x|] eqn:Hx; [|reflexivity]. simpl.
    assert (Hq : n <= i / w) by (apply Nat.div_le_lower_bound; lia).
    destruct (Nat.ltb_spec (i / w) n); [lia|]. reflexivity.
Qed.

(** Assigning [n] full rows replaces the first [n] rows. *)
Lemma setitem_block_rows (dst v : ndarray) (m n w : nat) :
  shape dst = [m; w] -> wf dst -> shape v = [n; w] -> wf v -> n <= m -> 0 < w ->
  setitem_block dst n w v
  = Ok {| shape := [m; w]; data := data v ++ drop (n * w) (data dst) |}.
Proof.
  intros Hd Hwd Hv Hwv Hn Hw. unfold setitem_block. rewrite Hd.
  replace (Nat.min n m) with n by lia. rewrite Nat.min_id.
  rewrite broadcast_to_block_exact by assumption. cbn [Py.bind]. f_equal. f_equal.
  apply imap_overwrite_prefix; [exact Hw| |].
  - rewrite Hwv, Hv. unfold size_of. simpl. lia.
  - rewrite Hwd, Hd. unfold size_of. simpl. nia.
Qed.

Lemma minus_ones_data (s : list nat) :
  data (map_nd (fun x => x * -1)%R (ones s)) = List.repeat (-1)%R (size_of s).
Proof.
  unfold map_nd, ones, full. cbn [data]. rewrite map_repeat.
  f_equal. lra.
Qed.

Lemma drop_repeat {A} (x : A) (n k : nat) :
  drop k (List.repeat x n) = List.repeat x (n - k).
Proof.
  revert k. induction n as [|n IH]; intros [|k]; simpl; try reflexivity. apply IH.
Qed.

Lemma take_repeat {A} (x : A) (n k : nat) :
  k <= n -> take k (List.repeat x n) = List.repeat x k.
Proof.
  revert k. induction n as [|n IH]; intros [|k] Hk; simpl; try reflexivity; [lia|].
  f_equal. apply IH. lia.
Qed.

(** The adapter with any capacity, on at most that many boxes. *)
Lemma RetinaNet_padding_ok (config : Config) (image bboxes : loc) (h : heap)
    (b : ndarray) (n : nat) :
  h !! bboxes = Some b -> shape b = [n; 5] -> wf b ->
  n <= max_bbox_number config ->
  exists l_copy l_padded,
    h !! l_padded = None
    /\ RetinaNetTargetGenerator_call config image bboxes h
       = (Ok [image; l_padded],
          <[l_padded :=
              {| shape := [max_bbox_number config; 5];
                 data := data b
                         ++ List.repeat (-1)%R
                              ((max_bbox_number config - n) * 5) |}]>
            (<[l_copy := b]> h)).
Proof.
  intros Hb Hs Hwf Hn.
  set (l1 := fresh (dom h)).
  set (h1 := <[l1 := b]> h).
  set (l2 := fresh (dom h1)).
  assert (Hl1 : h !! l1 = None) by (apply not_elem_of_dom, is_fresh).
  assert (Hl2 : h1 !! l2 = None) by (apply not_elem_of_dom, is_fresh).
  assert (Hne : l1 <> l2).
  { intros Heq. rewrite <- Heq in Hl2. unfold h1 in Hl2.
    rewrite lookup_insert_eq in Hl2. discriminate. }
  exists l1, l2. split.
  { unfold h1 in Hl2. rewrite lookup_insert_ne in Hl2 by exact Hne. exact Hl2. }
  unfold RetinaNetTargetGenerator_call, ST.bind, ST.lift, ST.ret, load, alloc, store.
  rewrite Hb. fold l1. fold h1.
  assert (H1 : h1 !! l1 = Some b) by apply lookup_insert_eq.
  rewrite H1. unfold len. rewrite Hs.
  destruct (Nat.leb_spec n (max_bbox_number config)) as [_|]; [|lia].
  cbn [Py.assert]. fold l2.
  rewrite lookup_insert_eq.
  rewrite lookup_insert_ne by (intros Heq; apply Hne; symmetry; exact Heq).
  rewrite H1, Hs.
  rewrite (setitem_block_rows _ b (max_bbox_number config) n 5);
    try assumption; try lia;
    [|reflexivity|unfold wf; rewrite minus_ones_data, repeat_length; reflexivity].
  rewrite minus_ones_data, drop_repeat.
  rewrite insert_insert_eq.
  replace (size_of [max_bbox_number config; 5] - n * 5)
    with ((max_bbox_number config - n) * 5) by (unfold size_of; simpl; lia).
  reflexivity.
Qed.

(** The adapter with any capacity, on more boxes than that. *)
Lemma RetinaNet_padding_overflow (config : Config) (image bboxes : loc) (h : heap)
    (b : ndarray) (n : nat) :
  h !! bboxes = Some b -> len b = Ok n -> max_bbox_number config < n ->
  fst (RetinaNetTargetGenerator_call config image bboxes h) = Raise AssertionError.
Proof.
  intros Hb Hlen Hn.
  unfold RetinaNetTargetGenerator_call, ST.bind, ST.lift, ST.ret, load, alloc, store.
  rewrite Hb, lookup_insert_eq, Hlen.
  destruct (Nat.leb_spec n (max_bbox_number config)) as [|_]; [lia|].
  reflexivity.
Qed.

Lemma row_of_prefix (l1 l2 : list R) (n i : nat) :
  length l1 = n * 5 -> i < n ->
  take 5 (drop (i * 5) (l1 ++ l2)) = take 5 (drop (i * 5) l1).
Proof.
  intros Hl Hi. rewrite drop_app_le by lia.
  apply take_app_le. rewrite length_drop. lia.
Qed.

Lemma row_of_padding (l1 : list R) (x : R) (n m i : nat) :
  length l1 = n * 5 -> n <= i < m ->
  take 5 (drop (i * 5) (l1 ++ List.repeat x ((m - n) * 5))) = List.repeat x 5.
Proof.
  intros Hl Hi. rewrite drop_app_ge by lia. rewrite drop_repeat.
  apply take_repeat. lia.
Qed.

(** C3.  With the capacity 200 that [main] configures: for an array of
    [n <= 200] boxes of five columns the adapter returns the image
    together with a new array of shape [(200, 5)] whose first [n] rows are
    the input rows and whose other rows are [-1] in every column; for an
    array of more than 200 rows it raises the assertion. *)
Theorem RetinaNet_padding (image bboxes : loc) (h : heap) (b : ndarray) (n : nat) :
  h !! bboxes = Some b ->
  (shape b = [n; 5] -> wf b -> n <= 200 ->
   exists l_padded h' padded,
     h !! l_padded = None
     /\ RetinaNetTargetGenerator_call main_config image bboxes h
        = (Ok [image; l_padded], h')
     /\ h' !! l_padded = Some padded
     /\ shape padded = [200; 5]
     /\ data padded = data b ++ List.repeat (-1)%R ((200 - n) * 5)
     /\ (forall i, i < n -> row 5 padded i = row 5 b i)
     /\ (forall i, n <= i < 200 -> row 5 padded i = List.repeat (-1)%R 5))
  /\ (len b = Ok n -> 200 < n ->
      fst (RetinaNetTargetGenerator_call main_config image bboxes h)
      = Raise AssertionError).
Proof.
  intros Hb. split.
  - intros Hs Hwf Hn.
    destruct (RetinaNet_padding_ok main_config image bboxes h b n Hb Hs Hwf Hn)
      as (l_copy & l_padded & Hfresh & Hrun).
    assert (Hlen : length (data b) = n * 5)
      by (rewrite Hwf, Hs; unfold size_of; simpl; lia).
    eexists l_padded, _, _. split; [exact Hfresh|]. split; [exact Hrun|].
    split; [apply lookup_insert_eq|]. split; [reflexivity|].
    split; [reflexivity|]. split.
    + intros i Hi. unfold row. cbn [data].
      now apply (row_of_prefix _ _ n).
    + intros i Hi. unfold row. cbn [data max_bbox_number main_config].
      now apply (row_of_padding _ _ n 200).
  - intros Hlen Hn.
    now apply (RetinaNet_padding_overflow main_config image bboxes h b n).
Qed.

Lemma RetinaNet_padding_witness :
  let b := {| shape := [1; 5]; data := [10; 20; 30; 40; 0]%R |} in
  let h : heap := <[1%positive := b]> ∅ in
  exists l_padded h' padded,
    RetinaNetTargetGenerator_call main_config 2%positive 1%positive h
    = (Ok [2%positive; l_padded], h')
    /\ h' !! l_padded = Some padded
    /\ data padded = [10; 20; 30; 40; 0]%R ++ List.repeat (-1)%R (199 * 5).
Proof.
  cbv zeta.
  destruct (proj1 (RetinaNet_padding 2%positive 1%positive
                     (<[1%positive := {| shape := [1; 5];
                                         data := [10; 20; 30; 40; 0]%R |}]> ∅)
                     {| shape := [1; 5]; data := [10; 20; 30; 40; 0]%R |} 1
                     (lookup_insert_eq _ _ _))
             eq_refl eq_refl)
    as (l_padded & h' & padded & _ & Hrun & Hlookup & _ & Hdata & _).
  { lia. }
  exists l_padded, h', padded.
  split; [exact Hrun|]. split; [exact Hlookup|exact Hdata].
Defined.

End AdapterFacts.

(** ** Selection of the parameters to train *)

Module TrainRetinanetFacts.

Import TrainRetinanet.

Section SelectionFacts.

Variable re_match : string -> string -> Result bool.

Lemma store_evolves_refl s : store_evolves s s.
Proof. intros q prm Hq. exists prm. auto. Qed.

Lemma store_evolves_trans s1 s2 s3 :
  store_evolves s1 s2 -> store_evolves s2 s3 -> store_evolves s1 s3.
Proof.
  intros H12 H23 q prm Hq.
  destruct (H12 q prm Hq) as (prm2 & Hq2 & Hreq2).
  destruct (H23 q prm2 Hq2) as (prm3 & Hq3 & Hreq3).
  exists prm3. split; [exact Hq3|].
  destruct Hreq3 as [Hreq3|Hreq3]; [|now right].
  rewrite Hreq3. exact Hreq2.
Qed.

Lemma store_evolves_same_params s s' :
  params_all s' = params_all s -> store_evolves s s'.
Proof. intros Heq q prm Hq. exists prm. rewrite Heq. auto. Qed.

Lemma touches_only_refl p s : touches_only p s s.
Proof. repeat split; auto using store_evolves_refl. Qed.

Lemma touches_only_trans p s1 s2 s3 :
  touches_only p s1 s2 -> touches_only p s2 s3 -> touches_only p s1 s3.
Proof.
  intros (Ht1 & Ha1 & Hp1) (Ht2 & Ha2 & Hp2). repeat split.
  - congruence.
  - intros q Hq. rewrite Ha2, Ha1 by exact Hq. reflexivity.
  - eapply store_evolves_trans; eassumption.
Qed.

Lemma lookup_param_state p s : snd (lookup_param p s) = s.
Proof. unfold lookup_param. destruct (params_all s !! p); reflexivity. Qed.

Lemma lookup_param_ok p s prm :
  fst (lookup_param p s) = Ok prm -> params_all s !! p = Some prm.
Proof.
  unfold lookup_param. destruct (params_all s !! p); cbn; congruence.
Qed.

Lemma lookup_param_some p s prm :
  params_all s !! p = Some prm -> lookup_param p s = (Ok prm, s).
Proof. intros H. unfold lookup_param. now rewrite H. Qed.

Lemma logging_info_touches p msg s : touches_only p s (snd (logging_info msg s)).
Proof. repeat split; auto using store_evolves_same_params. Qed.

Lemma set_grad_req_touches p s : touches_only p s (snd (set_grad_req p null s)).
Proof.
  unfold set_grad_req, ST.bind, ST.modify, lookup_param.
  destruct (params_all s !! p) as [prm|] eqn:Hp; cbn [snd].
  - repeat split; cbn.
    + intros q Hq. now rewrite lookup_insert_ne by congruence.
    + intros q prm' Hq. cbn [params_all]. destruct (decide (q = p)) as [->|Hne].
      * rewrite lookup_insert_eq. eexists. split; [reflexivity|]. now right.
      * rewrite lookup_insert_ne by congruence. exists prm'. auto.
  - apply touches_only_refl.
Qed.

Lemma match_fixed_touches p fs ignore s :
  touches_only p s (snd (match_fixed re_match p fs ignore s)).
Proof.
  revert ignore s. induction fs as [|f rest IH]; intros ignore s; cbn [match_fixed].
  - apply touches_only_refl.
  - unfold ST.bind at 1. unfold ST.lift at 1.
    destruct (re_match f p) as [[|]|e]; cbn [snd].
    + unfold ST.bind at 1.
      pose proof (set_grad_req_touches p s) as H1.
      destruct (set_grad_req p null s) as [[[]|e] s1]; cbn [snd] in *; [|exact H1].
      unfold ST.bind at 1.
      pose proof (logging_info_touches p
                    (p +:+ " is ignored when training because it matches " +:+ f +:+ ".")
                    s1) as H2.
      destruct (logging_info _ s1) as [[[]|e] s2]; cbn [snd] in *.
      * eapply touches_only_trans; [exact H1|].
        eapply touches_only_trans; [exact H2|]. apply IH.
      * eapply touches_only_trans; [exact H1|exact H2].
    + apply IH.
    + apply touches_only_refl.
Qed.

Lemma trainable_touches p s s' :
  trainable s -> p ∉ params_to_train s -> touches_only p s s' -> trainable s'.
Proof.
  intros Ht Hp (Htr & Hall & _) q Hq. rewrite Htr in Hq.
  destruct (Ht q Hq) as (prm & Hprm & Hreq).
  exists prm. split; [|exact Hreq].
  rewrite Hall; [exact Hprm|]. intros ->. contradiction.
Qed.

(** One round of the loop keeps the invariant, adds at most [p], and
    freezes parameters at most. *)
Lemma select_param_trainable fixed p s r s' :
  select_param re_match fixed p s = (r, s') ->
  trainable s -> p ∉ params_to_train s ->
  trainable s'
  /\ params_to_train s' ⊆ {[p]} ∪ params_to_train s
  /\ store_evolves s s'.
Proof.
  intros Hrun Ht Hp. unfold select_param in Hrun.
  unfold ST.bind at 1 in Hrun.
  pose proof (lookup_param_state p s) as Hs.
  destruct (lookup_param p s) as [[prm|e] s0]; cbn [snd] in Hs; subst s0.
  2:{ injection Hrun as _ <-.
      split; [exact Ht|]. split; [apply union_subseteq_r|apply store_evolves_refl]. }
  unfold ST.bind at 1 in Hrun.
  set (first_check := if bool_decide (grad_req prm = null) && negb (contains "running" p)
                      then _ else _) in Hrun.
  assert (H1 : touches_only p s (snd (first_check s))).
  { unfold first_check.
    destruct (bool_decide (grad_req prm = null) && negb (contains "running" p)).
    - apply logging_info_touches.
    - apply touches_only_refl. }
  destruct (first_check s) as [[ignore|e] s1]; cbn [snd] in H1.
  2:{ injection Hrun as _ <-. split; [eapply trainable_touches; eauto|].
      destruct H1 as (-> & _ & Hev). split; [apply union_subseteq_r|exact Hev]. }
  unfold ST.bind at 1 in Hrun.
  set (second_check := match fixed with None => _ | Some fs => _ end) in Hrun.
  assert (H2 : touches_only p s1 (snd (second_check s1))).
  { unfold second_check. destruct fixed as [fs|].
    - apply match_fixed_touches.
    - apply touches_only_refl. }
  destruct (second_check s1) as [[ignore'|e] s2]; cbn [snd] in H2;
    pose proof (touches_only_trans _ _ _ _ H1 H2) as H12.
  2:{ injection Hrun as _ <-. split; [eapply trainable_touches; eauto|].
      destruct H12 as (-> & _ & Hev). split; [apply union_subseteq_r|exact Hev]. }
  assert (Ht2 : trainable s2) by (eapply trainable_touches; eauto).
  assert (Htr2 : params_to_train s2 = params_to_train s) by apply H12.
  assert (Hev2 : store_evolves s s2) by apply H12.
  unfold ST.bind at 1 in Hrun.
  pose proof (lookup_param_state p s2) as Hs.
  destruct (lookup_param p s2) as [[prm2|e] s3] eqn:Hlk2; cbn [snd] in Hs; subst s3.
  2:{ injection Hrun as _ <-. split; [exact Ht2|]. rewrite Htr2.
      split; [apply union_subseteq_r|exact Hev2]. }
  assert (Hprm2 : params_all s2 !! p = Some prm2).
  { apply lookup_param_ok. now rewrite Hlk2. }
  destruct (negb ignore' && negb (bool_decide (grad_req prm2 = null))) eqn:Hguard.
  - apply andb_true_iff in Hguard as [_ Hreq].
    apply negb_true_iff, bool_decide_eq_false in Hreq.
    unfold add_to_train, ST.bind, ST.modify in Hrun. rewrite Hlk2 in Hrun.
    injection Hrun as _ <-. cbn [params_to_train params_all]. split; [|split].
    + intros q Hq. cbn [params_to_train params_all] in *.
      apply elem_of_union in Hq as [Hq%elem_of_singleton|Hq].
      * subst q. exists prm2. split; assumption.
      * apply Ht2, Hq.
    + rewrite Htr2. reflexivity.
    + exact Hev2.
  - injection Hrun as _ <-. split; [exact Ht2|]. rewrite Htr2.
    split; [apply union_subseteq_r|exact Hev2].
Qed.

Lemma select_params_trainable fixed keys s :
  trainable s -> NoDup keys -> (forall p, p ∈ keys -> p ∉ params_to_train s) ->
  trainable (snd (select_params re_match fixed keys s))
  /\ store_evolves s (snd (select_params re_match fixed keys s)).
Proof.
  revert s. induction keys as [|p rest IH]; intros s Ht Hnd Hfresh;
    cbn [select_params].
  - split; [exact Ht|apply store_evolves_refl].
  - unfold ST.bind.
    destruct (select_param re_match fixed p s) as [r s1] eqn:Hrun.
    destruct (select_param_trainable fixed p s r s1 Hrun Ht) as (Ht' & Hsub & Hev).
    { apply Hfresh. left. }
    destruct r as [[]|e]; cbn [snd]; [|split; assumption].
    apply NoDup_cons in Hnd as [Hp Hnd].
    destruct (IH s1 Ht' Hnd) as [Ht'' Hev''].
    { intros q Hq Hin. apply Hsub in Hin.
      apply elem_of_union in Hin as [Hin%elem_of_singleton|Hin].
      - subst q. contradiction.
      - apply (Hfresh q); [now right|exact Hin]. }
    split; [exact Ht''|]. eapply store_evolves_trans; eassumption.
Qed.

Lemma touches_only_bound p q s s' :
  touches_only p s s' -> is_Some (params_all s !! q) -> is_Some (params_all s' !! q).
Proof.
  intros (_ & _ & Hev) [prm Hq].
  destruct (Hev q prm Hq) as (prm' & Hq' & _). eauto.
Qed.

Hypothesis re_match_total : forall f p, exists m, re_match f p = Ok m.

Lemma set_grad_req_ok p req s :
  is_Some (params_all s !! p) -> fst (set_grad_req p req s) = Ok tt.
Proof.
  intros [prm Hprm]. unfold set_grad_req, ST.bind, ST.modify.
  now rewrite (lookup_param_some _ _ _ Hprm).
Qed.

Lemma match_fixed_ok p fs ignore s :
  is_Some (params_all s !! p) ->
  exists ignore', fst (match_fixed re_match p fs ignore s) = Ok ignore'.
Proof.
  revert ignore s. induction fs as [|f rest IH]; intros ignore s Hp; cbn [match_fixed].
  - eexists. reflexivity.
  - unfold ST.bind at 1. unfold ST.lift at 1.
    destruct (re_match_total f p) as [m ->]. destruct m; [|now apply IH].
    unfold ST.bind at 1.
    pose proof (set_grad_req_ok p null s Hp) as Hok.
    pose proof (set_grad_req_touches p s) as Htouch.
    destruct (set_grad_req p null s) as [r s1]. cbn [fst snd] in Hok, Htouch. subst r.
    unfold ST.bind at 1. unfold logging_info at 1. unfold ST.modify at 1.
    apply IH. cbn [params_all]. exact (touches_only_bound p p s s1 Htouch Hp).
Qed.

Lemma select_param_ok fixed p s r s' :
  select_param re_match fixed p s = (r, s') ->
  is_Some (params_all s !! p) ->
  r = Ok tt
  /\ forall q, is_Some (params_all s !! q) -> is_Some (params_all s' !! q).
Proof.
  intros Hrun Hp. pose proof Hp as [prm Hprm]. unfold select_param in Hrun.
  unfold ST.bind at 1 in Hrun. rewrite (lookup_param_some _ _ _ Hprm) in Hrun.
  unfold ST.bind at 1 in Hrun.
  set (first_check := if bool_decide (grad_req prm = null) && negb (contains "running" p)
                      then _ else _) in Hrun.
  assert (H1 : exists ignore s1, first_check s = (Ok ignore, s1) /\ touches_only p s s1).
  { unfold first_check.
    destruct (bool_decide (grad_req prm = null) && negb (contains "running" p)).
    - eexists _, _. split; [reflexivity|]. apply logging_info_touches.
    - eexists _, _. split; [reflexivity|]. apply touches_only_refl. }
  destruct H1 as (ignore & s1 & Hfirst & H1). rewrite Hfirst in Hrun.
  unfold ST.bind at 1 in Hrun.
  set (second_check := match fixed with None => _ | Some fs => _ end) in Hrun.
  assert (H2 : exists ignore' s2,
             second_check s1 = (Ok ignore', s2) /\ touches_only p s1 s2).
  { unfold second_check. destruct fixed as [fs|].
    - destruct (match_fixed_ok p fs ignore s1) as [ignore' Hok].
      { exact (touches_only_bound p p s s1 H1 Hp). }
      pose proof (match_fixed_touches p fs ignore s1) as Htouch.
      destruct (match_fixed re_match p fs ignore s1) as [r' s2].
      cbn [fst snd] in Hok, Htouch. subst r'. eauto.
    - eexists _, _. split; [reflexivity|]. apply touches_only_refl. }
  destruct H2 as (ignore' & s2 & Hsecond & H2). rewrite Hsecond in Hrun.
  pose proof (touches_only_trans _ _ _ _ H1 H2) as H12.
  destruct (touches_only_bound p p s s2 H12 Hp) as [prm2 Hprm2].
  unfold ST.bind at 1 in Hrun. rewrite (lookup_param_some _ _ _ Hprm2) in Hrun.
  destruct (negb ignore' && negb (bool_decide (grad_req prm2 = null))).
  - unfold add_to_train, ST.bind, ST.modify in Hrun.
    rewrite (lookup_param_some _ _ _ Hprm2) in Hrun.
    injection Hrun as <- <-. split; [reflexivity|].
    intros q Hq. exact (touches_only_bound p q s s2 H12 Hq).
  - injection Hrun as <- <-. split; [reflexivity|].
    intros q Hq. exact (touches_only_bound p q s s2 H12 Hq).
Qed.

Lemma select_params_ok fixed keys s :
  (forall p, p ∈ keys -> is_Some (params_all s !! p)) ->
  fst (select_params re_match fixed keys s) = Ok tt.
Proof.
  revert s. induction keys as [|p rest IH]; intros s Hkeys; cbn [select_params].
  - reflexivity.
  - unfold ST.bind.
    destruct (select_param re_match fixed p s) as [r s1] eqn:Hrun.
    destruct (select_param_ok fixed p s r s1 Hrun) as [-> Hdom].
    { apply Hkeys. left. }
    apply IH. intros q Hq. apply Hdom, Hkeys. now right.
Qed.

End SelectionFacts.

(** C9.  After the selection loop of the anchor-based pipeline, whether it
    ran to the end or a pattern raised, every key of [params_to_train]
    names a parameter whose gradient requirement is not ['null'].  A
    parameter that was collected with the requirement ['null'] is not
    among the keys, whatever its name: one with "running" in its name is
    spared the log message of the first test and is left out by the last
    test of the loop body all the same.  When no pattern raises, the loop
    runs to the end. *)
Theorem params_to_train_never_frozen
    (re_match : string -> string -> Result bool) (config : Config)
    (collected : gmap string GluonParameter) :
  let run := train_net_select re_match config collected in
  (forall p, p ∈ params_to_train (snd run) ->
             exists prm, params_all (snd run) !! p = Some prm /\ grad_req prm ≠ null)
  /\ (forall p prm, collected !! p = Some prm -> grad_req prm = null ->
                    p ∉ params_to_train (snd run))
  /\ ((forall f p, exists m, re_match f p = Ok m) -> fst run = Ok tt).
Proof.
  cbv zeta. unfold train_net_select.
  destruct (select_params_trainable re_match (FIXED_PARAMS config)
              (map fst (map_to_list collected))
              {| params_all := collected; params_to_train := ∅; logged := [] |})
    as [Htrain Hev].
  { intros p Hp. cbn in Hp. set_solver. }
  { apply NoDup_fst_map_to_list. }
  { intros p _. cbn. set_solver. }
  split; [exact Htrain|]. split.
  - intros p prm Hp Hnull Hin.
    destruct (Htrain p Hin) as (prm1 & Hp1 & Hreq1).
    destruct (Hev p prm Hp) as (prm2 & Hp2 & Hreq2).
    rewrite Hp1 in Hp2. injection Hp2 as <-.
    destruct Hreq2 as [Hreq2|Hreq2]; congruence.
  - intros Htotal. apply select_params_ok; [exact Htotal|].
    intros p Hp. cbn [params_all].
    apply list_elem_of_fmap in Hp as ([q prm] & -> & Hin).
    apply elem_of_map_to_list in Hin. eauto.
Qed.

Lemma params_to_train_never_frozen_witness :
  let run := train_net_select (fun _ _ => Ok false) main_config sample_params in
  fst run = Ok tt
  /\ "bn_running_mean"%string ∉ params_to_train (snd run).
Proof.
  cbv zeta.
  destruct (params_to_train_never_frozen
              (fun _ _ => Ok false) main_config sample_params)
    as (_ & Hfrozen & Hruns).
  split.
  - apply Hruns. intros f p. exists false. reflexivity.
  - apply (Hfrozen "bn_running_mean"%string
             {| name := "bn_running_mean"; grad_req := null |}).
    + apply lookup_insert_eq.
    + reflexivity.
Defined.

(** A frozen running statistic is left out, without a log message. *)
Lemma sample_selection :
  train_net_select (fun _ _ => Ok false) main_config sample_params
  = (Ok tt,
     {| params_all := sample_params;
        params_to_train := {["conv_weight"%string]};
        logged := [] |}).
Proof.
  vm_compute. reflexivity.
Qed.


End TrainRetinanetFacts.

(** ** Further properties of the loss kernels *)

Module LossFacts.

Import Numpy NumpyFacts TrainFcos TrainFcosFacts.

Local Open Scope R_scope.

Lemma one_plus_exp_pos (y : R) : 0 < 1 + exp y.
Proof. pose proof (exp_pos y). lra. Qed.

Lemma sigmoid_alt (y : R) : sigmoid y = exp y / (1 + exp y).
Proof.
  unfold sigmoid. rewrite exp_Ropp.
  pose proof (exp_pos y). field. split; lra.
Qed.

Lemma sigmoid_range (y : R) : 0 < sigmoid y < 1.
Proof.
  rewrite sigmoid_alt. pose proof (exp_pos y) as He.
  split.
  - apply Rdiv_lt_0_compat; lra.
  - apply (Rmult_lt_reg_r (1 + exp y)); [lra|].
    unfold Rdiv. rewrite Rmult_assoc, Rinv_l by lra. lra.
Qed.

Lemma ln_sigmoid (y : R) : ln (sigmoid y) = y - ln (1 + exp y).
Proof.
  rewrite sigmoid_alt. unfold Rdiv.
  rewrite ln_mult; [|apply exp_pos|apply Rinv_0_lt_compat, one_plus_exp_pos].
  rewrite ln_exp, ln_Rinv by apply one_plus_exp_pos. lra.
Qed.

Lemma ln_one_minus_sigmoid (y : R) : ln (1 - sigmoid y) = - ln (1 + exp y).
Proof.
  replace (1 - sigmoid y) with (/ (1 + exp y)).
  - apply ln_Rinv, one_plus_exp_pos.
  - rewrite sigmoid_alt. pose proof (exp_pos y). field. lra.
Qed.

(** The log-domain expression of [BCELoss.forward] is the binary cross
    entropy between the target and [sigmoid(y)]. *)
Theorem BCELoss_is_cross_entropy (y target : R) :
  BCELoss_forward_entry y target
  = - (target * ln (sigmoid y) + (1 - target) * ln (1 - sigmoid y)).
Proof.
  unfold BCELoss_forward_entry. rewrite ln_sigmoid, ln_one_minus_sigmoid. lra.
Qed.

Lemma BCELoss_forward_derivative (y target : R) :
  derivable_pt_lim (fun v => BCELoss_forward_entry v target) y (sigmoid y - target).
Proof.
  unfold BCELoss_forward_entry.
  replace (sigmoid y - target) with ((0 + exp y) * / (1 + exp y) - target * 1).
  2:{ rewrite sigmoid_alt. pose proof (exp_pos y). field. lra. }
  apply (derivable_pt_lim_minus (fun v => ln (1 + exp v)) (fun v => target * v)).
  - rewrite Rmult_comm.
    apply (derivable_pt_lim_comp (fun v => 1 + exp v) ln).
    + apply (derivable_pt_lim_plus (fun _ => 1) exp).
      * apply derivable_pt_lim_const.
      * apply derivable_pt_lim_exp.
    + apply derivable_pt_lim_ln. apply one_plus_exp_pos.
  - apply (derivable_pt_lim_scal id target y 1). apply derivable_pt_lim_id.
Qed.

Lemma L2Loss_forward_derivative (y target : R) :
  derivable_pt_lim (fun v => L2Loss_forward_entry v target) y (2 * (y - target)).
Proof.
  unfold L2Loss_forward_entry.
  replace (2 * (y - target)) with ((INR 2 * (y - target) ^ Init.Nat.pred 2) * (1 - 0)).
  2:{ simpl. lra. }
  apply (derivable_pt_lim_comp (fun v => v - target) (fun u => u ^ 2)).
  - apply (derivable_pt_lim_minus id (fun _ => target)).
    + apply derivable_pt_lim_id.
    + apply derivable_pt_lim_const.
  - apply derivable_pt_lim_pow.
Qed.

(** Weighting a differentiable entry by the incoming gradient. *)
Lemma derivable_pt_lim_weighted (f : R -> R) (x l dy : R) :
  derivable_pt_lim f x l -> derivable_pt_lim (fun v => f v * dy) x (l * dy).
Proof.
  intros H.
  replace (l * dy) with (l * dy + f x * 0) by lra.
  apply (derivable_pt_lim_mult f (fun _ => dy)); [exact H|].
  apply derivable_pt_lim_const.
Qed.

Lemma wf_map_nd (f : R -> R) (a : ndarray) : wf a -> wf (map_nd f a).
Proof. unfold wf, map_nd. cbn [data shape]. now rewrite length_map. Qed.

Lemma nth_zip_with (f : R -> R -> R) (l1 l2 : list R) (i : nat) :
  (i < length l1)%nat -> (i < length l2)%nat ->
  nth i (zip_with f l1 l2) 0 = f (nth i l1 0) (nth i l2 0).
Proof.
  revert l2 i. induction l1 as [|a l1 IH]; intros [|b l2] [|i]; simpl; try lia;
    [reflexivity|]. intros H1 H2. apply IH; lia.
Qed.

Lemma length_zip_with_same (f : R -> R -> R) (l1 l2 : list R) (n : nat) :
  length l1 = n -> length l2 = n -> length (zip_with f l1 l2) = n.
Proof. intros H1 H2. rewrite length_zip_with. lia. Qed.

(** The gradient kernels on three well-formed arrays of one shape. *)
Lemma BCELoss_backward_same_shape (X0 X1 dy : ndarray) :
  shape X0 = shape X1 -> shape X0 = shape dy -> wf X0 -> wf X1 -> wf dy ->
  BCELoss_backward X0 X1 dy
  = Ok {| shape := shape X0;
          data := zip_with Rmult
                    (zip_with Rminus (List.map sigmoid (data X0)) (data X1))
                    (data dy) |}.
Proof.
  intros H1 H2 W0 W1 Wd. unfold BCELoss_backward.
  rewrite broadcast_binary_same_shape; [|exact H1|now apply wf_map_nd|exact W1].
  cbn [Py.bind map_nd shape data].
  rewrite broadcast_binary_same_shape; [reflexivity|exact H2| |exact Wd].
  unfold wf. cbn [shape data].
  apply length_zip_with_same; [now rewrite length_map|rewrite H1; exact W1].
Qed.

Lemma L2Loss_backward_same_shape (X0 X1 dy : ndarray) :
  shape X0 = shape X1 -> shape X0 = shape dy -> wf X0 -> wf X1 -> wf dy ->
  L2Loss_backward X0 X1 dy
  = Ok {| shape := shape X0;
          data := zip_with Rmult
                    (List.map (fun v => 2 * v) (zip_with Rminus (data X0) (data X1)))
                    (data dy) |}.
Proof.
  intros H1 H2 W0 W1 Wd. unfold L2Loss_backward.
  rewrite broadcast_binary_same_shape by assumption.
  cbn [Py.bind map_nd shape data].
  rewrite broadcast_binary_same_shape; [reflexivity|exact H2| |exact Wd].
  apply (wf_map_nd (fun v => 2 * v)
           {| shape := shape X0; data := zip_with Rminus (data X0) (data X1) |}).
  unfold wf. cbn [shape data].
  apply length_zip_with_same; [exact W0|rewrite H1; exact W1].
Qed.

(** [BCELoss.backward] writes into [dX[0]] the derivative, with respect to
    the prediction, of the forward value weighted by the incoming gradient
    [dy]: entry by entry it is the vector-Jacobian product of
    [BCELoss.forward]. *)
Theorem BCELoss_backward_is_gradient (X0 X1 dy : ndarray) :
  shape X0 = shape X1 -> shape X0 = shape dy -> wf X0 -> wf X1 -> wf dy ->
  exists dX0,
    BCELoss_backward X0 X1 dy = Ok dX0
    /\ shape dX0 = shape X0
    /\ forall i, (i < size_of (shape X0))%nat ->
         item dX0 i = BCELoss_backward_entry (item X0 i) (item X1 i) (item dy i)
         /\ derivable_pt_lim
              (fun v => BCELoss_forward_entry v (item X1 i) * item dy i)
              (item X0 i) (item dX0 i).
Proof.
  intros H1 H2 W0 W1 Wd. eexists.
  split; [now apply BCELoss_backward_same_shape|]. split; [reflexivity|].
  intros i Hi.
  assert (L0 : (i < length (data X0))%nat) by (rewrite W0; exact Hi).
  assert (L1 : (i < length (data X1))%nat) by (rewrite W1, <- H1; exact Hi).
  assert (Ld : (i < length (data dy))%nat) by (rewrite Wd, <- H2; exact Hi).
  assert (E : item {| shape := shape X0;
                      data := zip_with Rmult
                                (zip_with Rminus (List.map sigmoid (data X0)) (data X1))
                                (data dy) |} i
              = BCELoss_backward_entry (item X0 i) (item X1 i) (item dy i)).
  { unfold item, BCELoss_backward_entry. cbn [data].
    rewrite nth_zip_with; [|rewrite length_zip_with, length_map; lia|exact Ld].
    rewrite nth_zip_with; [|rewrite length_map; lia|exact L1].
    rewrite (nth_indep _ 0 (sigmoid 0)) by (now rewrite length_map).
    now rewrite map_nth. }
  split; [exact E|]. rewrite E. unfold BCELoss_backward_entry.
  apply derivable_pt_lim_weighted, BCELoss_forward_derivative.
Qed.

Lemma BCELoss_backward_is_gradient_witness :
  exists dX0,
    BCELoss_backward {| shape := [2%nat]; data := [0; 1] |}
                     {| shape := [2%nat]; data := [1; 0] |}
                     {| shape := [2%nat]; data := [1; 1] |} = Ok dX0
    /\ shape dX0 = [2%nat]
    /\ forall i, (i < 2)%nat ->
         item dX0 i
         = BCELoss_backward_entry (nth i [0; 1] 0) (nth i [1; 0] 0) (nth i [1; 1] 0)
         /\ derivable_pt_lim
              (fun v => BCELoss_forward_entry v (nth i [1; 0] 0) * nth i [1; 1] 0)
              (nth i [0; 1] 0) (item dX0 i).
Proof.
  exact (BCELoss_backward_is_gradient
           {| shape := [2%nat]; data := [0; 1] |}
           {| shape := [2%nat]; data := [1; 0] |}
           {| shape := [2%nat]; data := [1; 1] |}
           eq_refl eq_refl eq_refl eq_refl eq_refl).
Defined.

(** [L2Loss.backward] likewise writes the vector-Jacobian product of
    [L2Loss.forward]. *)
Theorem L2Loss_backward_is_gradient (X0 X1 dy : ndarray) :
  shape X0 = shape X1 -> shape X0 = shape dy -> wf X0 -> wf X1 -> wf dy ->
  exists dX0,
    L2Loss_backward X0 X1 dy = Ok dX0
    /\ shape dX0 = shape X0
    /\ forall i, (i < size_of (shape X0))%nat ->
         item dX0 i = L2Loss_backward_entry (item X0 i) (item X1 i) (item dy i)
         /\ derivable_pt_lim
              (fun v => L2Loss_forward_entry v (item X1 i) * item dy i)
              (item X0 i) (item dX0 i).
Proof.
  intros H1 H2 W0 W1 Wd. eexists.
  split; [now apply L2Loss_backward_same_shape|]. split; [reflexivity|].
  intros i Hi.
  assert (L0 : (i < length (data X0))%nat) by (rewrite W0; exact Hi).
  assert (L1 : (i < length (data X1))%nat) by (rewrite W1, <- H1; exact Hi).
  assert (Ld : (i < length (data dy))%nat) by (rewrite Wd, <- H2; exact Hi).
  assert (E : item {| shape := shape X0;
                      data := zip_with Rmult
                                (List.map (fun v => 2 * v)
                                   (zip_with Rminus (data X0) (data X1)))
                                (data dy) |} i
              = L2Loss_backward_entry (item X0 i) (item X1 i) (item dy i)).
  { unfold item, L2Loss_backward_entry. cbn [data].
    rewrite nth_zip_with; [|rewrite length_map, length_zip_with; lia|exact Ld].
    rewrite (nth_indep _ 0 (2 * 0)) by (rewrite length_map, length_zip_with; lia).
    rewrite (map_nth (fun v => 2 * v)).
    rewrite nth_zip_with by assumption. reflexivity. }
  split; [exact E|]. rewrite E. unfold L2Loss_backward_entry.
  apply derivable_pt_lim_weighted, L2Loss_forward_derivative.
Qed.

Lemma L2Loss_backward_is_gradient_witness :
  exists dX0,
    L2Loss_backward {| shape := [2%nat]; data := [0; 1] |}
                    {| shape := [2%nat]; data := [1; 0] |}
                    {| shape := [2%nat]; data := [1; 1] |} = Ok dX0
    /\ shape dX0 = [2%nat]
    /\ forall i, (i < 2)%nat ->
         item dX0 i
         = L2Loss_backward_entry (nth i [0; 1] 0) (nth i [1; 0] 0) (nth i [1; 1] 0)
         /\ derivable_pt_lim
              (fun v => L2Loss_forward_entry v (nth i [1; 0] 0) * nth i [1; 1] 0)
              (nth i [0; 1] 0) (item dX0 i).
Proof.
  exact (L2Loss_backward_is_gradient
           {| shape := [2%nat]; data := [0; 1] |}
           {| shape := [2%nat]; data := [1; 0] |}
           {| shape := [2%nat]; data := [1; 1] |}
           eq_refl eq_refl eq_refl eq_refl eq_refl).
Defined.

(** *** [BCEFocalLossWithoutAlpha] *)

Lemma BCELoss_entry_target_1 (x : R) :
  BCELoss_forward_entry x 1 = - ln (sigmoid x).
Proof. unfold BCELoss_forward_entry. rewrite ln_sigmoid. lra. Qed.

Lemma BCELoss_entry_target_0 (x : R) :
  BCELoss_forward_entry x 0 = - ln (1 - sigmoid x).
Proof. unfold BCELoss_forward_entry. rewrite ln_one_minus_sigmoid. lra. Qed.

(** On hard targets the focal variant is the focal loss with [gamma = 2]
    and no [alpha]: [-(1 - p)^2 ln p] for a positive and
    [-p^2 ln (1 - p)] for a negative, with [p = sigmoid(x)]; this is the
    formula left in the comment of the function, without its [1e-7]. *)
Theorem BCEFocalLossWithoutAlpha_hard_targets (x : R) :
  BCEFocalLossWithoutAlpha_entry x 1 = - ((1 - sigmoid x) ^ 2 * ln (sigmoid x))
  /\ BCEFocalLossWithoutAlpha_entry x 0 = - (sigmoid x ^ 2 * ln (1 - sigmoid x)).
Proof.
  pose proof (sigmoid_range x) as [Hp0 Hp1].
  unfold BCEFocalLossWithoutAlpha_entry. cbv zeta. split.
  - rewrite BCELoss_entry_target_1.
    replace (-1 * - ln (sigmoid x)) with (ln (sigmoid x)) by lra.
    rewrite exp_ln by exact Hp0. lra.
  - rewrite BCELoss_entry_target_0.
    replace (-1 * - ln (1 - sigmoid x)) with (ln (1 - sigmoid x)) by lra.
    rewrite exp_ln by lra.
    replace (1 - (1 - sigmoid x)) with (sigmoid x) by lra. lra.
Qed.

Lemma zip_with_map_l (f : R -> R -> R) (g : R -> R) (l1 l2 : list R) :
  zip_with f (List.map g l1) l2 = zip_with (fun a b => f (g a) b) l1 l2.
Proof.
  revert l2. induction l1 as [|a l1 IH]; intros [|b l2]; simpl; [reflexivity..|].
  now rewrite IH.
Qed.

Lemma zip_with_self_map (f : R -> R -> R) (g : R -> R) (l : list R) :
  zip_with f l (List.map g l) = List.map (fun a => f a (g a)) l.
Proof. induction l as [|a l IH]; simpl; [reflexivity|now rewrite IH]. Qed.

Lemma map_zip_with (g : R -> R) (f : R -> R -> R) (l1 l2 : list R) :
  List.map g (zip_with f l1 l2) = zip_with (fun a b => g (f a b)) l1 l2.
Proof.
  revert l2. induction l1 as [|a l1 IH]; intros [|b l2]; simpl; [reflexivity..|].
  now rewrite IH.
Qed.

(** [BCEFocalLossWithoutAlpha] inherits the shape contract of the
    [BCELoss] kernel it calls: on different shapes the assertion of
    [BCELoss.infer_shape] propagates, on well-formed tensors of one shape
    the result has that shape and is computed entry by entry. *)
Theorem BCEFocalLossWithoutAlpha_entrywise (x target : ndarray) :
  (shape x <> shape target ->
     BCEFocalLossWithoutAlpha x target = Raise AssertionError)
  /\ (shape x = shape target -> wf x -> wf target ->
      BCEFocalLossWithoutAlpha x target
      = Ok {| shape := shape x;
              data := zip_with BCEFocalLossWithoutAlpha_entry (data x) (data target) |}).
Proof.
  split.
  - intros Hne. unfold BCEFocalLossWithoutAlpha, BCELoss, mobula_call, BCELoss_infer_shape.
    cbn [getitem lookup list_lookup Py.bind snd fst].
    now rewrite bool_decide_eq_false_2 by exact Hne.
  - intros Hs Hx Ht. unfold BCEFocalLossWithoutAlpha.
    rewrite BCELoss_same_shape by assumption. cbn [Py.bind].
    assert (Hlen : length (zip_with BCELoss_forward_entry (data x) (data target))
                   = size_of (shape x)).
    { apply length_zip_with_same; [exact Hx|rewrite Hs; exact Ht]. }
    rewrite broadcast_binary_same_shape;
      [|reflexivity|exact Hlen
       |unfold wf, map_nd; cbn [shape data]; now rewrite !length_map].
    cbn [map_nd shape data]. f_equal. f_equal.
    rewrite !List.map_map, zip_with_self_map, map_zip_with. reflexivity.
Qed.

Lemma BCEFocalLossWithoutAlpha_entrywise_witness :
  BCEFocalLossWithoutAlpha {| shape := [2%nat]; data := [0; 1] |}
                           {| shape := [1%nat; 2%nat]; data := [1; 0] |}
  = Raise AssertionError
  /\ BCEFocalLossWithoutAlpha {| shape := [2%nat]; data := [0; 1] |}
                              {| shape := [2%nat]; data := [1; 0] |}
     = Ok {| shape := [2%nat];
             data := zip_with BCEFocalLossWithoutAlpha_entry [0; 1] [1; 0] |}.
Proof.
  split.
  - apply (proj1 (BCEFocalLossWithoutAlpha_entrywise
                    {| shape := [2%nat]; data := [0; 1] |}
                    {| shape := [1%nat; 2%nat]; data := [1; 0] |})).
    cbn [shape]. discriminate.
  - apply (proj2 (BCEFocalLossWithoutAlpha_entrywise
                    {| shape := [2%nat]; data := [0; 1] |}
                    {| shape := [2%nat]; data := [1; 0] |})); reflexivity.
Defined.

(** *** Outcomes of [IoULoss.forward] *)


(** *** [IoULoss.max] *)

Lemma fold_left_Rmax_ge_init (rest : list R) (a : R) : a <= fold_left Rmax rest a.
Proof.
  revert a. induction rest as [|x rest IH]; intros a; simpl; [lra|].
  eapply Rle_trans; [apply (R.le_max_l a x)|apply IH].
Qed.

Lemma fold_left_Rmax_ge_elem (rest : list R) (a x : R) :
  In x rest -> x <= fold_left Rmax rest a.
Proof.
  revert a. induction rest as [|y rest IH]; intros a; simpl; [tauto|].
  intros [-> | Hin].
  - eapply Rle_trans; [apply (R.le_max_r a x)|apply fold_left_Rmax_ge_init].
  - now apply IH.
Qed.

Lemma fold_left_Rmax_attained (rest : list R) (a : R) :
  fold_left Rmax rest a = a \/ In (fold_left Rmax rest a) rest.
Proof.
  revert a. induction rest as [|y rest IH]; intros a; simpl; [now left|].
  destruct (IH (Rmax a y)) as [H|H]; [|now right; right].
  rewrite H. unfold Rmax. destruct (Rle_dec a y); [right; now left|now left].
Qed.

Lemma IoULoss_max_upper (args : list R) (x : R) :
  In x args -> x <= IoULoss_max args.
Proof.
  destruct args as [|a rest]; [intros []|]. cbn [IoULoss_max].
  intros [<- | Hin]; [apply fold_left_Rmax_ge_init|now apply fold_left_Rmax_ge_elem].
Qed.

Lemma IoULoss_max_attained (args : list R) :
  args <> [] -> In (IoULoss_max args) args.
Proof.
  destruct args as [|a rest]; [congruence|]. intros _. cbn [IoULoss_max].
  destruct (fold_left_Rmax_attained rest a) as [H|H]; [left; now rewrite H|now right].
Qed.

Lemma IoULoss_max_unique (args : list R) (m : R) :
  In m args -> (forall x, In x args -> x <= m) -> IoULoss_max args = m.
Proof.
  intros Hin Hub. apply Rle_antisym.
  - apply Hub, IoULoss_max_attained. intros ->. destruct Hin.
  - now apply IoULoss_max_upper.
Qed.

(** On a non-empty argument list [IoULoss.max] returns one of its
    arguments, and none of them exceeds it; it does not depend on the
    order of the arguments. *)
Theorem IoULoss_max_is_maximum (args : list R) :
  args <> [] ->
  In (IoULoss_max args) args
  /\ (forall x, In x args -> x <= IoULoss_max args)
  /\ (forall args', Permutation args args' -> IoULoss_max args' = IoULoss_max args).
Proof.
  intros Hne. split; [now apply IoULoss_max_attained|].
  split; [intros x; apply IoULoss_max_upper|].
  intros args' Hperm. apply IoULoss_max_unique.
  - apply (Permutation_in _ Hperm). now apply IoULoss_max_attained.
  - intros x Hx. apply IoULoss_max_upper.
    apply (Permutation_in _ (Permutation_sym Hperm)). exact Hx.
Qed.

Lemma IoULoss_max_is_maximum_witness :
  In (IoULoss_max [1; 3; 2]) [1; 3; 2]
  /\ (forall x, In x [1; 3; 2] -> x <= IoULoss_max [1; 3; 2])
  /\ (forall args', Permutation [1; 3; 2] args' ->
                    IoULoss_max args' = IoULoss_max [1; 3; 2]).
Proof. apply (IoULoss_max_is_maximum [1; 3; 2]). discriminate. Defined.

(** *** The log-sum-exp step *)

Lemma log_sum_exp_step_sums (c : CornerSums) :
  log_sum_exp_step c
  = - ln (I_sum c / (X_sum c + X_hat_sum c - I_sum c) + 1e-7).
Proof. reflexivity. Qed.

Lemma max_v_upper (c : CornerSums) (x : R) :
  In x (corner_list c) -> x - max_v c <= 0.
Proof.
  intros Hin. pose proof (IoULoss_max_upper (corner_list c) x Hin) as H.
  unfold max_v. lra.
Qed.

Lemma exp_le (a b : R) : a <= b -> exp a <= exp b.
Proof.
  intros [H | ->]; [left; now apply exp_increasing|right; reflexivity].
Qed.

Lemma corner_sums_inter_le (prediction target : Row4) :
  let c := corner_sums prediction target in
  (tl_i c <= tl c /\ tr_i c <= tr c /\ bl_i c <= bl c /\ br_i c <= br c)
  /\ (tl_i c <= tl_hat c /\ tr_i c <= tr_hat c
      /\ bl_i c <= bl_hat c /\ br_i c <= br_hat c).
Proof.
  cbv zeta. unfold corner_sums.
  cbn [tl tr bl br tl_hat tr_hat bl_hat br_hat tl_i tr_i bl_i br_i].
  pose proof (R.le_min_l (t_ target) (t_ prediction)).
  pose proof (R.le_min_r (t_ target) (t_ prediction)).
  pose proof (R.le_min_l (b_ target) (b_ prediction)).
  pose proof (R.le_min_r (b_ target) (b_ prediction)).
  pose proof (R.le_min_l (l_ target) (l_ prediction)).
  pose proof (R.le_min_r (l_ target) (l_ prediction)).
  pose proof (R.le_min_l (r_ target) (r_ prediction)).
  pose proof (R.le_min_r (r_ target) (r_ prediction)).
  repeat split; lra.
Qed.

Lemma I_sum_pos (c : CornerSums) : 0 < I_sum c.
Proof. unfold I_sum. repeat apply Rplus_lt_0_compat; apply exp_pos. Qed.

Lemma I_sum_le (prediction target : Row4) :
  let c := corner_sums prediction target in
  I_sum c <= X_sum c /\ I_sum c <= X_hat_sum c.
Proof.
  cbv zeta. set (c := corner_sums prediction target).
  destruct (corner_sums_inter_le prediction target)
    as [(H1 & H2 & H3 & H4) (H5 & H6 & H7 & H8)].
  fold c in H1, H2, H3, H4, H5, H6, H7, H8.
  unfold I_sum, X_sum, X_hat_sum. split.
  - pose proof (exp_le (tl_i c - max_v c) (tl c - max_v c) ltac:(lra)).
    pose proof (exp_le (tr_i c - max_v c) (tr c - max_v c) ltac:(lra)).
    pose proof (exp_le (bl_i c - max_v c) (bl c - max_v c) ltac:(lra)).
    pose proof (exp_le (br_i c - max_v c) (br c - max_v c) ltac:(lra)).
    lra.
  - pose proof (exp_le (tl_i c - max_v c) (tl_hat c - max_v c) ltac:(lra)).
    pose proof (exp_le (tr_i c - max_v c) (tr_hat c - max_v c) ltac:(lra)).
    pose proof (exp_le (bl_i c - max_v c) (bl_hat c - max_v c) ltac:(lra)).
    pose proof (exp_le (br_i c - max_v c) (br_hat c - max_v c) ltac:(lra)).
    lra.
Qed.

(** The largest of the twelve sums is one of the eight box sums. *)
Lemma max_v_box (prediction target : Row4) :
  let c := corner_sums prediction target in
  In (max_v c) [tl c; tr c; bl c; br c; tl_hat c; tr_hat c; bl_hat c; br_hat c].
Proof.
  cbv zeta. set (c := corner_sums prediction target).
  destruct (corner_sums_inter_le prediction target)
    as [(H1 & H2 & H3 & H4) _].
  fold c in H1, H2, H3, H4.
  assert (Hin : In (max_v c) (corner_list c))
    by (apply IoULoss_max_attained; discriminate).
  assert (Hub : forall x, In x (corner_list c) -> x <= max_v c)
    by (intros x; apply IoULoss_max_upper).
  pose proof (Hub (tl c) ltac:(cbn [In corner_list]; tauto)) as U1.
  pose proof (Hub (tr c) ltac:(cbn [In corner_list]; tauto)) as U2.
  pose proof (Hub (bl c) ltac:(cbn [In corner_list]; tauto)) as U3.
  pose proof (Hub (br c) ltac:(cbn [In corner_list]; tauto)) as U4.
  unfold corner_list in Hin. cbn [In] in Hin |- *.
  destruct Hin as [E|[E|[E|[E|[E|[E|[E|[E|[E|[E|[E|[E|[]]]]]]]]]]]]]; try tauto.
  - left. lra.
  - right; left. lra.
  - right; right; left. lra.
  - right; right; right; left. lra.
Qed.

Lemma X_sums_ge_1 (prediction target : Row4) :
  let c := corner_sums prediction target in
  1 <= X_sum c \/ 1 <= X_hat_sum c.
Proof.
  cbv zeta. set (c := corner_sums prediction target).
  pose proof (max_v_box prediction target) as Hin. cbv zeta in Hin. fold c in Hin.
  unfold X_sum, X_hat_sum.
  pose proof (exp_pos (tl c - max_v c)). pose proof (exp_pos (tr c - max_v c)).
  pose proof (exp_pos (bl c - max_v c)). pose proof (exp_pos (br c - max_v c)).
  pose proof (exp_pos (tl_hat c - max_v c)). pose proof (exp_pos (tr_hat c - max_v c)).
  pose proof (exp_pos (bl_hat c - max_v c)). pose proof (exp_pos (br_hat c - max_v c)).
  cbn [In] in Hin.
  destruct Hin as [E|[E|[E|[E|[E|[E|[E|[E|[]]]]]]]]];
    rewrite <- E in *;
    match goal with
    | H : 0 < exp (?a - ?a) |- _ =>
        replace (a - a) with 0 in * by lra; rewrite exp_0 in *
    end; first [left; lra | right; lra].
Qed.

(** The shift by [max_v] does its work: whatever the predicted and target
    distances, no exponent of [IoULoss.forward] is above 0, so no
    exponential exceeds 1; the intersection term is positive and at most
    each of the two box terms; and the divisor [X + X_hat - I] is at
    least 1. *)
Theorem IoULoss_numerically_safe (prediction target : Row4) :
  let c := corner_sums prediction (log_target target) in
  (forall x, In x (corner_list c) -> x - max_v c <= 0 /\ exp (x - max_v c) <= 1)
  /\ 0 < I_sum c /\ I_sum c <= X_sum c /\ I_sum c <= X_hat_sum c
  /\ 1 <= X_sum c + X_hat_sum c - I_sum c.
Proof.
  cbv zeta. set (c := corner_sums prediction (log_target target)).
  destruct (I_sum_le prediction (log_target target)) as [HX HXh].
  fold c in HX, HXh.
  split; [|split; [apply I_sum_pos|split; [exact HX|split; [exact HXh|]]]].
  - intros x Hin. pose proof (max_v_upper c x Hin) as Hle. split; [exact Hle|].
    rewrite <- exp_0. now apply exp_le.
  - destruct (X_sums_ge_1 prediction (log_target target)) as [H|H];
      fold c in H; lra.
Qed.

Lemma IoULoss_ratio_range (prediction target : Row4) :
  let c := corner_sums prediction target in
  0 < I_sum c / (X_sum c + X_hat_sum c - I_sum c) <= 1.
Proof.
  cbv zeta. set (c := corner_sums prediction target).
  destruct (I_sum_le prediction target) as [HX HXh]. fold c in HX, HXh.
  pose proof (I_sum_pos c) as HI.
  assert (HD : 0 < X_sum c + X_hat_sum c - I_sum c) by lra.
  split.
  - apply Rdiv_lt_0_compat; assumption.
  - apply (Rmult_le_reg_r (X_sum c + X_hat_sum c - I_sum c)); [exact HD|].
    unfold Rdiv. rewrite Rmult_assoc, Rinv_l by lra. lra.
Qed.

Lemma IoULoss_row_bounds (prediction target : Row4) :
  - ln (1 + 1e-7) <= IoULoss_forward_row prediction target < - ln 1e-7.
Proof.
  unfold IoULoss_forward_row. rewrite log_sum_exp_step_sums.
  set (c := corner_sums prediction (log_target target)).
  pose proof (IoULoss_ratio_range prediction (log_target target)) as [Hlo Hhi].
  fold c in Hlo, Hhi.
  set (r := I_sum c / (X_sum c + X_hat_sum c - I_sum c)) in *.
  split.
  - apply Ropp_le_contravar.
    destruct Hhi as [Hlt | ->]; [left; apply ln_increasing; lra|right; reflexivity].
  - apply Ropp_lt_contravar. apply ln_increasing; lra.
Qed.

(** Every entry [IoULoss.forward] returns lies between [-ln(1 + 1e-7)],
    the value for identical boxes, and [-ln(1e-7)]. *)
Theorem IoULoss_forward_bounded (prediction target out : ndarray) :
  IoULoss_forward prediction target = Ok out ->
  Forall (fun v => - ln (1 + 1e-7) <= v < - ln 1e-7) (data out).
Proof.
  unfold IoULoss_forward.
  destruct (shape1 prediction) as [cp|e]; cbn [Py.bind]; [|discriminate].
  destruct (cp =? 4)%nat; cbn [Py.assert Py.bind]; [|discriminate].
  destruct (shape1 target) as [ct|e]; cbn [Py.bind]; [|discriminate].
  destruct (ct =? 4)%nat; cbn [Py.assert Py.bind]; [|discriminate].
  destruct (broadcast_shape _ _) as [s|]; [|discriminate].
  intros [= <-]. cbn [data].
  apply Forall_forall. intros v Hv.
  apply list_elem_of_fmap in Hv as (q & -> & _). apply IoULoss_row_bounds.
Qed.

Lemma IoULoss_forward_bounded_witness :
  exists out,
    IoULoss_forward {| shape := [1%nat; 4%nat]; data := [0; 1; 2; 3] |}
                    {| shape := [1%nat; 4%nat]; data := [4; 3; 2; 1] |} = Ok out
    /\ Forall (fun v => - ln (1 + 1e-7) <= v < - ln 1e-7) (data out).
Proof.
  eexists. split; [apply (IoULoss_forward_2d _ _ 1); reflexivity|].
  apply (IoULoss_forward_bounded
           {| shape := [1%nat; 4%nat]; data := [0; 1; 2; 3] |}
           {| shape := [1%nat; 4%nat]; data := [4; 3; 2; 1] |}).
  apply (IoULoss_forward_2d _ _ 1); reflexivity.
Defined.

(** *** Symmetry and scale invariance *)

Lemma corner_list_swap (p q : Row4) :
  Permutation (corner_list (corner_sums p q)) (corner_list (corner_sums q p)).
Proof.
  unfold corner_list, corner_sums.
  cbn [tl tr bl br tl_hat tr_hat bl_hat br_hat tl_i tr_i bl_i br_i].
  rewrite (Rmin_comm (t_ p) (t_ q)), (Rmin_comm (b_ p) (b_ q)),
    (Rmin_comm (l_ p) (l_ q)), (Rmin_comm (r_ p) (r_ q)).
  set (i1 := Rmin (t_ q) (t_ p) + Rmin (l_ q) (l_ p)).
  set (i2 := Rmin (t_ q) (t_ p) + Rmin (r_ q) (r_ p)).
  set (i3 := Rmin (b_ q) (b_ p) + Rmin (l_ q) (l_ p)).
  set (i4 := Rmin (b_ q) (b_ p) + Rmin (r_ q) (r_ p)).
  apply (Permutation_app_swap_app
           [t_ q + l_ q; t_ q + r_ q; b_ q + l_ q; b_ q + r_ q]
           [t_ p + l_ p; t_ p + r_ p; b_ p + l_ p; b_ p + r_ p]
           [i1; i2; i3; i4]).
Qed.

Lemma max_v_swap (p q : Row4) : max_v (corner_sums p q) = max_v (corner_sums q p).
Proof.
  change (IoULoss_max (corner_list (corner_sums p q))
          = IoULoss_max (corner_list (corner_sums q p))).
  apply IoULoss_max_unique.
  - apply (Permutation_in _ (corner_list_swap q p)).
    apply IoULoss_max_attained. discriminate.
  - intros x Hx. apply IoULoss_max_upper.
    apply (Permutation_in _ (corner_list_swap p q)). exact Hx.
Qed.

Lemma log_sum_exp_step_swap (p q : Row4) :
  log_sum_exp_step (corner_sums p q) = log_sum_exp_step (corner_sums q p).
Proof.
  rewrite !log_sum_exp_step_sums.
  unfold I_sum, X_sum, X_hat_sum. rewrite (max_v_swap p q).
  set (m := max_v (corner_sums q p)).
  unfold corner_sums.
  cbn [tl tr bl br tl_hat tr_hat bl_hat br_hat tl_i tr_i bl_i br_i].
  rewrite (Rmin_comm (t_ p) (t_ q)), (Rmin_comm (b_ p) (b_ q)),
    (Rmin_comm (l_ p) (l_ q)), (Rmin_comm (r_ p) (r_ q)).
  do 3 f_equal. f_equal. lra.
Qed.

(** The loss of [IoULoss.forward] is symmetric in the two boxes: with the
    prediction taken in the log domain of the target, exchanging the
    predicted and the target distances does not change the value. *)
Theorem IoULoss_symmetric (a b : Row4) :
  IoULoss_forward_row (log_target a) b = IoULoss_forward_row (log_target b) a.
Proof. unfold IoULoss_forward_row. apply log_sum_exp_step_swap. Qed.

Lemma corner_sums_shift (c : R) (p q : Row4) :
  corner_sums (shift_row c p) (shift_row c q) = shift_sums (c + c) (corner_sums p q).
Proof.
  unfold corner_sums, shift_sums, shift_row.
  cbn [l_ t_ r_ b_ tl tr bl br tl_hat tr_hat bl_hat br_hat tl_i tr_i bl_i br_i].
  rewrite !R.plus_min_distr_r.
  f_equal; lra.
Qed.

Lemma log_target_scale (s : R) (target : Row4) :
  1 <= s -> 1 <= l_ target -> 1 <= t_ target -> 1 <= r_ target -> 1 <= b_ target ->
  log_target (scale_row s target) = shift_row (ln s) (log_target target).
Proof.
  intros Hs Hl Ht Hr Hb. unfold log_target, scale_row, shift_row.
  cbn [l_ t_ r_ b_].
  assert (E : forall x, 1 <= x -> ln (Rmax (s * x) 1) = ln (Rmax x 1) + ln s).
  { intros x Hx. rewrite !Rmax_left by nra. rewrite ln_mult by lra. lra. }
  now rewrite !E.
Qed.

(** Scaling a box does not change its IoU loss: when target distances of
    at least 1 are multiplied by a factor [s >= 1] and the predicted
    log-distances are moved by [ln s], [IoULoss.forward] returns the same
    value. *)
Theorem IoULoss_scale_invariant (s : R) (prediction target : Row4) :
  1 <= s -> 1 <= l_ target -> 1 <= t_ target -> 1 <= r_ target -> 1 <= b_ target ->
  IoULoss_forward_row (shift_row (ln s) prediction) (scale_row s target)
  = IoULoss_forward_row prediction target.
Proof.
  intros Hs Hl Ht Hr Hb. unfold IoULoss_forward_row.
  rewrite log_target_scale by assumption.
  rewrite corner_sums_shift. apply log_sum_exp_step_shift.
Qed.

Lemma IoULoss_scale_invariant_witness :
  IoULoss_forward_row (shift_row (ln 2) {| l_ := 0; t_ := 1; r_ := 0; b_ := 1 |})
                      (scale_row 2 {| l_ := 1; t_ := 2; r_ := 3; b_ := 4 |})
  = IoULoss_forward_row {| l_ := 0; t_ := 1; r_ := 0; b_ := 1 |}
                        {| l_ := 1; t_ := 2; r_ := 3; b_ := 4 |}.
Proof.
  apply (IoULoss_scale_invariant 2 {| l_ := 0; t_ := 1; r_ := 0; b_ := 1 |}
           {| l_ := 1; t_ := 2; r_ := 3; b_ := 4 |}); cbn [l_ t_ r_ b_]; lra.
Defined.

End LossFacts.

(** ** Running a computation step by step *)

Module STFacts.

Lemma st_bind_run {S A B} (m : ST.M S A) (k : A -> ST.M S B) (s s1 : S) (a : A) :
  m s = (Ok a, s1) -> ST.bind m k s = k a s1.
Proof. intros H. unfold ST.bind. now rewrite H. Qed.

Lemma st_bind_raise {S A B} (m : ST.M S A) (k : A -> ST.M S B) (s s1 : S) (e : Exn) :
  m s = (Raise e, s1) -> ST.bind m k s = (Raise e, s1).
Proof. intros H. unfold ST.bind. now rewrite H. Qed.

Lemma st_bind_lift {S A B} (r : Result A) (k : A -> ST.M S B) (s : S) :
  ST.bind (ST.lift r) k s
  = match r with Ok a => k a s | Raise e => (Raise e, s) end.
Proof. destruct r; reflexivity. Qed.

End STFacts.

(** ** The two selection loops in closed form *)

Module SelectionFacts.

Import TrainRetinanet TrainRetinanetFacts SelectionSpec STFacts.

Lemma set_grad_req_null_run (p : string) (s : Selection) (prm : GluonParameter) :
  params_all s !! p = Some prm ->
  set_grad_req p null s
  = (Ok tt, {| params_all := <[p := freeze prm]> (params_all s);
               params_to_train := params_to_train s;
               logged := logged s |}).
Proof.
  intros Hp. unfold set_grad_req.
  rewrite (st_bind_run _ _ _ _ _ (lookup_param_some p s prm Hp)). reflexivity.
Qed.

Lemma add_to_train_run (p : string) (s : Selection) (prm : GluonParameter) :
  params_all s !! p = Some prm ->
  add_to_train p s
  = (Ok tt, {| params_all := params_all s;
               params_to_train := {[p]} ∪ params_to_train s;
               logged := logged s |}).
Proof.
  intros Hp. unfold add_to_train.
  rewrite (st_bind_run _ _ _ _ _ (lookup_param_some p s prm Hp)). reflexivity.
Qed.

(** Freezing and logging, the body of both inner loops on a match. *)
Lemma freeze_and_log_run (p msg : string) (s : Selection) (prm : GluonParameter)
    {A} (k : ST.M Selection A) :
  params_all s !! p = Some prm ->
  (set_grad_req p null ;;; logging_info msg ;;; k)%st s
  = k {| params_all := <[p := freeze prm]> (params_all s);
         params_to_train := params_to_train s;
         logged := logged s ++ [msg] |}.
Proof.
  intros Hp. rewrite (st_bind_run _ _ _ _ _ (set_grad_req_null_run p s prm Hp)).
  reflexivity.
Qed.

(** *** The inner loops *)

Lemma retina_match_fixed_run (matches : string -> string -> bool) (p : string)
    (fs : list string) (ignore : bool) (s : Selection) (prm : GluonParameter) :
  params_all s !! p = Some prm ->
  exists s',
    match_fixed (fun f p => Ok (matches f p)) p fs ignore s
    = (Ok (ignore || existsb (fun f => matches f p) fs), s')
    /\ params_to_train s' = params_to_train s
    /\ params_all s'
       = if existsb (fun f => matches f p) fs
         then <[p := freeze prm]> (params_all s) else params_all s.
Proof.
  revert ignore s prm. induction fs as [|f rest IH]; intros ignore s prm Hp;
    cbn [match_fixed existsb].
  - exists s. rewrite orb_false_r. auto.
  - unfold ST.bind at 1. unfold ST.lift at 1.
    destruct (matches f p); cbn [orb].
    + rewrite (freeze_and_log_run _ _ _ prm) by exact Hp.
      match goal with
      | |- exists s', ?f ?s1 = _ /\ _ =>
          destruct (IH true s1 (freeze prm)) as (s' & Hrun & Htrain & Hall);
            [cbn [params_all]; apply lookup_insert_eq|]
      end.
      exists s'. rewrite Hrun. rewrite orb_true_r. split; [reflexivity|].
      split; [exact Htrain|]. rewrite Hall. cbn [params_all].
      destruct (existsb _ rest); [|reflexivity].
      now rewrite insert_insert_eq.
    + apply IH. exact Hp.
Qed.

Lemma fcos_match_fixed_run (p : string) (fs : list string) (ignore : bool)
    (s : Selection) (prm : GluonParameter) :
  params_all s !! p = Some prm ->
  exists s',
    TrainFcosSelection.match_fixed p fs ignore s
    = (Ok (ignore
           || existsb (fun f => contains f p && negb (contains "group" p)) fs), s')
    /\ params_to_train s' = params_to_train s
    /\ params_all s'
       = if existsb (fun f => contains f p && negb (contains "group" p)) fs
         then <[p := freeze prm]> (params_all s) else params_all s.
Proof.
  revert ignore s prm. induction fs as [|f rest IH]; intros ignore s prm Hp;
    cbn [TrainFcosSelection.match_fixed existsb].
  - exists s. rewrite orb_false_r. auto.
  - destruct (contains f p && negb (contains "group" p)); cbn [orb].
    + rewrite (freeze_and_log_run _ _ _ prm) by exact Hp.
      match goal with
      | |- exists s', ?f ?s1 = _ /\ _ =>
          destruct (IH true s1 (freeze prm)) as (s' & Hrun & Htrain & Hall);
            [cbn [params_all]; apply lookup_insert_eq|]
      end.
      exists s'. rewrite Hrun. rewrite orb_true_r. split; [reflexivity|].
      split; [exact Htrain|]. rewrite Hall. cbn [params_all].
      destruct (existsb _ rest); [|reflexivity].
      now rewrite insert_insert_eq.
    + apply IH. exact Hp.
Qed.

(** *** One round of each outer loop *)

Lemma retina_select_param_run (matches : string -> string -> bool)
    (fixed : option (list string)) (p : string) (s : Selection)
    (prm : GluonParameter) :
  params_all s !! p = Some prm ->
  exists s',
    select_param (fun f p => Ok (matches f p)) fixed p s = (Ok tt, s')
    /\ params_all s'
       = (if fixed_by_pattern matches fixed p
          then <[p := freeze prm]> (params_all s) else params_all s)
    /\ params_to_train s'
       = (if negb (fixed_by_pattern matches fixed p)
             && negb (bool_decide (grad_req prm = null))
          then {[p]} ∪ params_to_train s else params_to_train s).
Proof.
  intros Hp. unfold select_param.
  rewrite (st_bind_run _ _ _ _ _ (lookup_param_some p s prm Hp)).
  set (ignore0 := bool_decide (grad_req prm = null) && negb (contains "running" p)).
  assert (H1 : exists s1,
             (if ignore0
              then (logging_info ("ignore " +:+ p
                                    +:+ " because its grad req is set to null.") ;;;
                    ST.ret true)%st
              else ST.ret false) s = (Ok ignore0, s1)
             /\ params_all s1 = params_all s
             /\ params_to_train s1 = params_to_train s).
  { destruct ignore0; eexists; (split; [reflexivity|]); split; reflexivity. }
  destruct H1 as (s1 & Hfirst & Hall1 & Htrain1).
  rewrite (st_bind_run _ _ _ _ _ Hfirst).
  assert (Hp1 : params_all s1 !! p = Some prm) by (now rewrite Hall1).
  assert (H2 : exists s2,
             match fixed with
             | Some fs => match_fixed (fun f p => Ok (matches f p)) p fs ignore0
             | None => ST.ret ignore0
             end s1 = (Ok (ignore0 || fixed_by_pattern matches fixed p), s2)
             /\ params_to_train s2 = params_to_train s1
             /\ params_all s2
                = if fixed_by_pattern matches fixed p
                  then <[p := freeze prm]> (params_all s1) else params_all s1).
  { destruct fixed as [fs|]; cbn [fixed_by_pattern].
    - apply retina_match_fixed_run. exact Hp1.
    - exists s1. rewrite orb_false_r. auto. }
  destruct H2 as (s2 & Hsecond & Htrain2 & Hall2).
  rewrite (st_bind_run _ _ _ _ _ Hsecond).
  set (fx := fixed_by_pattern matches fixed p) in *.
  set (prm2 := if fx then freeze prm else prm).
  assert (Hp2 : params_all s2 !! p = Some prm2).
  { rewrite Hall2. unfold prm2. destruct fx; [apply lookup_insert_eq|exact Hp1]. }
  rewrite (st_bind_run _ _ _ _ _ (lookup_param_some p s2 prm2 Hp2)).
  assert (Hguard : negb (ignore0 || fx) && negb (bool_decide (grad_req prm2 = null))
                   = negb fx && negb (bool_decide (grad_req prm = null))).
  { unfold prm2, ignore0. destruct fx; cbn.
    - now rewrite orb_true_r.
    - rewrite orb_false_r. destruct (bool_decide (grad_req prm = null));
        [now rewrite andb_false_r|reflexivity]. }
  rewrite Hguard.
  destruct (negb fx && negb (bool_decide (grad_req prm = null))).
  - rewrite (add_to_train_run p s2 prm2 Hp2). eexists. split; [reflexivity|].
    cbn [params_all params_to_train]. rewrite Hall2, Hall1, Htrain2, Htrain1. auto.
  - exists s2. split; [reflexivity|].
    rewrite Hall2, Hall1, Htrain2, Htrain1. auto.
Qed.

Lemma fcos_select_param_run (fixed : option (list string)) (p : string)
    (s : Selection) (prm : GluonParameter) :
  params_all s !! p = Some prm ->
  exists s',
    TrainFcosSelection.select_param fixed p s = (Ok tt, s')
    /\ params_all s'
       = (if fixed_by_substring fixed p
          then <[p := freeze prm]> (params_all s) else params_all s)
    /\ params_to_train s'
       = (if negb (fixed_by_substring fixed p)
          then {[p]} ∪ params_to_train s else params_to_train s).
Proof.
  intros Hp. unfold TrainFcosSelection.select_param.
  assert (H2 : exists s2,
             match fixed with
             | Some fs => TrainFcosSelection.match_fixed p fs false
             | None => ST.ret false
             end s = (Ok (fixed_by_substring fixed p), s2)
             /\ params_to_train s2 = params_to_train s
             /\ params_all s2
                = if fixed_by_substring fixed p
                  then <[p := freeze prm]> (params_all s) else params_all s).
  { unfold fixed_by_substring. destruct fixed as [fs|]; cbn [fixed_by_pattern].
    - apply (fcos_match_fixed_run p fs false s prm). exact Hp.
    - exists s. auto. }
  destruct H2 as (s2 & Hsecond & Htrain2 & Hall2).
  rewrite (st_bind_run _ _ _ _ _ Hsecond).
  set (fx := fixed_by_substring fixed p) in *.
  destruct fx; cbn [negb].
  - exists s2. split; [reflexivity|]. auto.
  - rewrite (add_to_train_run p s2 prm) by (now rewrite Hall2).
    eexists. split; [reflexivity|]. cbn [params_all params_to_train].
    rewrite Hall2, Htrain2. auto.
Qed.

(** *** The outer loops *)

Section Loop.

Variables (step : string -> ST.M Selection unit)
          (loop : list string -> ST.M Selection unit)
          (fixed : string -> bool) (chosen : string -> GluonParameter -> bool).

Hypothesis loop_nil : loop [] = ST.ret tt.
Hypothesis loop_cons :
  forall p rest, loop (p :: rest) = ST.bind (step p) (fun _ => loop rest).
Hypothesis step_run :
  forall p s prm,
    params_all s !! p = Some prm ->
    exists s',
      step p s = (Ok tt, s')
      /\ params_all s'
         = (if fixed p then <[p := freeze prm]> (params_all s) else params_all s)
      /\ params_to_train s'
         = (if chosen p prm then {[p]} ∪ params_to_train s else params_to_train s).

Lemma loop_run (keys : list string) (s : Selection) :
  NoDup keys -> (forall p, p ∈ keys -> is_Some (params_all s !! p)) ->
  exists s',
    loop keys s = (Ok tt, s')
    /\ (forall p, params_all s' !! p
                  = if bool_decide (p ∈ keys) && fixed p
                    then freeze <$> params_all s !! p
                    else params_all s !! p)
    /\ (forall p, p ∈ params_to_train s'
                  <-> p ∈ params_to_train s
                      \/ (p ∈ keys
                          /\ exists prm, params_all s !! p = Some prm
                                         /\ chosen p prm = true)).
Proof.
  revert s. induction keys as [|p rest IH]; intros s Hnd Hkeys.
  - exists s. rewrite loop_nil. split; [reflexivity|]. split.
    + intros p. rewrite bool_decide_eq_false_2 by (apply not_elem_of_nil). reflexivity.
    + intros p. split; [now left|].
      intros [H|[H _]]; [exact H|]. now apply not_elem_of_nil in H.
  - apply NoDup_cons in Hnd as [Hp Hnd].
    destruct (Hkeys p) as [prm Hprm]; [left|].
    destruct (step_run p s prm Hprm) as (s1 & Hstep & Hall1 & Htrain1).
    assert (Hother : forall q, q <> p -> params_all s1 !! q = params_all s !! q).
    { intros q Hq. rewrite Hall1. destruct (fixed p); [|reflexivity].
      now rewrite lookup_insert_ne by congruence. }
    destruct (IH s1 Hnd) as (s' & Hrun & Hall & Htrain).
    { intros q Hq. rewrite Hother; [apply Hkeys; now right|].
      intros ->. contradiction. }
    exists s'. rewrite loop_cons, (st_bind_run _ _ _ _ _ Hstep).
    split; [exact Hrun|]. split.
    + intros q. rewrite Hall. destruct (decide (q = p)) as [->|Hq].
      * rewrite (bool_decide_eq_false_2 (p ∈ rest)) by exact Hp.
        rewrite bool_decide_eq_true_2 by left. cbn [andb].
        rewrite Hall1, Hprm. destruct (fixed p); [apply lookup_insert_eq|exact Hprm].
      * rewrite Hother by exact Hq.
        assert (Hiff : bool_decide (q ∈ p :: rest) = bool_decide (q ∈ rest)).
        { apply bool_decide_ext. rewrite elem_of_cons. tauto. }
        now rewrite Hiff.
    + intros q. rewrite Htrain, Htrain1. split.
      * intros [Hq|(Hq & prm' & Hprm' & Hsel)].
        -- destruct (chosen p prm) eqn:Hsel; [|now left].
           apply elem_of_union in Hq as [Hq%elem_of_singleton|Hq]; [|now left].
           subst q. right. split; [left|]. eauto.
        -- right. split; [now right|]. exists prm'. split; [|exact Hsel].
           rewrite <- Hother; [exact Hprm'|]. intros ->. contradiction.
      * intros [Hq|(Hq & prm' & Hprm' & Hsel)].
        -- left. destruct (chosen p prm); [|exact Hq].
           apply elem_of_union. now right.
        -- apply elem_of_cons in Hq as [->|Hq].
           ++ left. rewrite Hprm in Hprm'. injection Hprm' as <-.
              rewrite Hsel. apply elem_of_union. left. now apply elem_of_singleton.
           ++ right. split; [exact Hq|]. exists prm'. split; [|exact Hsel].
              rewrite Hother; [exact Hprm'|]. intros ->. contradiction.
Qed.

End Loop.

Lemma keys_of_collected (collected : gmap string GluonParameter) :
  NoDup (map fst (map_to_list collected))
  /\ forall p, p ∈ map fst (map_to_list collected) <-> is_Some (collected !! p).
Proof.
  split; [apply NoDup_fst_map_to_list|].
  intros p. split.
  - intros Hp. apply list_elem_of_fmap in Hp as ([q prm] & -> & Hin).
    apply elem_of_map_to_list in Hin. eauto.
  - intros [prm Hp]. apply list_elem_of_fmap. exists (p, prm).
    split; [reflexivity|]. now apply elem_of_map_to_list.
Qed.

(** For a matcher that does not raise, the selection loop of the
    anchor-based pipeline runs to the end and decides as follows.  A
    collected parameter is handed to the trainer exactly when its gradient
    requirement was not ['null'] and no pattern of [FIXED_PARAMS] matches
    its name.  A parameter that some pattern matches is left with the
    requirement ['null'], every other parameter is left as collected, and
    none is added or removed. *)
Theorem retina_selection_decides (matches : string -> string -> bool)
    (config : Config) (collected : gmap string GluonParameter) :
  let run := train_net_select (fun f p => Ok (matches f p)) config collected in
  fst run = Ok tt
  /\ (forall p, p ∈ params_to_train (snd run)
                <-> exists prm, collected !! p = Some prm
                                /\ grad_req prm <> null
                                /\ fixed_by_pattern matches (FIXED_PARAMS config) p
                                   = false)
  /\ (forall p, params_all (snd run) !! p
                = if fixed_by_pattern matches (FIXED_PARAMS config) p
                  then freeze <$> collected !! p else collected !! p).
Proof.
  cbv zeta. unfold train_net_select.
  destruct (keys_of_collected collected) as [Hnd Hkeys].
  destruct (loop_run
              (select_param (fun f p => Ok (matches f p)) (FIXED_PARAMS config))
              (select_params (fun f p => Ok (matches f p)) (FIXED_PARAMS config))
              (fixed_by_pattern matches (FIXED_PARAMS config))
              (fun p prm => negb (fixed_by_pattern matches (FIXED_PARAMS config) p)
                            && negb (bool_decide (grad_req prm = null)))
              eq_refl (fun _ _ => eq_refl)
              (retina_select_param_run matches (FIXED_PARAMS config))
              (map fst (map_to_list collected))
              {| params_all := collected; params_to_train := ∅; logged := [] |}
              Hnd)
    as (s' & Hrun & Hall & Htrain).
  { intros p Hp. cbn [params_all]. now apply Hkeys. }
  rewrite Hrun. cbn [fst snd]. split; [reflexivity|]. split.
  - intros p. rewrite Htrain. cbn [params_to_train params_all]. split.
    + intros [H|(_ & prm & Hprm & Hsel)]; [now apply not_elem_of_empty in H|].
      apply andb_true_iff in Hsel as [Hfx Hreq].
      apply negb_true_iff in Hfx. apply negb_true_iff, bool_decide_eq_false in Hreq.
      eauto.
    + intros (prm & Hprm & Hreq & Hfx). right. split; [apply Hkeys; eauto|].
      exists prm. split; [exact Hprm|]. rewrite Hfx. cbn [negb andb].
      apply negb_true_iff, bool_decide_eq_false. exact Hreq.
  - intros p. rewrite Hall. cbn [params_all].
    destruct (fixed_by_pattern matches (FIXED_PARAMS config) p);
      [|now rewrite andb_false_r].
    rewrite andb_true_r.
    destruct (collected !! p) as [prm|] eqn:Hp; [|now destruct (bool_decide _)].
    rewrite bool_decide_eq_true_2; [reflexivity|]. apply Hkeys. eauto.
Qed.

(** The selection loop of the anchor-free pipeline always runs to the end.
    A collected parameter is handed to the trainer exactly when no entry of
    [FIXED_PARAMS] occurs in its name, or "group" does: its gradient
    requirement is not looked at, so a parameter collected with the
    requirement ['null'] is handed over as well.  With the empty list that
    [main] configures, every collected parameter is handed over and none
    is changed. *)
Theorem fcos_selection_decides (params_fixed_prefix : option (list string))
    (collected : gmap string GluonParameter) :
  let run := TrainFcosSelection.train_net_select params_fixed_prefix collected in
  fst run = Ok tt
  /\ (forall p, p ∈ params_to_train (snd run)
                <-> is_Some (collected !! p)
                    /\ fixed_by_substring params_fixed_prefix p = false)
  /\ (forall p, params_all (snd run) !! p
                = if fixed_by_substring params_fixed_prefix p
                  then freeze <$> collected !! p else collected !! p)
  /\ (params_fixed_prefix = Some [] ->
      params_all (snd run) = collected
      /\ forall p, p ∈ params_to_train (snd run) <-> is_Some (collected !! p)).
Proof.
  cbv zeta. unfold TrainFcosSelection.train_net_select.
  destruct (keys_of_collected collected) as [Hnd Hkeys].
  destruct (loop_run
              (TrainFcosSelection.select_param params_fixed_prefix)
              (TrainFcosSelection.select_params params_fixed_prefix)
              (fixed_by_substring params_fixed_prefix)
              (fun p _ => negb (fixed_by_substring params_fixed_prefix p))
              eq_refl (fun _ _ => eq_refl)
              (fcos_select_param_run params_fixed_prefix)
              (map fst (map_to_list collected))
              {| params_all := collected; params_to_train := ∅; logged := [] |}
              Hnd)
    as (s' & Hrun & Hall & Htrain).
  { intros p Hp. cbn [params_all]. now apply Hkeys. }
  rewrite Hrun. cbn [fst snd].
  assert (Htrain' : forall p, p ∈ params_to_train s'
                              <-> is_Some (collected !! p)
                                  /\ fixed_by_substring params_fixed_prefix p = false).
  { intros p. rewrite Htrain. cbn [params_to_train params_all]. split.
    - intros [H|(Hin & prm & Hprm & Hsel)]; [now apply not_elem_of_empty in H|].
      apply negb_true_iff in Hsel. split; [eauto|exact Hsel].
    - intros ([prm Hprm] & Hfx). right. split; [apply Hkeys; eauto|].
      exists prm. split; [exact Hprm|]. now rewrite Hfx. }
  assert (Hall' : forall p, params_all s' !! p
                            = if fixed_by_substring params_fixed_prefix p
                              then freeze <$> collected !! p else collected !! p).
  { intros p. rewrite Hall. cbn [params_all].
    destruct (fixed_by_substring params_fixed_prefix p);
      [|now rewrite andb_false_r].
    rewrite andb_true_r.
    destruct (collected !! p) as [prm|] eqn:Hp; [|now destruct (bool_decide _)].
    rewrite bool_decide_eq_true_2; [reflexivity|]. apply Hkeys. eauto. }
  split; [reflexivity|]. split; [exact Htrain'|]. split; [exact Hall'|].
  intros ->. split.
  - apply map_eq. intros p. now rewrite Hall'.
  - intros p. rewrite Htrain'. cbn. tauto.
Qed.

End SelectionFacts.

(** ** Arithmetic of the training and inference scripts *)

Module ScriptFacts.

Import TrainFcos TrainFcosFacts LossFacts TrainRetinanet.

(** *** Padding to the network stride *)

(** [pad] returns the least multiple of 32 that is not below its argument;
    it moves the argument by less than 32 and leaves multiples of 32 where
    they are. *)
Theorem pad_least_multiple (x : Z) :
  ((32 | pad x)
   /\ x <= pad x < x + 32
   /\ (forall m, (32 | m) -> x <= m -> pad x <= m)
   /\ pad (pad x) = pad x)%Z.
Proof.
  unfold pad.
  assert (H32 : (0 < 32)%Z) by lia.
  pose proof (Z.div_mod (- x) 32 ltac:(lia)) as Hdm.
  pose proof (Z.mod_pos_bound (- x) 32 H32) as Hm.
  split; [exists (- (- x / 32))%Z; lia|]. split; [lia|]. split.
  - intros m [k ->] Hle.
    assert (Hk : (- k <= - x / 32)%Z).
    { apply Z.div_le_lower_bound; lia. }
    lia.
  - replace (- (- (- x / 32) * 32))%Z with ((- x / 32) * 32)%Z by lia.
    rewrite Z.div_mul by lia. reflexivity.
Qed.

(** *** The localisation losses *)

(** For a positive [beta], [smooth_l1] is non-negative, never above
    [l1_loss] and at most [beta / 2] below it; its two branches agree where
    they meet, and both losses are symmetric in prediction and target. *)
Theorem smooth_l1_close_to_l1 (pred target beta : R) :
  (0 < beta)%R ->
  (0 <= smooth_l1 pred target beta <= l1_loss pred target
   /\ l1_loss pred target - beta / 2 <= smooth_l1 pred target beta
   /\ (l1_loss pred target = beta -> smooth_l1 pred target beta = beta / 2)
   /\ smooth_l1 target pred beta = smooth_l1 pred target beta
   /\ l1_loss target pred = l1_loss pred target)%R.
Proof.
  intros Hb. unfold smooth_l1, l1_loss. cbv zeta.
  rewrite (Rabs_minus_sym target pred).
  pose proof (Rabs_pos (pred - target)) as Hd.
  set (d := Rabs (pred - target)) in *.
  destruct (Rlt_dec d beta) as [Hlt|Hge].
  - assert (H05 : (0.5 = / 2)%R) by lra.
    assert (E : (0.5 * d * d / beta = d * (d / beta) / 2)%R)
      by (rewrite H05; field; lra).
    assert (Hq : (0 <= d / beta < 1)%R).
    { split.
      - apply Rmult_le_pos; [exact Hd|]. left. now apply Rinv_0_lt_compat.
      - apply (Rmult_lt_reg_r beta); [exact Hb|].
        unfold Rdiv. rewrite Rmult_assoc, Rinv_l by lra. lra. }
    rewrite E. set (q := (d / beta)%R) in *.
    assert (Hdq : (d = q * beta)%R) by (unfold q; field; lra).
    repeat split; try lra; try nra.
  - repeat split; try lra.
Qed.

Lemma smooth_l1_close_to_l1_witness :
  (0 <= smooth_l1 1 0 (1 / 9) <= l1_loss 1 0
   /\ l1_loss 1 0 - (1 / 9) / 2 <= smooth_l1 1 0 (1 / 9)
   /\ (l1_loss 1 0 = 1 / 9 -> smooth_l1 1 0 (1 / 9) = (1 / 9) / 2)
   /\ smooth_l1 0 1 (1 / 9) = smooth_l1 1 0 (1 / 9)
   /\ l1_loss 0 1 = l1_loss 1 0)%R.
Proof. apply (smooth_l1_close_to_l1 1 0 (1 / 9)). lra. Defined.

(** *** The scale factor of inference *)

Lemma IZR_min (a b : Z) : IZR (Z.min a b) = Rmin (IZR a) (IZR b).
Proof.
  destruct (Z.min_spec a b) as [[Hlt ->]|[Hle ->]].
  - rewrite Rmin_left; [reflexivity|]. apply IZR_le. lia.
  - rewrite Rmin_right; [reflexivity|]. now apply IZR_le.
Qed.

Lemma IZR_max (a b : Z) : IZR (Z.max a b) = Rmax (IZR a) (IZR b).
Proof.
  destruct (Z.max_spec a b) as [[Hlt ->]|[Hle ->]].
  - rewrite Rmax_right; [reflexivity|]. apply IZR_le. lia.
  - rewrite Rmax_left; [reflexivity|]. now apply IZR_le.
Qed.

(** For an image with positive sides and positive configured sizes,
    [fscale] is positive; scaled by it, the shorter side is at most
    [image_short_size] and the longer at most [image_max_long_size], one of
    the two exactly; and dividing a scaled coordinate by [fscale], as the
    detections are before they are returned, gives the coordinate back. *)
Theorem fscale_fits (image_short_size image_max_long_size h w : Z) :
  (0 < image_short_size)%Z -> (0 < image_max_long_size)%Z ->
  (0 < h)%Z -> (0 < w)%Z ->
  let f := fscale image_short_size image_max_long_size h w in
  (0 < f
   /\ f * IZR (Z.min h w) <= IZR image_short_size
   /\ f * IZR (Z.max h w) <= IZR image_max_long_size
   /\ (f * IZR (Z.min h w) = IZR image_short_size
       \/ f * IZR (Z.max h w) = IZR image_max_long_size)
   /\ forall x, x * f / f = x)%R.
Proof.
  intros Hs Hl Hh Hw. cbv zeta. unfold fscale.
  assert (Hmin : (0 < IZR (Z.min h w))%R) by (apply IZR_lt; lia).
  assert (Hmax : (0 < IZR (Z.max h w))%R) by (apply IZR_lt; lia).
  assert (Hs' : (0 < IZR image_short_size)%R) by (now apply IZR_lt).
  assert (Hl' : (0 < IZR image_max_long_size)%R) by (now apply IZR_lt).
  set (a := (IZR image_short_size / IZR (Z.min h w))%R).
  set (b := (IZR image_max_long_size / IZR (Z.max h w))%R).
  assert (Ha : (0 < a)%R) by (apply Rdiv_lt_0_compat; assumption).
  assert (Hb : (0 < b)%R) by (apply Rdiv_lt_0_compat; assumption).
  assert (Ea : (a * IZR (Z.min h w) = IZR image_short_size)%R)
    by (unfold a; field; lra).
  assert (Eb : (b * IZR (Z.max h w) = IZR image_max_long_size)%R)
    by (unfold b; field; lra).
  assert (Hf : (0 < Rmin a b)%R) by (apply Rmin_glb_lt; assumption).
  pose proof (R.le_min_l a b) as Hla. pose proof (R.le_min_r a b) as Hlb.
  split; [exact Hf|]. split; [nra|]. split; [nra|]. split.
  - destruct (Rle_dec a b) as [Hab|Hab].
    + left. rewrite Rmin_left by exact Hab. exact Ea.
    + right. rewrite Rmin_right by lra. exact Eb.
  - intros x. field. lra.
Qed.

Lemma fscale_fits_witness :
  let f := fscale 800 1333 480 640 in
  (0 < f
   /\ f * IZR (Z.min 480 640) <= IZR 800
   /\ f * IZR (Z.max 480 640) <= IZR 1333
   /\ (f * IZR (Z.min 480 640) = IZR 800 \/ f * IZR (Z.max 480 640) = IZR 1333)
   /\ forall x, x * f / f = x)%R.
Proof. apply (fscale_fits 800 1333 480 640); lia. Defined.

(** *** The shards of [SplitDataset] *)

(** With [local_size] workers on a dataset of [n] items, every worker's
    shard has [n // local_size] items; the indices read by the workers lie
    inside the dataset, no index is read twice, by one worker or by two,
    and together they are exactly the first
    [(n // local_size) * local_size] items: a remainder at the end of the
    dataset is read by no worker. *)
Theorem SplitDataset_shards (n local_size : Z) :
  (0 <= n)%Z -> (0 < local_size)%Z ->
  exists len,
    SplitDataset_len n local_size = Some len
    /\ (0 <= len)%Z /\ (len * local_size <= n < (len + 1) * local_size)%Z
    /\ (forall rank idx,
           (0 <= rank < local_size)%Z -> (0 <= idx < len)%Z ->
           (0 <= SplitDataset_index local_size rank idx < len * local_size)%Z)
    /\ (forall rank idx rank' idx',
           (0 <= rank < local_size)%Z -> (0 <= rank' < local_size)%Z ->
           SplitDataset_index local_size rank idx
           = SplitDataset_index local_size rank' idx' ->
           rank = rank' /\ idx = idx')
    /\ (forall i, (0 <= i < len * local_size)%Z ->
           exists rank idx,
             (0 <= rank < local_size)%Z /\ (0 <= idx < len)%Z
             /\ SplitDataset_index local_size rank idx = i).
Proof.
  intros Hn Hk. unfold SplitDataset_len, SplitDataset_index.
  destruct (Z.eqb_spec local_size 0) as [->|_]; [lia|].
  exists (n / local_size)%Z. split; [reflexivity|].
  pose proof (Z.div_mod n local_size ltac:(lia)) as Hdm.
  pose proof (Z.mod_pos_bound n local_size Hk) as Hm.
  assert (Hlen : (0 <= n / local_size)%Z) by (apply Z.div_pos; lia).
  split; [exact Hlen|]. split; [nia|]. split; [|split].
  - intros rank idx Hr Hi. nia.
  - intros rank idx rank' idx' Hr Hr' Heq.
    assert (Hidx : idx = idx') by nia. subst idx'. split; [lia|reflexivity].
  - intros i Hi. exists (i mod local_size)%Z, (i / local_size)%Z.
    pose proof (Z.div_mod i local_size ltac:(lia)) as Hdi.
    pose proof (Z.mod_pos_bound i local_size Hk) as Hmi.
    split; [exact Hmi|]. split; [|lia].
    split; [apply Z.div_pos; lia|].
    apply Z.div_lt_upper_bound; lia.
Qed.

Lemma SplitDataset_shards_witness :
  exists len,
    SplitDataset_len 10 4 = Some len
    /\ (0 <= len)%Z /\ (len * 4 <= 10 < (len + 1) * 4)%Z
    /\ (forall rank idx,
           (0 <= rank < 4)%Z -> (0 <= idx < len)%Z ->
           (0 <= SplitDataset_index 4 rank idx < len * 4)%Z)
    /\ (forall rank idx rank' idx',
           (0 <= rank < 4)%Z -> (0 <= rank' < 4)%Z ->
           SplitDataset_index 4 rank idx = SplitDataset_index 4 rank' idx' ->
           rank = rank' /\ idx = idx')
    /\ (forall i, (0 <= i < len * 4)%Z ->
           exists rank idx,
             (0 <= rank < 4)%Z /\ (0 <= idx < len)%Z
             /\ SplitDataset_index 4 rank idx = i).
Proof. apply (SplitDataset_shards 10 4); lia. Defined.

(** *** The classification prior *)

(** The bias the classification branch of [FCOS_Head] starts from is the
    logit of 0.01: the sigmoid that inference applies to the class scores
    maps it to 0.01, and the binary cross entropy of a negative at that
    score is [-ln 0.99]. *)
Theorem init_bias_is_prior :
  (sigmoid init_bias_value = 0.01
   /\ BCELoss_forward_entry init_bias_value 0 = - ln (1 - 0.01))%R.
Proof.
  unfold BCELoss_forward_entry, init_bias_value.
  assert (Hc : (0 < 0.01 < 1)%R) by lra.
  set (c := 0.01%R) in *.
  assert (E : (exp (-1 * ln ((1 - c) / c)) = c / (1 - c))%R).
  { replace (-1 * ln ((1 - c) / c))%R with (- ln ((1 - c) / c))%R by lra.
    rewrite <- ln_Rinv by (apply Rdiv_lt_0_compat; lra).
    rewrite exp_ln; [field; lra|].
    apply Rinv_0_lt_compat, Rdiv_lt_0_compat; lra. }
  split.
  - rewrite sigmoid_alt, E. field. lra.
  - rewrite E.
    replace (1 + c / (1 - c))%R with (/ (1 - c))%R by (field; lra).
    rewrite ln_Rinv by lra. lra.
Qed.

End ScriptFacts.

(** ** The stages of the backbone, for any list of layer counts *)

Module StageFacts.

Import Resnext ResnextFacts.

Local Open Scope Z_scope.

Lemma stages_add_stages (card bw : Z) (lg use_se : bool) (kw : option NormKwargs)
    (layers : list Z) (i : nat) (channels : Z) :
  stages (add_stages card bw lg use_se kw (Z.of_nat i) (channels * 2 ^ Z.of_nat i) layers)
  = imap (fun k n =>
            let ch := channels * 2 ^ Z.of_nat (i + k) in
            let use_dcn := bool_decide (1 <= Z.of_nat (i + k) <= 3) in
            Block_init ch card bw (if (i + k =? 0)%nat then 1 else 2) true
                       lg use_se use_dcn kw
            :: List.repeat (Block_init ch card bw 1 false lg use_se use_dcn kw)
                           (Z.to_nat (n - 1)))
         layers.
Proof.
  revert i. induction layers as [|n rest IH]; intros i; [reflexivity|].
  cbn [add_stages stages _make_layer imap]. f_equal.
  - replace (i + 0)%nat with i by lia.
    assert (Hdcn : bool_decide (Z.of_nat i ∈ [1; 2; 3])
                   = bool_decide (1 <= Z.of_nat i <= 3)).
    { apply bool_decide_ext. rewrite !elem_of_cons, elem_of_nil. lia. }
    rewrite Hdcn.
    assert (Hstride : (if Z.of_nat i =? 0 then 1 else 2)
                      = (if (i =? 0)%nat then 1 else 2)).
    { destruct i; reflexivity. }
    rewrite Hstride. reflexivity.
  - replace (Z.of_nat i + 1) with (Z.of_nat (S i)) by lia.
    replace (channels * 2 ^ Z.of_nat i * 2) with (channels * 2 ^ Z.of_nat (S i)).
    2:{ rewrite Nat2Z.inj_succ, Z.pow_succ_r by lia. lia. }
    rewrite IH. apply imap_ext. intros k m _. cbv zeta.
    replace (S i + k)%nat with (i + S k)%nat by lia. reflexivity.
Qed.

Lemma stages_ResNext_init (layers : list Z) (card bw : Z) (lg use_se : bool)
    (kw : option NormKwargs) :
  stages (features (ResNext_init layers card bw lg use_se kw))
  = imap (fun k n =>
            let ch := 64 * 2 ^ Z.of_nat k in
            let use_dcn := bool_decide (1 <= Z.of_nat k <= 3) in
            Block_init ch card bw (if (k =? 0)%nat then 1 else 2) true
                       lg use_se use_dcn kw
            :: List.repeat (Block_init ch card bw 1 false lg use_se use_dcn kw)
                           (Z.to_nat (n - 1)))
         layers.
Proof.
  unfold ResNext_init. cbn [features app stages].
  exact (stages_add_stages card bw lg use_se kw layers 0 64).
Qed.

(** The loop of [ResNext.__init__] in closed form, for any list [layers]:
    there is one stage per entry; stage [k] (from 0) is built for
    [64 * 2^k] channels; its first block has a downsample branch and the
    stride 1 in stage 0 and 2 in every later stage, every other block has
    no downsample branch and stride 1; the stage holds
    [max(1, num_layer)] blocks, so one block even for a count of zero or
    less; and each block emits [256 * 2^k] channels, in its body and in
    its downsample branch. *)
Theorem ResNext_stage_layout (layers : list Z) (card bw : Z) (lg use_se : bool)
    (kw : option NormKwargs) :
  let net := ResNext_init layers card bw lg use_se kw in
  length (stages (features net)) = length layers
  /\ forall (k : nat) (n : Z),
       layers !! k = Some n ->
       exists first rest,
         stages (features net) !! k = Some (first :: rest)
         /\ length (first :: rest) = Z.to_nat (Z.max 1 n)
         /\ first = Block_init (64 * 2 ^ Z.of_nat k) card bw
                               (if (k =? 0)%nat then 1 else 2) true lg use_se
                               (bool_decide (1 <= Z.of_nat k <= 3)) kw
         /\ (forall b, b ∈ rest ->
                       b = Block_init (64 * 2 ^ Z.of_nat k) card bw 1 false lg use_se
                                      (bool_decide (1 <= Z.of_nat k <= 3)) kw)
         /\ (forall b, b ∈ first :: rest ->
                       block_out_channels b = Some (256 * 2 ^ Z.of_nat k))
         /\ (exists ds, downsample first = Some ds
                        /\ seq_out_channels None ds = Some (256 * 2 ^ Z.of_nat k))
         /\ (forall b, b ∈ rest -> downsample b = None).
Proof.
  cbv zeta. rewrite stages_ResNext_init. split; [apply length_imap|].
  intros k n Hk. eexists _, _. split.
  { rewrite list_lookup_imap, Hk. reflexivity. }
  assert (Hrest : forall b,
             b ∈ List.repeat
                   (Block_init (64 * 2 ^ Z.of_nat k) card bw 1 false lg use_se
                               (bool_decide (1 <= Z.of_nat k <= 3)) kw)
                   (Z.to_nat (n - 1)) ->
             b = Block_init (64 * 2 ^ Z.of_nat k) card bw 1 false lg use_se
                            (bool_decide (1 <= Z.of_nat k <= 3)) kw).
  { intros b Hb. apply list_elem_of_In, repeat_spec in Hb. exact Hb. }
  split; [cbn [length]; rewrite repeat_length; lia|].
  split; [reflexivity|]. split; [exact Hrest|]. split; [|split].
  - intros b Hb.
    assert (Hb' : exists stride ds,
               b = Block_init (64 * 2 ^ Z.of_nat k) card bw stride ds lg use_se
                              (bool_decide (1 <= Z.of_nat k <= 3)) kw).
    { apply elem_of_cons in Hb as [->|Hb]; [eauto|].
      rewrite (Hrest b Hb). eauto. }
    destruct Hb' as (stride & ds & ->).
    rewrite Block_init_out_channels. f_equal. lia.
  - eexists. split; [reflexivity|]. cbn. f_equal. lia.
  - intros b Hb. rewrite (Hrest b Hb). reflexivity.
Qed.

Lemma ResNext_stage_layout_witness :
  exists first rest,
    stages (features (ResNext_init [3; 4; 6; 3] 32 4 false false None)) !! 2%nat
    = Some (first :: rest)
    /\ length (first :: rest) = 6%nat
    /\ block_out_channels first = Some 1024.
Proof.
  destruct (proj2 (ResNext_stage_layout [3; 4; 6; 3] 32 4 false false None)
              2%nat 6 eq_refl)
    as (first & rest & Hk & Hlen & _ & _ & Hout & _).
  exists first, rest. split; [exact Hk|]. split; [exact Hlen|].
  apply Hout. left.
Defined.

(** Deformable convolutions sit in stages 1, 2 and 3 (from 0) and nowhere
    else: there the 3x3 convolution of every block is a
    [DeformabelConv2D] with as many input channels as filters, the
    block's group width, [cardinality] groups, dilation 1 and padding 1; in
    stage 0 and from stage 4 on it is a plain grouped convolution.  For a
    non-zero [cardinality] the weight of the deformable convolution has the
    shape [(cardinality * D, D, 3, 3)], and the 72 channels of its offset
    branch are [2 * 3 * 3] offsets for each of the 4 deformable groups. *)
Theorem deformable_conv_placement (layers : list Z) (card bw : Z) (lg use_se : bool)
    (kw : option NormKwargs) (k : nat) (blocks : list Block) (b : Block) :
  stages (features (ResNext_init layers card bw lg use_se kw)) !! k = Some blocks ->
  b ∈ blocks ->
  let D := Block_D (64 * 2 ^ Z.of_nat k) bw in
  exists stride,
    (stride = 1 \/ stride = 2)
    /\ block_conv3x3 b
       = Some (if bool_decide (1 <= Z.of_nat k <= 3)
               then DeformabelConv2D (card * D) 3 stride 1 1 false (card * D) card
               else Conv2D (card * D) 3 stride 1 card false)
    /\ (card <> 0 ->
        DeformabelConv2D_weight_shape (card * D) 3 (card * D) card
        = Some [card * D; D; 3; 3])
    /\ conv_offset_channels = 2 * 3 * 3 * num_deformable_group.
Proof.
  intros Hk Hb. cbv zeta.
  rewrite stages_ResNext_init, list_lookup_imap in Hk.
  destruct (layers !! k) as [n|] eqn:Hn; [|discriminate].
  injection Hk as <-. cbv zeta in Hb.
  assert (Hb' : exists stride ds,
             (stride = 1 \/ stride = 2)
             /\ b = Block_init (64 * 2 ^ Z.of_nat k) card bw stride ds lg use_se
                               (bool_decide (1 <= Z.of_nat k <= 3)) kw).
  { apply elem_of_cons in Hb as [->|Hb].
    - eexists _, _. split; [|reflexivity]. destruct (k =? 0)%nat; auto.
    - apply list_elem_of_In, repeat_spec in Hb. subst b.
      eexists _, _. split; [|reflexivity]. auto. }
  destruct Hb' as (stride & ds & Hstride & ->).
  exists stride. split; [exact Hstride|]. split; [|split].
  - unfold block_conv3x3, Block_init, _conv3x3. cbn [body lookup list_lookup].
    destruct (bool_decide (1 <= Z.of_nat k <= 3)); reflexivity.
  - intros Hcard. unfold DeformabelConv2D_weight_shape.
    destruct (Z.eqb_spec card 0) as [|_]; [contradiction|].
    rewrite Z.mul_comm, Z.div_mul by exact Hcard. rewrite Z.mul_comm. reflexivity.
  - reflexivity.
Qed.

Lemma deformable_conv_placement_witness :
  exists stride,
    block_conv3x3 (Block_init 128 32 4 2 true false false true None)
    = Some (DeformabelConv2D (32 * Block_D 128 4) 3 stride 1 1 false
                             (32 * Block_D 128 4) 32).
Proof.
  destruct (deformable_conv_placement [3; 4; 6; 3] 32 4 false false None 1%nat
              (Block_init 128 32 4 2 true false false true None
               :: List.repeat (Block_init 128 32 4 1 false false false true None) 3)
              (Block_init 128 32 4 2 true false false true None)
              eq_refl (list_elem_of_here _ _))
    as (stride & _ & Hconv & _).
  exists stride. exact Hconv.
Defined.


End StageFacts.

(** ** The target adapter of the anchor-free pipeline as a function *)

Module TargetGeneratorFacts.

Import Numpy Heap HeapFacts TrainFcos STFacts.

Lemma load_run (h : heap) (l : loc) (a : ndarray) :
  h !! l = Some a -> load l h = (Ok a, h).
Proof. intros H. unfold load. now rewrite H. Qed.

Lemma st_bind_alloc {B} (a : ndarray) (k : loc -> ST.M heap B) (h : heap) :
  ST.bind (alloc a) k h = k (fresh (dom h)) (<[fresh (dom h) := a]> h).
Proof. reflexivity. Qed.

Lemma st_bind_store {B} (l : loc) (a : ndarray) (k : unit -> ST.M heap B) (h : heap) :
  ST.bind (store l a) k h = k tt (<[l := a]> h).
Proof. reflexivity. Qed.

Lemma preserves_trans (h0 h1 h2 : heap) :
  preserves h0 h1 -> preserves h1 h2 -> preserves h0 h2.
Proof. intros H01 H12 l a Hl. apply H12, H01, Hl. Qed.

Lemma preserves_insert_fresh (h : heap) (l : loc) (a : ndarray) :
  h !! l = None -> preserves h (<[l := a]> h).
Proof.
  intros Hl l' a' Hl'. rewrite lookup_insert_ne; [exact Hl'|]. congruence.
Qed.

Lemma fresh_not_in (h0 h : heap) :
  preserves h0 h -> h0 !! fresh (dom h) = None.
Proof.
  intros Hp. destruct (h0 !! fresh (dom h)) as [x|] eqn:Hx; [|reflexivity].
  exfalso. apply (is_fresh (dom h)). apply elem_of_dom. exists x. now apply Hp.
Qed.

Section Value.

Variable to_float32 : R -> R.
Variable FCOSTargetGenerator_op :
  Z -> Z -> Z -> Z -> ndarray -> ndarray -> Result (ndarray * (ndarray * ndarray)).

Variables (self : Config) (image bboxes : loc) (img b1 : ndarray) (h0 : heap).
Hypothesis Himage : h0 !! image = Some img.
Hypothesis Hbboxes : h0 !! bboxes = Some b1.

(** One pyramid level: the value does not depend on what earlier levels
    left in the heap. *)
Lemma level_target_run (level : Z * Z * Z) (h : heap) :
  preserves h0 h ->
  fst (level_target to_float32 FCOSTargetGenerator_op self image bboxes level h)
  = level_target_value to_float32 FCOSTargetGenerator_op self img b1 level
  /\ preserves h0
       (snd (level_target to_float32 FCOSTargetGenerator_op self image bboxes level h)).
Proof.
  intros Hp.
  pose proof (frame_level_target to_float32 FCOSTargetGenerator_op
                h0 self image bboxes level h Hp) as [Hpres _].
  split; [|exact Hpres]. clear Hpres.
  unfold level_target, level_target_value.
  destruct level as [[stride min_distance] max_distance].
  rewrite (st_bind_run _ _ _ _ _ (load_run h image img (Hp _ _ Himage))).
  unfold ST.bind at 1. unfold alloc at 1.
  set (l1 := fresh (dom h)). set (h1 := <[l1 := astype_float32 to_float32 img]> h).
  assert (Hl1 : h0 !! l1 = None) by (now apply fresh_not_in).
  assert (Hb1 : h1 !! bboxes = Some b1).
  { unfold h1. rewrite lookup_insert_ne; [now apply Hp|]. congruence. }
  rewrite (st_bind_run _ _ _ _ _ (load_run h1 bboxes b1 Hb1)).
  unfold ST.bind at 1. unfold alloc at 1.
  unfold ST.bind at 1. unfold ST.lift at 1.
  destruct (FCOSTargetGenerator_op stride min_distance max_distance (NUM_CLASSES self)
              (astype_float32 to_float32 img) (astype_float32 to_float32 b1))
    as [r|e]; cbn [Py.bind]; [|reflexivity].
  unfold ST.bind at 1. unfold store at 1.
  unfold ST.bind at 1. unfold store at 1.
  unfold ST.bind at 1. unfold ST.lift at 1.
  destruct (transpose_201 (fst r)) as [target|e]; cbn [Py.bind]; [|reflexivity].
  reflexivity.
Qed.

Lemma level_targets_run (levels : list (Z * Z * Z)) (h : heap) :
  preserves h0 h ->
  exists h',
    level_targets to_float32 FCOSTargetGenerator_op self image bboxes levels h
    = (level_target_values to_float32 FCOSTargetGenerator_op self img b1 levels, h')
    /\ preserves h0 h'.
Proof.
  revert h. induction levels as [|level rest IH]; intros h Hp;
    cbn [level_targets level_target_values].
  - exists h. split; [reflexivity|exact Hp].
  - destruct (level_target_run level h Hp) as [Hv Hp1].
    destruct (level_target to_float32 FCOSTargetGenerator_op self image bboxes level h)
      as [r h1] eqn:E1. cbn [fst snd] in Hv, Hp1. rewrite <- Hv.
    destruct r as [target|e]; cbn [Py.bind].
    2:{ exists h1. rewrite (st_bind_raise _ _ _ _ _ E1). split; [reflexivity|exact Hp1]. }
    rewrite (st_bind_run _ _ _ _ _ E1).
    destruct (IH h1 Hp1) as (h2 & E2 & Hp2).
    destruct (level_target_values to_float32 FCOSTargetGenerator_op self img b1 rest)
      as [targets|e]; cbn [Py.bind]; exists h2.
    + rewrite (st_bind_run _ _ _ _ _ E2). split; [reflexivity|exact Hp2].
    + rewrite (st_bind_raise _ _ _ _ _ E2). split; [reflexivity|exact Hp2].
Qed.

End Value.

(** [FCOSTargetGenerator.__call__] computes a function of the contents of
    its two arguments.  When that function raises, the call raises the
    same exception: [ValueError] for an image that is not
    three-dimensional, the [IndexError] of a box array without a fifth
    column, and whatever the native kernel, the transposition or the
    concatenation raise.  Otherwise the call returns two new arrays,
    distinct from each other and from every array that existed before,
    holding the image rounded to single precision and the concatenated
    targets.  The native kernel sees, at every pyramid level, the rounded
    image and the rounded copy of the boxes with the class column
    incremented once, whatever the kernel wrote to its buffers at earlier
    levels. *)
Theorem FCOSTargetGenerator_call_value
    (to_float32 : R -> R)
    (FCOSTargetGenerator_op :
       Z -> Z -> Z -> Z -> ndarray -> ndarray -> Result (ndarray * (ndarray * ndarray)))
    (self : Config) (image bboxes : loc) (h : heap) (img b : ndarray) :
  h !! image = Some img -> h !! bboxes = Some b ->
  let run := FCOSTargetGenerator_call to_float32 FCOSTargetGenerator_op
               self image bboxes h in
  match FCOSTargetGenerator_value to_float32 FCOSTargetGenerator_op self img b with
  | Ok (out0, out1) =>
      exists l0 l1,
        fst run = Ok [l0; l1]
        /\ l0 <> l1 /\ h !! l0 = None /\ h !! l1 = None
        /\ snd run !! l0 = Some out0 /\ snd run !! l1 = Some out1
  | Raise e => fst run = Raise e
  end.
Proof.
  intros Himg Hb. cbv zeta.
  remember (FCOSTargetGenerator_call to_float32 FCOSTargetGenerator_op
              self image bboxes h) as run eqn:Hrun.
  unfold FCOSTargetGenerator_call in Hrun. unfold FCOSTargetGenerator_value.
  rewrite (st_bind_run _ _ _ _ _ (load_run h image img Himg)) in Hrun.
  rewrite st_bind_lift in Hrun.
  destruct (match shape img with [_; _; _] => Ok tt | _ => Raise ValueError end)
    as [[]|e]; cbn [Py.bind]; [|now subst run].
  rewrite (st_bind_run _ _ _ _ _ (load_run h bboxes b Hb)) in Hrun.
  rewrite st_bind_alloc in Hrun.
  set (lc := fresh (dom h)) in Hrun. set (h1 := <[lc := b]> h) in Hrun.
  assert (Hlc : h !! lc = None) by (apply fresh_not_in, preserves_refl).
  assert (Hlc1 : h1 !! lc = Some b) by apply lookup_insert_eq.
  rewrite (st_bind_run _ _ _ _ _ (load_run h1 lc b Hlc1)) in Hrun.
  rewrite st_bind_lift in Hrun.
  destruct (iadd_axis1 4 1 b) as [b1|e]; cbn [Py.bind]; [|now subst run].
  rewrite st_bind_store in Hrun.
  set (h2 := <[lc := b1]> h1) in Hrun.
  assert (Hp2 : preserves h h2).
  { unfold h2, h1. rewrite insert_insert_eq. now apply preserves_insert_fresh. }
  assert (Himg2 : h2 !! image = Some img) by (now apply Hp2).
  assert (Hb2 : h2 !! lc = Some b1) by apply lookup_insert_eq.
  destruct (level_targets_run to_float32 FCOSTargetGenerator_op self image lc img b1 h2
              Himg2 Hb2
              (zip3 (FPN_SCALES self) (FPN_MINIMUM_DISTANCES self)
                    (FPN_MAXIMUM_DISTANCES self))
              h2 (preserves_refl h2)) as (h3 & E3 & Hp3).
  destruct (level_target_values to_float32 FCOSTargetGenerator_op self img b1 _)
    as [targets|e]; cbn [Py.bind].
  2:{ rewrite (st_bind_raise _ _ _ _ _ E3) in Hrun. now subst run. }
  rewrite (st_bind_run _ _ _ _ _ E3) in Hrun.
  rewrite st_bind_lift in Hrun.
  destruct (concatenate_axis1 targets) as [cat|e]; cbn [Py.bind]; [|now subst run].
  assert (Hp03 : preserves h h3) by (eapply preserves_trans; eassumption).
  rewrite (st_bind_run _ _ _ _ _ (load_run h3 image img (Hp3 _ _ Himg2))) in Hrun.
  rewrite !st_bind_alloc in Hrun. unfold ST.ret in Hrun.
  set (l0 := fresh (dom h3)) in Hrun.
  set (h4 := <[l0 := astype_float32 to_float32 img]> h3) in Hrun.
  set (l1 := fresh (dom h4)) in Hrun.
  assert (Hl0 : h !! l0 = None) by (now apply fresh_not_in).
  assert (Hp04 : preserves h h4).
  { eapply preserves_trans; [exact Hp03|].
    apply preserves_insert_fresh, fresh_not_in, preserves_refl. }
  assert (Hl1 : h !! l1 = None) by (now apply fresh_not_in).
  assert (Hne : l0 <> l1).
  { intros Heq. apply (is_fresh (dom h4)). fold l1. rewrite <- Heq.
    apply elem_of_dom. exists (astype_float32 to_float32 img).
    apply lookup_insert_eq. }
  subst run. cbn [fst snd].
  exists l0, l1. split; [reflexivity|]. split; [exact Hne|].
  split; [exact Hl0|]. split; [exact Hl1|]. split.
  - rewrite lookup_insert_ne by (intros Heq; apply Hne; symmetry; exact Heq).
    apply lookup_insert_eq.
  - apply lookup_insert_eq.
Qed.

Lemma FCOSTargetGenerator_sample_value :
  exists out1,
    FCOSTargetGenerator_value (fun x => x) sample_kernel (main_config 81)
                              sample_image sample_boxes
    = Ok (astype_float32 (fun x => x) sample_image, out1).
Proof. eexists. cbn -[Rplus]. reflexivity. Qed.

Lemma FCOSTargetGenerator_call_value_witness :
  let h : heap := <[2%positive := sample_boxes]> (<[1%positive := sample_image]> ∅) in
  let run := FCOSTargetGenerator_call (fun x => x) sample_kernel (main_config 81)
               1%positive 2%positive h in
  exists l0 l1,
    fst run = Ok [l0; l1] /\ l0 <> l1
    /\ snd run !! l0 = Some (astype_float32 (fun x => x) sample_image).
Proof.
  cbv zeta.
  pose proof (FCOSTargetGenerator_call_value
                (fun x => x) sample_kernel (main_config 81) 1%positive 2%positive
                (<[2%positive := sample_boxes]> (<[1%positive := sample_image]> ∅))
                sample_image sample_boxes) as H.
  cbv zeta in H.
  destruct FCOSTargetGenerator_sample_value as [out1 Hv]. rewrite Hv in H.
  destruct H as (l0 & l1 & Hrun & Hne & _ & _ & Hl0 & _).
  - rewrite lookup_insert_ne by discriminate. apply lookup_insert_eq.
  - apply lookup_insert_eq.
  - exists l0, l1. split; [exact Hrun|]. split; [exact Hne|exact Hl0].
Defined.

(** The two ways the adapter turns its arguments down before the native
    kernel is reached.  An image that does not have exactly three axes
    raises [ValueError] and leaves the heap as it was, not even the copy
    of the boxes is made.  With a three-axis image, a box array with fewer
    than two axes or fewer than five columns raises [IndexError] at the
    class-column increment. *)
Theorem FCOSTargetGenerator_call_rejects
    (to_float32 : R -> R)
    (FCOSTargetGenerator_op :
       Z -> Z -> Z -> Z -> ndarray -> ndarray -> Result (ndarray * (ndarray * ndarray)))
    (self : Config) (image bboxes : loc) (h : heap) (img b : ndarray) :
  h !! image = Some img -> h !! bboxes = Some b ->
  let run := FCOSTargetGenerator_call to_float32 FCOSTargetGenerator_op
               self image bboxes h in
  (length (shape img) <> 3%nat -> run = (Raise ValueError, h))
  /\ (length (shape img) = 3%nat ->
      (forall c, shape b !! 1%nat = Some c -> (c <= 4)%nat ->
                 fst run = Raise IndexError)
      /\ (shape b !! 1%nat = None -> fst run = Raise IndexError)).
Proof.
  intros Himg Hb. cbv zeta.
  remember (FCOSTargetGenerator_call to_float32 FCOSTargetGenerator_op
              self image bboxes h) as run eqn:Hrun.
  unfold FCOSTargetGenerator_call in Hrun.
  rewrite (st_bind_run _ _ _ _ _ (load_run h image img Himg)) in Hrun.
  rewrite st_bind_lift in Hrun.
  split.
  - intros Hlen.
    destruct (shape img) as [|d0 [|d1 [|d2 [|d3 s]]]]; cbn [length] in Hlen;
      try exact Hrun. lia.
  - intros Hlen.
    destruct (shape img) as [|d0 [|d1 [|d2 [|d3 s]]]]; cbn [length] in Hlen;
      try discriminate Hlen.
    rewrite (st_bind_run _ _ _ _ _ (load_run h bboxes b Hb)) in Hrun.
    rewrite st_bind_alloc in Hrun.
    assert (Hcopy : <[fresh (dom h) := b]> h !! fresh (dom h) = Some b)
      by apply lookup_insert_eq.
    rewrite (st_bind_run _ _ _ _ _ (load_run _ _ b Hcopy)) in Hrun.
    rewrite st_bind_lift in Hrun. unfold iadd_axis1 in Hrun.
    split.
    + intros c Hc Hle.
      destruct (shape b) as [|n [|c' rest]]; try discriminate Hc.
      injection Hc as ->.
      destruct (Nat.ltb_spec 4 c) as [|_]; [lia|]. now subst run.
    + intros Hnone.
      destruct (shape b) as [|n [|c' rest]]; try discriminate Hnone; now subst run.
Qed.

Lemma FCOSTargetGenerator_call_rejects_witness :
  FCOSTargetGenerator_call (fun x => x) sample_kernel (main_config 81)
    1%positive 2%positive
    (<[2%positive := sample_boxes]> (<[1%positive := full [2%nat; 2%nat] 0%R]> ∅))
  = (Raise ValueError,
     <[2%positive := sample_boxes]> (<[1%positive := full [2%nat; 2%nat] 0%R]> ∅)).
Proof.
  apply (proj1 (FCOSTargetGenerator_call_rejects
                  (fun x => x) sample_kernel (main_config 81) 1%positive 2%positive
                  (<[2%positive := sample_boxes]>
                     (<[1%positive := full [2%nat; 2%nat] 0%R]> ∅))
                  (full [2%nat; 2%nat] 0%R) sample_boxes
                  ltac:(rewrite lookup_insert_ne by discriminate;
                        apply lookup_insert_eq)
                  (lookup_insert_eq _ _ _))).
  cbn [shape full length]. discriminate.
Defined.

End TargetGeneratorFacts.

